(** * Airline dashboard (app.py): a shallow embedding and its checked properties

    The development follows the layout of [app.py]:
    - [PyStr]: the few [str] methods the program calls;
    - [Markdown]: [markdown_to_html];
    - [Float]: Python floats and the numpy operations applied to them;
    - [Frame]: the pandas operations used on the flight table;
    - [Normalizer]: [process_flight_data];
    - [Net]: the network boundary (token exchange, flight search, text
      generation) as logged events answered by a [world];
    - [App]: [get_ai_insights], [index] and [api_price_trend].

    The properties follow ([FloatFacts], [InsightFacts], [RouteFacts],
    [FrameFacts], [NormalizerFacts], [MarkdownFacts]) and are extended in
    [RouteExtras], [FrameExtras], [NormalizerExtras] and [MarkdownExtras].

    Modelling conventions.
    - A Python [str] is a [string]; each [ascii] stands for one code point
      in the range 0..255.
    - A price (a Python [float]) is a binary64 number: every operation
      delivers the exact result rounded to the nearest such number, ties to
      even, with the infinities, NaN and the negative zero.
    - Where numpy leaves the outcome open (the order of equal values in
      [sort_values]) the choice belongs to the [world].
    - A [DataFrame] is the list of its rows, in index order. *)

From Stdlib Require Import List String Ascii Bool Arith ZArith.
From Stdlib Require Import QArith Qround Qabs Qpower.
From Stdlib Require Import Lia Lqa Sorted Permutation.
Import ListNotations.

Local Open Scope list_scope.
Local Open Scope string_scope.

(* ================================================================== *)
(** ** Python string primitives *)

Module PyStr.

(** The line feed, the separator of [text.split('\n')]. *)
Definition LF : ascii := "010"%char.

Definition is_newline (c : ascii) : bool := Ascii.eqb c LF.

(** [str.isspace] on one character, for the code points below 256:
    TAB..CR, FS..US, SPACE, NEL and NBSP. *)
Definition is_space (c : ascii) : bool :=
  let n := nat_of_ascii c in
  ((9 <=? n)%nat && (n <=? 13)%nat) || ((28 <=? n)%nat && (n <=? 32)%nat)
  || (n =? 133)%nat || (n =? 160)%nat.

Fixpoint lstrip (s : string) : string :=
  match s with
  | EmptyString => EmptyString
  | String c s' => if is_space c then lstrip s' else s
  end.

Fixpoint rstrip (s : string) : string :=
  match s with
  | EmptyString => EmptyString
  | String c s' =>
      match rstrip s' with
      | EmptyString => if is_space c then EmptyString else String c EmptyString
      | r => String c r
      end
  end.

(** [s.strip()] *)
Definition strip (s : string) : string := rstrip (lstrip s).

(** A line is blank when it holds white space only. *)
Fixpoint blank (s : string) : bool :=
  match s with
  | EmptyString => true
  | String c s' => is_space c && blank s'
  end.

(** [s.split('\n')]: never empty, [""] splits into [[""]]. *)
Fixpoint split_lines (s : string) : list string :=
  match s with
  | EmptyString => [EmptyString]
  | String c s' =>
      if is_newline c then EmptyString :: split_lines s'
      else match split_lines s' with
           | h :: t => String c h :: t
           | [] => [String c EmptyString]
           end
  end.

(** [s.startswith(p)] *)
Fixpoint startswith (p s : string) : bool :=
  match p, s with
  | EmptyString, _ => true
  | String _ _, EmptyString => false
  | String a p', String b s' => Ascii.eqb a b && startswith p' s'
  end.

(** [s[n:]] *)
Fixpoint slice_from (n : nat) (s : string) : string :=
  match n, s with
  | O, _ => s
  | S n', String _ s' => slice_from n' s'
  | S _, EmptyString => EmptyString
  end.

(** [''.join(parts)] *)
Definition join (parts : list string) : string :=
  fold_right String.append EmptyString parts.

(** [s.split(sep)[0]] for a one-character separator: the text before the
    first occurrence of [sep], or all of [s] when there is none. *)
Fixpoint before_first (sep : ascii) (s : string) : string :=
  match s with
  | EmptyString => EmptyString
  | String c s' =>
      if Ascii.eqb c sep then EmptyString else String c (before_first sep s')
  end.

(** [c not in s] *)
Fixpoint lacks (c : ascii) (s : string) : bool :=
  match s with
  | EmptyString => true
  | String c' s' => negb (Ascii.eqb c' c) && lacks c s'
  end.

(** The text ["\n"]. *)
Definition LFs : string := String LF "".

End PyStr.

(* ================================================================== *)
(** ** markdown_to_html *)

Module Markdown.
Import PyStr.

Definition is_star (c : ascii) : bool := Ascii.eqb c "*"%char.

(** The text after a leading ["**"], if [s] starts with one. *)
Definition after_stars (s : string) : option string :=
  match s with
  | String c1 (String c2 r) => if is_star c1 && is_star c2 then Some r else None
  | _ => None
  end.

(** The lazy group [(.*?)] followed by [\*\*]: the shortest run of
    characters other than the line feed that is followed by ["**"],
    together with what comes after that ["**"]. *)
Fixpoint lazy_group (s : string) : option (string * string) :=
  match after_stars s with
  | Some rest => Some (EmptyString, rest)
  | None =>
      match s with
      | EmptyString => None
      | String c s' =>
          if is_newline c then None
          else match lazy_group s' with
               | Some (g, rest) => Some (String c g, rest)
               | None => None
               end
      end
  end.

(** A match of [\*\*(.*?)\*\*] anchored at the start of [s]: the group and
    the text after the match. *)
Definition match_bold (s : string) : option (string * string) :=
  match after_stars s with
  | Some r => lazy_group r
  | None => None
  end.

(** [re.sub(r'\*\*(.*?)\*\*', r'<strong>\1</strong>', s)], scanning from
    the left; [fuel] bounds the number of scanning steps. *)
Fixpoint re_sub_bold (fuel : nat) (s : string) : string :=
  match fuel with
  | O => s
  | S fuel' =>
      match s with
      | EmptyString => EmptyString
      | String c s' =>
          match match_bold s with
          | Some (g, rest) =>
              "<strong>" ++ g ++ "</strong>" ++ re_sub_bold fuel' rest
          | None => String c (re_sub_bold fuel' s')
          end
      end
  end.

(** Every step consumes a character, so the length of the text is fuel
    enough. *)
Definition bold (s : string) : string := re_sub_bold (String.length s) s.

Definition is_list_item (line : string) : bool :=
  startswith "* " line || startswith "- " line.

(** [html_output.append(x)] *)
Definition append_item (html_output : list string) (x : string) : list string :=
  app html_output [x].

(** One turn of the [for line in lines] loop on the state
    [(html_output, in_list)]. *)
Definition line_step (st : list string * bool) (line : string)
  : list string * bool :=
  let '(html_output, in_list) := st in
  let line := strip line in
  if String.eqb line "" then st
  else if is_list_item line then
    let html_output :=
      if in_list then html_output else append_item html_output "<ul>" in
    (append_item html_output ("<li>" ++ slice_from 2 line ++ "</li>"), true)
  else
    let html_output :=
      if in_list then append_item html_output "</ul>" else html_output in
    (append_item html_output ("<p>" ++ line ++ "</p>"), false).

Definition markdown_to_html (text : string) : string :=
  let text := bold text in
  let lines := split_lines (strip text) in
  let '(html_output, in_list) := fold_left line_step lines ([], false) in
  let html_output :=
    if in_list then append_item html_output "</ul>" else html_output in
  join html_output.

(** The last line of [text] that is not blank. *)
Fixpoint last_nonblank (lines : list string) : option string :=
  match lines with
  | [] => None
  | l :: rest =>
      match last_nonblank rest with
      | Some x => Some x
      | None => if blank l then None else Some l
      end
  end.

Definition last_nonblank_line (text : string) : option string :=
  last_nonblank (split_lines text).

Definition ends_with (suffix s : string) : Prop :=
  exists front, s = front ++ suffix.

(** The text the loop adds to the output for [lines] when it starts in
    state [in_list], the closing tag of an open list included. *)
Fixpoint render (in_list : bool) (lines : list string) : string :=
  match lines with
  | [] => if in_list then "</ul>" else ""
  | l :: rest =>
      let line := strip l in
      if String.eqb line "" then render in_list rest
      else if is_list_item line then
        (if in_list then "" else "<ul>")
        ++ ("<li>" ++ slice_from 2 line ++ "</li>") ++ render true rest
      else
        (if in_list then "</ul>" else "")
        ++ ("<p>" ++ line ++ "</p>") ++ render false rest
  end.

(** The lines of [lstrip t] in terms of the lines of [t]: leading blank
    lines go, the first other line loses its leading white space. *)
Fixpoint lstrip_lines (lines : list string) : list string :=
  match lines with
  | [] => []
  | l :: rest =>
      if blank l then
        match rest with
        | [] => [EmptyString]
        | _ :: _ => lstrip_lines rest
        end
      else lstrip l :: rest
  end.

(** The lines of [rstrip t] in terms of the lines of [t]: trailing blank
    lines go, the last other line loses its trailing white space. *)
Fixpoint rstrip_lines (lines : list string) : list string :=
  match lines with
  | [] => []
  | l :: rest =>
      if forallb blank rest then [rstrip l] else l :: rstrip_lines rest
  end.

(** The last non-blank line of [lines] is a list item. *)
Definition ends_in_item (lines : list string) : bool :=
  match last_nonblank lines with
  | Some l => is_list_item (strip l)
  | None => false
  end.

(** The list [html_output] as it stands when the function joins it. *)
Definition html_pieces (text : string) : list string :=
  let text := bold text in
  let lines := split_lines (strip text) in
  let '(html_output, in_list) := fold_left line_step lines ([], false) in
  if in_list then append_item html_output "</ul>" else html_output.

(** The lines the loop acts on: those that are not blank, stripped. *)
Definition visible_lines (text : string) : list string :=
  map strip (filter (fun l => negb (blank l)) (split_lines text)).

(** Reads the pieces of an output from the left, keeping track of whether
    a list is open: a list opens only when none is open, closes only when
    one is open, an item stands only inside a list and a paragraph only
    outside.  [None] when one of these fails, else the final state. *)
Fixpoint nesting (is_open : bool) (pieces : list string) : option bool :=
  match pieces with
  | [] => Some is_open
  | p :: rest =>
      if String.eqb p "<ul>" then
        if is_open then None else nesting true rest
      else if String.eqb p "</ul>" then
        if is_open then nesting false rest else None
      else if startswith "<li>" p then
        if is_open then nesting true rest else None
      else if startswith "<p>" p then
        if is_open then None else nesting false rest
      else None
  end.

End Markdown.


(* ================================================================== *)
(** ** Python floats *)

Module Float.

(** A Python [float] is an IEEE 754 binary64 number.  A finite number is
    held as the rational it denotes; the zero with the sign bit set is
    [NegZero], so [Finite 0] is the positive zero.  Every operation below
    delivers a binary64 number, in lowest terms; what is proved of the
    operations holds for any rational in place of an argument. *)
Inductive float : Type :=
| Finite (q : Q)
| NegZero
| Inf (negative : bool)
| NaN.

(** Round to the nearest integer, halves to the even neighbour. *)
Definition rint (x : Q) : Z :=
  let f := Qfloor x in
  match Qcompare (x - inject_Z f) (1 # 2) with
  | Lt => f
  | Gt => (f + 1)%Z
  | Eq => if Z.even f then f else (f + 1)%Z
  end.

Definition pow2 (e : Z) : Q := (2 ^ e)%Q.

(** For [0 < q]: the [e] with [2^e <= q < 2^(e+1)]. *)
Definition ilog2 (q : Q) : Z :=
  let e := (Z.log2 (Qnum q) - Z.log2 (Zpos (Qden q)))%Z in
  if Qle_bool (pow2 e) q then e else (e - 1)%Z.

(** The exponent of the last place of the binary64 numbers around [q]:
    53 significant bits, and never below the subnormal spacing. *)
Definition exponent (q : Q) : Z := Z.max (ilog2 q - 52) (-1074).

Definition quantum (q : Q) : Q := pow2 (exponent q).

(** The multiple of the quantum nearest to a magnitude, ties to even. *)
Definition nearest (q : Q) : Q :=
  if Qle_bool q 0 then 0%Q
  else Qred (inject_Z (rint (q / quantum q)) * quantum q).

Definition is_negative (q : Q) : bool := negb (Qle_bool 0 q).

(** Round to nearest, ties to even, before the range check. *)
Definition RN (q : Q) : Q :=
  if is_negative q then Qred (- nearest (- q)) else nearest q.

Definition zero (negative : bool) : float :=
  if negative then NegZero else Finite 0.

(** The least magnitude that overflows. *)
Definition huge : Q := pow2 1024.

(** The float an operation delivers for the exact result [q];
    [negative] is the sign the operation gives a zero result. *)
Definition rounded (negative : bool) (q : Q) : float :=
  let r := RN q in
  if Qeq_bool r 0 then zero negative
  else if Qle_bool huge (Qabs r) then Inf (is_negative r)
  else Finite r.

Definition sign (x : float) : bool :=
  match x with
  | Finite q => is_negative q
  | NegZero => true
  | Inf negative => negative
  | NaN => false
  end.

Definition value (x : float) : Q :=
  match x with Finite q => q | _ => 0%Q end.

Definition is_zero (x : float) : bool :=
  match x with
  | Finite q => Qeq_bool q 0
  | NegZero => true
  | _ => false
  end.

(** [x != x] *)
Definition is_nan (x : float) : bool :=
  match x with NaN => true | _ => false end.

Definition fopp (x : float) : float :=
  match x with
  | Finite q => if Qeq_bool q 0 then NegZero else Finite (Qred (- q))
  | NegZero => Finite 0
  | Inf negative => Inf (negb negative)
  | NaN => NaN
  end.

(** [x + y] *)
Definition fadd (x y : float) : float :=
  match x, y with
  | NaN, _ | _, NaN => NaN
  | Inf a, Inf b => if Bool.eqb a b then Inf a else NaN
  | Inf a, _ => Inf a
  | _, Inf b => Inf b
  | _, _ =>
      let s := (value x + value y)%Q in
      if Qeq_bool s 0 then zero (sign x && sign y)
      else rounded (is_negative s) s
  end.

(** [x - y] *)
Definition fsub (x y : float) : float := fadd x (fopp y).

(** [x * y] *)
Definition fmul (x y : float) : float :=
  match x, y with
  | NaN, _ | _, NaN => NaN
  | Inf a, Inf b => Inf (xorb a b)
  | Inf a, f | f, Inf a =>
      if is_zero f then NaN else Inf (xorb a (sign f))
  | _, _ => rounded (xorb (sign x) (sign y)) (value x * value y)
  end.

(** [x / y] as numpy divides: a zero divisor gives an infinity or NaN. *)
Definition fdiv (x y : float) : float :=
  match x, y with
  | NaN, _ | _, NaN => NaN
  | Inf _, Inf _ => NaN
  | Inf a, _ => Inf (xorb a (sign y))
  | _, Inf b => zero (xorb (sign x) b)
  | _, _ =>
      if is_zero y then
        if is_zero x then NaN else Inf (xorb (sign x) (sign y))
      else rounded (xorb (sign x) (sign y)) (value x / value y)
  end.

(** [numpy.rint] *)
Definition frint (x : float) : float :=
  match x with
  | Finite q =>
      let r := rint q in
      if (r =? 0)%Z then zero (is_negative q) else Finite (inject_Z r)
  | _ => x
  end.

(** The float a decimal literal denotes: the nearest to [n / d]. *)
Definition literal (n : Z) (d : positive) : float := rounded false (n # d).

(** The float of an integer. *)
Definition of_Z (n : Z) : float := rounded false (inject_Z n).

(** [x <= y] *)
Definition fle (x y : float) : bool :=
  match x, y with
  | NaN, _ | _, NaN => false
  | Inf true, _ => true
  | _, Inf false => true
  | Inf false, _ => false
  | _, Inf true => false
  | _, _ => Qle_bool (value x) (value y)
  end.

(** [x < y] *)
Definition flt (x y : float) : bool :=
  match x, y with
  | NaN, _ | _, NaN => false
  | _, _ => negb (fle y x)
  end.

(** The order an ascending sort of floats arranges them in: NaN comes
    last ([na_position='last']). *)
Definition na_last_le (x y : float) : bool := is_nan y || fle x y.

Definition ascending (x y : float) : Prop := na_last_le x y = true.

(** [numpy.round(x, decimals)] for [decimals >= 0]: multiply by the power
    of ten, [rint], divide. *)
Definition round_to (decimals : nat) (x : float) : float :=
  let scale := of_Z (10 ^ Z.of_nat decimals) in
  fdiv (frint (fmul x scale)) scale.

(** Identity of two floats as data (not [==]: NaN is itself here, and
    the two zeros differ). *)
Definition same_float (x y : float) : bool :=
  match x, y with
  | Finite p, Finite q =>
      (Qnum p =? Qnum q)%Z && (Qden p =? Qden q)%positive
  | NegZero, NegZero => true
  | Inf a, Inf b => Bool.eqb a b
  | NaN, NaN => true
  | _, _ => false
  end.

(** A number that is not NaN, as a point of the extended rational line. *)
Inductive extended : Type :=
| Bottom
| Real (q : Q)
| Top.

Definition ext (x : float) : option extended :=
  match x with
  | NaN => None
  | Inf true => Some Bottom
  | Inf false => Some Top
  | Finite q => Some (Real q)
  | NegZero => Some (Real 0)
  end.

Definition ext_le (a b : extended) : Prop :=
  match a, b with
  | Bottom, _ => True
  | _, Top => True
  | Real p, Real q => (p <= q)%Q
  | _, _ => False
  end.

(** Where a rounded result ends: from [huge] on, at an infinity. *)
Definition clamp (r : Q) : extended :=
  if Qle_bool huge (Qabs r) then (if is_negative r then Bottom else Top)
  else Real r.

End Float.

(* ================================================================== *)
(** ** The flight table and the pandas operations applied to it *)

Module Frame.
Import Float.

(** One row of the frame built by [process_flight_data]. *)
Record flight : Type := mkFlight {
  origin : string;
  destination : string;
  price : float;
  airline : string;
  departure_date : string
}.

(** [pd.DataFrame]: the rows in index order; [pd.DataFrame()] is [[]]. *)
Definition frame : Type := list flight.

(** [df.empty] *)
Definition empty (df : frame) : bool :=
  match df with [] => true | _ :: _ => false end.

(** [pd.concat([a, b], ignore_index=True)] *)
Definition concat (a b : frame) : frame := app a b.

(** A [Series] of prices indexed by labels: the (label, value) pairs in
    order. *)
Definition series : Type := list (string * float).

Definition index_of (s : series) : list string := map fst s.
Definition values_of (s : series) : list float := map snd s.

(** Python's order on [str]: lexicographic on code points. *)
Definition str_lt (a b : string) : Prop := String.compare a b = Lt.

(** The group keys of [groupby(col)] ([sort=True]): the distinct labels of
    the column in ascending order. *)
Fixpoint insert_label (k : string) (ks : list string) : list string :=
  match ks with
  | [] => [k]
  | k' :: ks' =>
      match String.compare k k' with
      | Lt => k :: ks
      | Eq => ks
      | Gt => k' :: insert_label k ks'
      end
  end.

Definition group_labels (col : flight -> string) (df : frame) : list string :=
  fold_right insert_label [] (map col df).

(** The rows of the group labelled [k]. *)
Definition group_rows (col : flight -> string) (df : frame) (k : string)
  : frame :=
  filter (fun r => String.eqb (col r) k) df.

Definition group_prices (col : flight -> string) (df : frame) (k : string)
  : list float :=
  map price (group_rows col df k).

(** One value entering the mean of its group, as pandas accumulates it:
    compensated (Kahan) summation in binary64, NaN values skipped, the
    compensation reset when an infinity has turned it into NaN.  The
    state is the sum, the compensation and the number of values seen. *)
Definition mean_step (acc : float * float * Z) (val : float)
  : float * float * Z :=
  let '(sumx, compensation, nobs) := acc in
  if is_nan val then acc
  else
    let y := fsub val compensation in
    let t := fadd sumx y in
    let c := fsub (fsub t sumx) y in
    (t, if is_nan c then Finite 0 else c, (nobs + 1)%Z).

(** The mean of a group: the compensated sum over the count, NaN when
    nothing was counted. *)
Definition mean (xs : list float) : float :=
  let '(sumx, _, nobs) := fold_left mean_step xs (Finite 0, Finite 0, 0%Z) in
  if (nobs =? 0)%Z then NaN else fdiv sumx (of_Z nobs).

(** [df.groupby(col)['price'].mean()] *)
Definition groupby_mean (col : flight -> string) (df : frame) : series :=
  map (fun k => (k, mean (group_prices col df k))) (group_labels col df).

(** [s.round(decimals)] *)
Definition round (decimals : nat) (s : series) : series :=
  map (fun e => (fst e, round_to decimals (snd e))) s.

(** Sorting by insertion: ascending by value, NaN last, equal values in
    their given order. *)
Fixpoint insert_by_value (e : string * float) (s : series) : series :=
  match s with
  | [] => [e]
  | e' :: s' =>
      if na_last_le (snd e) (snd e') then e :: s
      else e' :: insert_by_value e s'
  end.

Definition stable_sort (s : series) : series :=
  fold_right insert_by_value [] s.

(** Adjacent entries are in ascending order of value. *)
Fixpoint in_order (s : series) : bool :=
  match s with
  | [] => true
  | e :: s' =>
      match s' with
      | [] => true
      | e' :: _ => na_last_le (snd e) (snd e') && in_order s'
      end
  end.

Definition same_entry (a b : string * float) : bool :=
  String.eqb (fst a) (fst b) && same_float (snd a) (snd b).

(** Removes one occurrence of [e]. *)
Fixpoint remove_entry (e : string * float) (s : series) : option series :=
  match s with
  | [] => None
  | x :: s' =>
      if same_entry e x then Some s'
      else option_map (cons x) (remove_entry e s')
  end.

(** [a] holds the entries of [b], each as often. *)
Fixpoint rearranges (a b : series) : bool :=
  match a with
  | [] => match b with [] => true | _ :: _ => false end
  | e :: a' =>
      match remove_entry e b with
      | Some b' => rearranges a' b'
      | None => false
      end
  end.

(** [s.sort_values()]: the entries in ascending order of value, NaN last.
    The default sort kind, numpy's quicksort, promises nothing about the
    order of equal values, so which ascending arrangement comes back is
    the library's choice: [quicksort] stands for it, and its answer is
    the result whenever it is an ascending arrangement of [s] (a function
    that would not sort is replaced by the insertion sort). *)
Definition sort_values (quicksort : series -> series) (s : series) : series :=
  let sorted := quicksort s in
  if in_order sorted && rearranges sorted s then sorted else stable_sort s.

(** [s.sort_index()]: ascending by label. *)
Fixpoint insert_by_label (e : string * float) (s : series) : series :=
  match s with
  | [] => [e]
  | e' :: s' =>
      if String.leb (fst e) (fst e') then e :: s
      else e' :: insert_by_label e s'
  end.

Definition sort_index (s : series) : series :=
  fold_right insert_by_label [] s.

(** [idxmin] of one group: the first row that attains the least price,
    NaN prices skipped; [None] when no price is left. *)
Fixpoint first_min (rows : frame) : option flight :=
  match rows with
  | [] => None
  | r :: rest =>
      if is_nan (price r) then first_min rest
      else
        match first_min rest with
        | None => Some r
        | Some m => if fle (price r) (price m) then Some r else Some m
        end
  end.

(** [df.loc[labels]] for the labels [idxmin] returned: the rows in the
    order of the labels; a missing label (the NaN [idxmin] gives for a
    group without a price) raises [KeyError]. *)
Fixpoint loc (labels : list (option flight)) : option frame :=
  match labels with
  | [] => Some []
  | None :: _ => None
  | Some r :: rest => option_map (cons r) (loc rest)
  end.

(** [df.loc[df.groupby('departure_date')['price'].idxmin()]]: per date,
    in ascending date order, the cheapest row. *)
Definition cheapest_per_date (df : frame) : option frame :=
  loc (map (fun k => first_min (group_rows departure_date df k))
         (group_labels departure_date df)).

(** Route aggregation (line 216 of app.py):
    [df.groupby('origin')['price'].mean().sort_values().round(2)] *)
Definition route_aggregation (quicksort : series -> series) (df : frame)
  : series :=
  round 2 (sort_values quicksort (groupby_mean origin df)).

(** Trend aggregation (lines 207 and 260 of app.py):
    [df.groupby('departure_date')['price'].mean().round(2).sort_index()] *)
Definition trend_aggregation (df : frame) : series :=
  sort_index (round 2 (groupby_mean departure_date df)).

(** Position of the first occurrence of [k] in [ks]. *)
Fixpoint position (k : string) (ks : list string) : option nat :=
  match ks with
  | [] => None
  | k' :: rest =>
      if String.eqb k' k then Some O else option_map S (position k rest)
  end.

(** Both occur, and the first occurrence of [a] comes before that of [b]. *)
Definition precedes (a b : string) (ks : list string) : Prop :=
  match position a ks, position b ks with
  | Some i, Some j => (i < j)%nat
  | _, _ => False
  end.

(** Ascending values. *)
Definition value_le (a b : string * float) : Prop :=
  ascending (snd a) (snd b).

(** The mean price of the records of origin [o]. *)
Definition average (df : frame) (o : string) : float :=
  mean (map price (filter (fun r => String.eqb (origin r) o) df)).


(** Ascending mean of the origins of two entries. *)
Definition by_average (df : frame) (a b : string * float) : Prop :=
  ascending (average df (fst a)) (average df (fst b)).

(** The reading of the tie rule as "original insertion order": of two
    origins with equal means, the one whose records come first in the
    input comes first in the output. *)
Definition ties_keep_insertion_order (df : frame) (out : series) : Prop :=
  forall a b : string,
    In a (index_of out) -> In b (index_of out) ->
    average df a = average df b ->
    precedes a b (map origin df) ->
    precedes a b (index_of out).

(** Two origins at the same price, SYD fetched before MEL. *)
Definition tied_routes : frame :=
  [mkFlight "SYD" "HBA" (Finite 100) "QF" "2025-01-01";
   mkFlight "MEL" "HBA" (Finite 100) "QF" "2025-01-01"].

(** Two origins that show the same rounded average, 100.07: SYD at
    100.07, and MEL at 100.08 and 100.07, whose mean is
    100.07499999999999. *)
Definition close_means : frame :=
  [mkFlight "MEL" "HBA" (literal 10008 100) "QF" "2025-01-01";
   mkFlight "SYD" "HBA" (literal 10007 100) "QF" "2025-01-01";
   mkFlight "MEL" "HBA" (literal 10007 100) "VA" "2025-01-01"].

(** Two origins whose exact means are both 100.30, but not their binary64
    means: ADL averages to 100.30000000000001. *)
Definition near_tie : frame :=
  [mkFlight "ADL" "SYD" (literal 1002 10) "QF" "2025-01-01";
   mkFlight "BNE" "SYD" (literal 1003 10) "QF" "2025-01-01";
   mkFlight "ADL" "SYD" (literal 1004 10) "VA" "2025-01-01"].

End Frame.

(* ================================================================== *)
(** ** process_flight_data *)

Module Normalizer.
Import PyStr Float Frame.

(** The part of a raw offer the program reads:
    [offer['price']['total']], [offer['validatingAirlineCodes']] and
    [offer['itineraries'][i]['segments'][j]['departure']['at']]. *)
Record segment : Type := mkSegment { departure_at : string }.
Record itinerary : Type := mkItinerary { segments : list segment }.
Record offer : Type := mkOffer {
  price_total : string;
  validatingAirlineCodes : list string;
  itineraries : list itinerary
}.

Definition digit_of (c : ascii) : option Z :=
  let n := nat_of_ascii c in
  if (48 <=? n)%nat && (n <=? 57)%nat then Some (Z.of_nat (n - 48)) else None.

Definition is_digit (c : ascii) : bool :=
  match digit_of c with Some _ => true | None => false end.

(** Reads a run of decimal digits: its value, its length, and the rest. *)
Fixpoint digits (acc : Z) (n : nat) (s : string) : Z * nat * string :=
  match s with
  | EmptyString => (acc, n, s)
  | String c s' =>
      match digit_of c with
      | Some d => digits (10 * acc + d) (S n) s'
      | None => (acc, n, s)
      end
  end.

Definition is_char (x c : ascii) : bool := Ascii.eqb c x.

(** The white space [float()] strips: the C [isspace] characters, and the
    two further spaces below code point 256 (NEL, NBSP), which the
    conversion first turns into blanks.  The separators FS..US count as
    white space for [str.strip] but not here. *)
Definition is_float_space (c : ascii) : bool :=
  let n := nat_of_ascii c in
  ((9 <=? n)%nat && (n <=? 13)%nat) || (n =? 32)%nat
  || (n =? 133)%nat || (n =? 160)%nat.

Fixpoint skip_spaces (s : string) : string :=
  match s with
  | EmptyString => EmptyString
  | String c s' => if is_float_space c then skip_spaces s' else s
  end.

Fixpoint drop_trailing_spaces (s : string) : string :=
  match s with
  | EmptyString => EmptyString
  | String c s' =>
      match drop_trailing_spaces s' with
      | EmptyString =>
          if is_float_space c then EmptyString else String c EmptyString
      | r => String c r
      end
  end.

(** Digit separators: an underscore is accepted between two digits only,
    and is dropped; [prev] is the character before [s]. *)
Fixpoint remove_underscores (prev : ascii) (s : string) : option string :=
  match s with
  | EmptyString => if is_char "_" prev then None else Some EmptyString
  | String c s' =>
      if is_char "_" c then
        if is_digit prev then remove_underscores c s' else None
      else if is_char "_" prev && negb (is_digit c) then None
      else option_map (String c) (remove_underscores c s')
  end.

(** Lower case of an ASCII letter. *)
Definition lower (c : ascii) : ascii :=
  let n := nat_of_ascii c in
  if (65 <=? n)%nat && (n <=? 90)%nat then ascii_of_nat (n + 32) else c.

(** Reads the word [w] without regard to case: the rest, if it is there. *)
Fixpoint match_word (w s : string) : option string :=
  match w, s with
  | EmptyString, _ => Some s
  | String _ _, EmptyString => None
  | String a w', String c s' =>
      if Ascii.eqb (lower c) a then match_word w' s' else None
  end.

(** An optional sign: whether it is a minus, and the rest. *)
Definition read_sign (s : string) : bool * string :=
  match s with
  | String c s' =>
      if is_char "-" c then (true, s')
      else if is_char "+" c then (false, s')
      else (false, s)
  | EmptyString => (false, s)
  end.

(** [inf], [infinity] or [nan] after the sign, in any case. *)
Definition special (negative : bool) (s : string) : option float :=
  match match_word "inf" s with
  | Some r =>
      match match_word "inity" r with
      | Some EmptyString => Some (Inf negative)
      | Some (String _ _) => None
      | None => match r with EmptyString => Some (Inf negative) | _ => None end
      end
  | None =>
      match match_word "nan" s with
      | Some EmptyString => Some NaN
      | _ => None
      end
  end.

(** The exponent part, if one is written in full: the power of ten and
    the rest.  An [e] that no digit follows is not read. *)
Definition read_exponent (s : string) : Z * string :=
  match s with
  | String c s' =>
      if is_char "e" c || is_char "E" c then
        let '(negative, r) := read_sign s' in
        let '(x, nx, r') := digits 0 0 r in
        if (nx =? 0)%nat then (0%Z, s)
        else ((if negative then - x else x)%Z, r')
      else (0%Z, s)
  | EmptyString => (0%Z, s)
  end.

(** The exact value [m * 10^e]. *)
Definition decimal (m e : Z) : Q := (inject_Z m * (10 ^ e))%Q.

(** A decimal number after the sign: digits with an optional point and an
    optional exponent, at least one digit before the exponent; the float
    is the binary64 number nearest to the value written. *)
Definition number (negative : bool) (s : string) : option float :=
  let '(i, ni, r) := digits 0 0 s in
  let '(m, nf, r') :=
    match r with
    | String c f =>
        if is_char "." c then digits i 0 f else (i, 0%nat, r)
    | EmptyString => (i, 0%nat, r)
    end in
  if (ni + nf =? 0)%nat then None
  else
    let '(e, r'') := read_exponent r' in
    match r'' with
    | EmptyString =>
        let q := decimal m (e - Z.of_nat nf) in
        Some (rounded negative (if negative then - q else q)%Q)
    | String _ _ => None
    end.

(** [float(s)] for a [str]: surrounding white space is dropped, digit
    separators are checked and removed, and the text is read as a decimal
    number or as [inf], [infinity] or [nan].  [None] is [ValueError]. *)
Definition py_float (s : string) : option float :=
  match remove_underscores "000" (drop_trailing_spaces (skip_spaces s)) with
  | None => None
  | Some t =>
      let '(negative, r) := read_sign t in
      match number negative r with
      | Some x => Some x
      | None => special negative r
      end
  end.

(** [offer['itineraries'][0]['segments'][0]['departure']['at']] *)
Definition first_departure (o : offer) : option string :=
  match nth_error (itineraries o) 0 with
  | None => None
  | Some it =>
      match nth_error (segments it) 0 with
      | None => None
      | Some sg => Some (departure_at sg)
      end
  end.

(** One element of the list comprehension; [None] when a subscript or the
    conversion raises. *)
Definition normalize_offer (origin destination : string) (o : offer)
  : option flight :=
  match py_float (price_total o) with
  | None => None
  | Some p =>
    match nth_error (validatingAirlineCodes o) 0 with
    | None => None
    | Some code =>
      match first_departure o with
      | None => None
      | Some at_ =>
          Some (mkFlight origin destination p code (before_first "T" at_))
      end
    end
  end.

Fixpoint comprehension (origin destination : string) (flight_data : list offer)
  : option frame :=
  match flight_data with
  | [] => Some []
  | o :: rest =>
      match normalize_offer origin destination o with
      | None => None
      | Some r =>
          match comprehension origin destination rest with
          | None => None
          | Some rs => Some (r :: rs)
          end
      end
  end.

Definition process_flight_data (flight_data : list offer)
  (origin destination : string) : option frame :=
  match flight_data with
  | [] => Some []
  | _ :: _ => comprehension origin destination flight_data
  end.

(** [YYYY-MM-DD]: ten characters, digits around two hyphens. *)
Definition is_iso_date (s : string) : bool :=
  match s with
  | String y1 (String y2 (String y3 (String y4 (String h1
      (String m1 (String m2 (String h2 (String d1 (String d2
        EmptyString))))))))) =>
      is_digit y1 && is_digit y2 && is_digit y3 && is_digit y4
      && is_char "-" h1 && is_digit m1 && is_digit m2
      && is_char "-" h2 && is_digit d1 && is_digit d2
  | _ => false
  end.

(** The invariant of a normalized record, as the data model states it. *)
Definition record_invariant (r : flight) : Prop :=
  fle (Finite 0) (price r) = true /\ is_iso_date (departure_date r) = true.

(** A raw offer as the provider's contract describes it: the three
    members are there, the total is a text [float()] reads, at least one
    validating airline is named, and the first segment departs at an ISO
    8601 date-time, a calendar date followed by [T] and the time. *)
Definition well_formed_offer (o : offer) : Prop :=
  py_float (price_total o) <> None
  /\ validatingAirlineCodes o <> []
  /\ exists day time : string,
       first_departure o = Some (day ++ "T" ++ time)
       /\ is_iso_date day = true.

(** A well-shaped offer whose total is negative. *)
Definition refund_offer : offer :=
  mkOffer "-5.00" ["QF"] [mkItinerary [mkSegment "2025-01-15T10:30:00"]].

(** A well-shaped offer with a positive total. *)
Definition economy_offer : offer :=
  mkOffer "123.45" ["VA"; "QF"]
    [mkItinerary [mkSegment "2025-02-01T06:15:00"; mkSegment "2025-02-01T09:00:00"]].

End Normalizer.

(* ================================================================== *)
(** ** The network boundary *)

Module Net.
Import Float Frame Normalizer.

(** The outbound calls of the program. *)
Inductive event : Type :=
| TokenExchange
| FlightSearch (access_token origin destination departure_date : string)
| GenerateContent (prompt : string).

(** What [requests] hands back: an exception of the [RequestException]
    family (transport error, [raise_for_status], undecodable body), or the
    member of the JSON body the caller reads. *)
Inductive reply (A : Type) : Type :=
| RequestException
| Body (a : A).
Arguments RequestException {A}.
Arguments Body {A} a.

(** [response.json().get('data', [])], and [[]] after an exception: the
    offers [search_flight_deals] returns for a reply. *)
Definition data_of {A : Type} (r : reply (option (list A))) : list A :=
  match r with
  | Body (Some data) => data
  | Body None => []
  | RequestException => []
  end.

(** What [model.generate_content] does: raise, answer with no parts, or
    answer with text. *)
Inductive generation : Type :=
| GenerationRaises
| NoParts
| Parts (text : string).

(** Everything the program takes from outside.  Replies may depend on the
    number of calls made before, so the same request can be answered
    differently over time. *)
Record world : Type := mkWorld {
  GEMINI_API_KEY : option string;
  oauth_reply : nat -> reply (option string);
  search_reply :
    nat -> string -> string -> string -> string -> reply (option (list offer));
  generation_reply : nat -> string -> generation;
  (** [(date.today() + timedelta(days=i)).strftime("%Y-%m-%d")] *)
  date_after : nat -> string;
  (** [df.to_string()] *)
  to_string : series -> string;
  (** The arrangement numpy's quicksort leaves a series in, see
      [sort_values]. *)
  quicksort : series -> series
}.

(** Computations that read the world, log their calls and may raise:
    [None] is an exception that nothing catches. *)
Definition M (A : Type) : Type :=
  world -> list event -> option A * list event.

Definition ret {A : Type} (a : A) : M A := fun _ log => (Some a, log).

Definition bind {A B : Type} (m : M A) (k : A -> M B) : M B :=
  fun w log =>
    match m w log with
    | (Some a, log') => k a w log'
    | (None, log') => (None, log')
    end.

Definition ask : M world := fun w log => (Some w, log).

(** Performs the call [e]; the result is the number of earlier calls. *)
Definition call (e : event) : M nat :=
  fun _ log => (Some (List.length log), app log [e]).

(** Lifts a computation that may raise. *)
Definition lift {A : Type} (o : option A) : M A := fun _ log => (o, log).

(** [for x in xs: s = body(s, x)] *)
Fixpoint for_each {A S : Type} (xs : list A) (body : S -> A -> M S) (s : S)
  : M S :=
  match xs with
  | [] => ret s
  | x :: rest => bind (body s x) (for_each rest body)
  end.

(** Runs a request handler from an empty log. *)
Definition run {A : Type} (m : M A) (w : world) : option A * list event :=
  m w [].

(** A computation only ever appends to the call log. *)
Definition grows {A : Type} (m : M A) : Prop :=
  forall w log, exists rest, snd (m w log) = app log rest.

(** The searches logged by a loop over [xs]. *)
Definition searches {A : Type} (request : A -> event) (xs : list A)
  : list event := map request xs.

End Net.

(* ================================================================== *)
(** ** The application: helpers and routes *)

Module App.
Import PyStr Markdown Float Frame Normalizer Net.

Notation "x <- m ;; k" := (bind m (fun x => k))
  (at level 61, m at next level, right associativity).

Definition CITIES : list (string * string) :=
  [("SYD", "Sydney"); ("MEL", "Melbourne"); ("BNE", "Brisbane");
   ("PER", "Perth"); ("ADL", "Adelaide"); ("CBR", "Canberra");
   ("HBA", "Hobart")].

(** [for code in CITIES] *)
Definition city_codes : list string := map fst CITIES.

(** [CITIES.get(k)] *)
Fixpoint dict_get (d : list (string * string)) (k : string) : option string :=
  match d with
  | [] => None
  | (k', v) :: rest => if String.eqb k' k then Some v else dict_get rest k
  end.

(** [CITIES.get(k, default)] *)
Definition dict_get_default (d : list (string * string)) (k default : string)
  : string :=
  match dict_get d k with Some v => v | None => default end.

(** An optional text inside an f-string. *)
Definition fmt (o : option string) : string :=
  match o with Some s => s | None => "None" end.

(** Truth value of an optional text: [None] and [""] are false. *)
Definition truthy (o : option string) : bool :=
  match o with
  | None => false
  | Some s => negb (String.eqb s "")
  end.

Definition get_amadeus_access_token : M (option string) :=
  n <- call TokenExchange ;;
  w <- ask ;;
  match oauth_reply w n with
  | Body token => ret token
  | RequestException => ret None
  end.

Definition search_flight_deals
  (access_token origin destination departure_date : string)
  : M (list offer) :=
  n <- call (FlightSearch access_token origin destination departure_date) ;;
  w <- ask ;;
  ret (data_of
         (search_reply w n access_token origin destination departure_date)).

Definition not_configured : string :=
  "<p>Gemini API key not configured. Insights are unavailable.</p>".
Definition no_data : string :=
  "<p>No flight data was available to generate insights.</p>".
Definition blocked : string :=
  "<p>The AI response was blocked for safety reasons. Please try a different query.</p>".
Definition unavailable : string :=
  "<p>Could not generate AI insights. The Gemini API might be unavailable or the key is invalid.</p>".

Definition placeholder_key : string := "YOUR_GEMINI_API_KEY".

(** [not GEMINI_API_KEY or GEMINI_API_KEY == "YOUR_GEMINI_API_KEY"] *)
Definition key_missing (key : option string) : bool :=
  negb (truthy key)
  || match key with Some k => String.eqb k placeholder_key | None => false end.

Definition prompt_head : string :=
  "
    You are a market analyst for a chain of hostels in Australia.
    Your goal is to help the marketing team understand airline booking trends to better target customers.
    Based on the following summary of average flight prices from various cities, provide actionable insights.

    Data Summary (Average one-way price in AUD to the destination):
    ".

(** The double quote, as a one-character text. *)
Definition dq : string := String "034"%char EmptyString.

Definition prompt_tail : string :=
  "

    Please provide a brief summary as a list of key takeaways. Use bullet points (starting with '*') for list items.
    For the " ++ dq ++ "General advice" ++ dq ++ " section, please make "
  ++ dq ++ "**General Marketing Advice:**" ++ dq
  ++ " a standalone bolded line, followed by a separate bulleted list of the specific advice points.

    Format your response using simple markdown. Use bullet points (starting with '*') for lists and bold text for emphasis. Do not use headings.
    ".

Definition get_ai_insights (df : series) : M string :=
  w <- ask ;;
  if key_missing (GEMINI_API_KEY w) then ret not_configured
  else if (match df with [] => true | _ :: _ => false end) then ret no_data
  else
    let prompt := prompt_head ++ to_string w df ++ prompt_tail in
    n <- call (GenerateContent prompt) ;;
    match generation_reply w n prompt with
    | GenerationRaises => ret unavailable
    | NoParts => ret blocked
    | Parts text => ret (markdown_to_html text)
    end.

(** One turn of the trend loop, written out twice in app.py (lines
    190-197 and 249-255): the offers of day [i], reduced to the cheapest
    offer per departure date. *)
Definition trend_step (access_token origin destination : string)
  (price_trends_df : frame) (i : nat) : M frame :=
  w <- ask ;;
  let trend_date := date_after w i in
  flight_data <-
    search_flight_deals access_token origin destination trend_date ;;
  match flight_data with
  | [] => ret price_trends_df
  | _ :: _ =>
      df <- lift (process_flight_data flight_data origin destination) ;;
      if empty df then ret price_trends_df
      else
        min_price_df <- lift (cheapest_per_date df) ;;
        ret (concat price_trends_df min_price_df)
  end.

(** [for i in range(1, 31)], from an empty frame. *)
Definition fetch_trend (access_token origin destination : string) : M frame :=
  for_each (seq 1 30) (trend_step access_token origin destination) [].

(** One turn of the snapshot loop of [index] (lines 179-182). *)
Definition snapshot_step (access_token destination_city snapshot_date : string)
  (popular_routes_df : frame) (origin : string) : M frame :=
  flight_data <-
    search_flight_deals access_token origin destination_city snapshot_date ;;
  df <- lift (process_flight_data flight_data origin destination_city) ;;
  if empty df then ret popular_routes_df
  else ret (concat popular_routes_df df).

(** JSON values built by [jsonify]. *)
#[warnings="-register-all"]
Inductive json : Type :=
| JString (s : string)
| JNumber (x : float)
| JArray (items : list json)
| JObject (members : list (string * json)).

Record trend_chart : Type := mkTrendChart {
  trend_labels : list string;
  trend_data : list float
}.

Record routes_chart : Type := mkRoutesChart {
  route_labels : list string;
  route_data : list float;
  origin_codes : list string
}.

(** The keyword arguments of [render_template('index.html', ...)]; an
    empty dict [{}] is [None]. *)
Record page : Type := mkPage {
  cities : list (string * string);
  selected_destination : string;
  price_trends : option trend_chart;
  popular_routes : option routes_chart;
  ai_summary : string;
  trend_chart_title : string
}.

Inductive response : Type :=
| TextResponse (body : string) (status : Z)
| JsonResponse (body : json) (status : Z)
| Rendered (context : page).

Definition status_of (r : response) : Z :=
  match r with
  | TextResponse _ s => s
  | JsonResponse _ s => s
  | Rendered _ => 200
  end.

(** [[code for code in CITIES if code != destination_city]] *)
Definition origin_cities_for (destination_city : string) : list string :=
  filter (fun code => negb (String.eqb code destination_city)) city_codes.

Definition index (form_destination : option string) : M response :=
  let destination_city :=
    match form_destination with Some d => d | None => "SYD" end in
  let origin_cities := origin_cities_for destination_city in
  token <- get_amadeus_access_token ;;
  if negb (truthy token) then
    ret (TextResponse "Error: Could not authenticate with Amadeus API. Please check your API credentials in app.py." 500)
  else
    let access_token := fmt token in
    w <- ask ;;
    let snapshot_date := date_after w 1 in
    popular_routes_df <-
      for_each origin_cities
        (snapshot_step access_token destination_city snapshot_date) [] ;;
    let trend_origin_city := hd_error origin_cities in
    price_trends_df <-
      (if truthy trend_origin_city
       then fetch_trend access_token (fmt trend_origin_city) destination_city
       else ret []) ;;
    let '(price_trends_data, trend_chart_title) :=
      if empty price_trends_df
      then (None, "Daily Price Trend (Next Month)")
      else
        let price_trends := trend_aggregation price_trends_df in
        (Some (mkTrendChart (index_of price_trends) (values_of price_trends)),
         "Daily Price Trend: "
           ++ fmt (dict_get CITIES (fmt trend_origin_city))
           ++ " to " ++ fmt (dict_get CITIES destination_city)) in
    routes <-
      (if empty popular_routes_df
       then ret (None, "No data found for the selected destination. This may be due to the route having no availability in the next month or an API error.")
       else
         let popular_routes :=
           route_aggregation (quicksort w) popular_routes_df in
         ai_summary <- get_ai_insights popular_routes ;;
         ret (Some (mkRoutesChart
                      (map (fun origin =>
                              dict_get_default CITIES origin origin ++ " -> "
                              ++ dict_get_default CITIES destination_city
                                   destination_city)
                           (index_of popular_routes))
                      (values_of popular_routes)
                      (index_of popular_routes)),
              ai_summary)) ;;
    ret (Rendered (mkPage CITIES destination_city price_trends_data
                     (fst routes) (snd routes) trend_chart_title)).

Definition api_price_trend (origin destination : option string) : M response :=
  if negb (truthy origin) || negb (truthy destination) then
    ret (JsonResponse
           (JObject [("error", JString "Missing origin or destination parameters")])
           400)
  else
    let origin := fmt origin in
    let destination := fmt destination in
    token <- get_amadeus_access_token ;;
    if negb (truthy token) then
      ret (JsonResponse
             (JObject [("error", JString "Could not authenticate with Amadeus API")])
             500)
    else
      price_trends_df <- fetch_trend (fmt token) origin destination ;;
      if empty price_trends_df then
        ret (JsonResponse
               (JObject [("labels", JArray []); ("data", JArray []);
                         ("chart_title",
                          JString ("No Trend Data for " ++ origin ++ " to "
                                   ++ destination))])
               200)
      else
        let price_trends := trend_aggregation price_trends_df in
        ret (JsonResponse
               (JObject [("labels", JArray (map JString (index_of price_trends)));
                         ("data", JArray (map JNumber (values_of price_trends)));
                         ("chart_title",
                          JString ("Daily Price Trend: "
                                   ++ fmt (dict_get CITIES origin) ++ " to "
                                   ++ fmt (dict_get CITIES destination)))])
               200).

(** The provider's data never makes the program raise: every offer has
    the members the normalizer reads and a total [float()] accepts, and
    no departure date comes with NaN prices only. *)
Definition well_formed_world (w : world) : Prop :=
  forall n tok o d dt,
    exists df,
      process_flight_data (data_of (search_reply w n tok o d dt)) o d = Some df
      /\ cheapest_per_date df <> None.

(** The page of a failed token exchange. *)
Definition auth_error_page : response :=
  TextResponse "Error: Could not authenticate with Amadeus API. Please check your API credentials in app.py." 500.

(** A world without any credential, whose peers answer nothing. *)
Definition silent_world (key : option string) : world :=
  mkWorld key (fun _ => RequestException)
    (fun _ _ _ _ _ => RequestException)
    (fun _ _ => GenerationRaises)
    (fun _ => "2025-01-01") (fun _ => "") stable_sort.

(** A world whose token exchange succeeds and whose searches find nothing. *)
Definition empty_market : world :=
  mkWorld None (fun _ => Body (Some "tok"))
    (fun _ _ _ _ _ => Body (Some []))
    (fun _ _ => GenerationRaises)
    (fun _ => "2025-01-01") (fun _ => "") stable_sort.

(** The token a request obtains at its first call: [None] after an
    exception of the exchange. *)
Definition token_of (w : world) : option string :=
  match oauth_reply w 0 with
  | Body token => token
  | RequestException => None
  end.

(** The JSON answer to a failed token exchange. *)
Definition auth_error_json : response :=
  JsonResponse
    (JObject [("error", JString "Could not authenticate with Amadeus API")])
    500.

(** The summary shown when the snapshot found nothing. *)
Definition no_data_summary : string :=
  "No data found for the selected destination. This may be due to the route having no availability in the next month or an API error.".

(** The searches of the trend loop for one pair of cities. *)
Definition trend_searches (w : world) (tok origin destination : string)
  : list event :=
  searches (fun i => FlightSearch tok origin destination (date_after w i))
    (seq 1 30).

(** The searches of the snapshot loop of [index]. *)
Definition snapshot_searches (w : world) (tok destination : string)
  : list event :=
  searches (fun o => FlightSearch tok o destination (date_after w 1))
    (origin_cities_for destination).

(** A world with a text-generation credential in which every search is
    answered by the same single offer and the generation is blocked. *)
Definition steady_market : world :=
  mkWorld (Some "key") (fun _ => Body (Some "tok"))
    (fun _ _ _ _ _ => Body (Some [economy_offer]))
    (fun _ _ => NoParts)
    (fun _ => "2025-02-01") (fun _ => "table") stable_sort.

(** A world with offers in which the text-generation key was left at its
    placeholder. *)
Definition keyless_market : world :=
  mkWorld (Some placeholder_key) (fun _ => Body (Some "tok"))
    (fun _ _ _ _ _ => Body (Some [economy_offer]))
    (fun _ _ => Parts "* never asked")
    (fun _ => "2025-02-01") (fun _ => "table") stable_sort.

(** [form.get('destination', 'SYD')] *)
Definition destination_of (form_destination : option string) : string :=
  match form_destination with Some d => d | None => "SYD" end.

(** The origin whose 30-day trend [index] fetches for a destination:
    the first configured city other than the destination. *)
Definition trend_origin_for (destination_city : string) : string :=
  if String.eqb destination_city "SYD" then "MEL" else "SYD".

(** The trend chart and its title as [index] builds them from the trend
    frame. *)
Definition trend_chart_for (destination_city : string) (price_trends_df : frame)
  : option trend_chart * string :=
  if empty price_trends_df
  then (None, "Daily Price Trend (Next Month)")
  else
    (Some (mkTrendChart (index_of (trend_aggregation price_trends_df))
             (values_of (trend_aggregation price_trends_df))),
     "Daily Price Trend: "
       ++ fmt (dict_get CITIES (trend_origin_for destination_city))
       ++ " to " ++ fmt (dict_get CITIES destination_city)).

(** The routes chart as [index] builds it from the snapshot frame. *)
Definition routes_chart_for (w : world) (destination_city : string)
  (popular_routes_df : frame) : option routes_chart :=
  if empty popular_routes_df then None
  else
    let popular_routes := route_aggregation (quicksort w) popular_routes_df in
    Some (mkRoutesChart
            (map (fun origin =>
                    dict_get_default CITIES origin origin ++ " -> "
                    ++ dict_get_default CITIES destination_city
                         destination_city)
                 (index_of popular_routes))
            (values_of popular_routes)
            (index_of popular_routes)).

(** A world whose token exchange succeeds and whose searches all fail. *)
Definition failing_market : world :=
  mkWorld None (fun _ => Body (Some "tok"))
    (fun _ _ _ _ _ => RequestException)
    (fun _ _ => GenerationRaises)
    (fun _ => "2025-01-01") (fun _ => "") stable_sort.

(** Two worlds that differ at most in how their searches come back
    without offers: a failed request in one may be an empty result in the
    other. *)
Definition same_offers (w w' : world) : Prop :=
  GEMINI_API_KEY w = GEMINI_API_KEY w'
  /\ (forall n, oauth_reply w n = oauth_reply w' n)
  /\ (forall n prompt, generation_reply w n prompt = generation_reply w' n prompt)
  /\ (forall i, date_after w i = date_after w' i)
  /\ (forall df, to_string w df = to_string w' df)
  /\ (forall s, quicksort w s = quicksort w' s)
  /\ (forall n tok o d dt,
        data_of (search_reply w n tok o d dt)
        = data_of (search_reply w' n tok o d dt)).

End App.
(* ================================================================== *)
(** * Properties *)

(** ** Binary64 arithmetic: rounding keeps the order *)

Module FloatFacts.
Import Float.

(** *** Rounding to an integer *)

Lemma rint_bounds (x : Q) : (Qfloor x <= rint x <= Qfloor x + 1)%Z.
Proof.
  unfold rint. destruct (Qcompare _ _); [destruct (Z.even _) | |]; lia.
Qed.

Lemma rint_monotone (x y : Q) : (x <= y)%Q -> (rint x <= rint y)%Z.
Proof.
  intros Hxy. pose proof (Qfloor_resp_le x y Hxy) as Hfloor.
  destruct (Z.eq_dec (Qfloor x) (Qfloor y)) as [Heq | Hneq].
  - unfold rint. rewrite <- Heq.
    destruct (Qcompare_spec (x - inject_Z (Qfloor x)) (1 # 2)) as [Hx | Hx | Hx];
      destruct (Qcompare_spec (y - inject_Z (Qfloor x)) (1 # 2)) as [Hy | Hy | Hy];
      destruct (Z.even (Qfloor x)); try lia; exfalso; lra.
  - pose proof (rint_bounds x). pose proof (rint_bounds y). lia.
Qed.

Lemma rint_integer (z : Z) : rint (inject_Z z) = z.
Proof.
  unfold rint. rewrite Qfloor_Z.
  destruct (Qcompare_spec (inject_Z z - inject_Z z) (1 # 2)) as [H | H | H];
    [exfalso | reflexivity | exfalso]; lra.
Qed.

(** *** Powers of two and the binade of a rational *)

Lemma pow2_pos (e : Z) : (0 < pow2 e)%Q.
Proof. apply Qpower_0_lt. reflexivity. Qed.

Lemma pow2_add (a b : Z) : (pow2 (a + b) == pow2 a * pow2 b)%Q.
Proof. apply Qpower_plus. discriminate. Qed.

Lemma pow2_le (a b : Z) : (a <= b)%Z -> (pow2 a <= pow2 b)%Q.
Proof. intros H. apply Qpower_le_compat_l; [exact H | discriminate]. Qed.

Lemma pow2_lt_inv (a b : Z) : (pow2 a < pow2 b)%Q -> (a < b)%Z.
Proof. intros H. apply (Qpower_lt_compat_l_inv 2 a b H). reflexivity. Qed.

Lemma pow2_Z (n : Z) : (0 <= n)%Z -> (pow2 n == inject_Z (2 ^ n))%Q.
Proof. intros H. unfold pow2. now rewrite (Zpower_Qpower 2 n H). Qed.

Lemma log2_bounds (n : Z) :
  (0 < n)%Z ->
  (pow2 (Z.log2 n) <= inject_Z n)%Q /\ (inject_Z n < pow2 (Z.log2 n + 1))%Q.
Proof.
  intros Hn. destruct (Z.log2_spec n Hn) as [Hlo Hhi].
  pose proof (Z.log2_nonneg n) as Hnn.
  rewrite !pow2_Z by lia. split.
  - now rewrite <- Zle_Qle.
  - rewrite <- Zlt_Qlt. now rewrite <- Z.add_1_r in Hhi.
Qed.

Lemma ilog2_spec (q : Q) :
  (0 < q)%Q -> (pow2 (ilog2 q) <= q)%Q /\ (q < pow2 (ilog2 q + 1))%Q.
Proof.
  intros Hq. destruct q as [n d].
  assert (Hn : (0 < n)%Z) by (unfold Qlt in Hq; simpl in Hq; lia).
  destruct (log2_bounds n Hn) as [Hnlo Hnhi].
  destruct (log2_bounds (Zpos d) eq_refl) as [Hdlo Hdhi].
  unfold ilog2. cbn [Qnum Qden].
  set (a := Z.log2 n) in *. set (b := Z.log2 (Zpos d)) in *.
  assert (HD : (0 < inject_Z (Zpos d))%Q) by reflexivity.
  assert (Hq' : (n # d == inject_Z n / inject_Z (Zpos d))%Q) by apply Qmake_Qdiv.
  assert (Hup : (n # d < pow2 (a - b + 1))%Q).
  { rewrite Hq'. apply Qlt_shift_div_r; [exact HD |].
    apply Qlt_le_trans with (pow2 (a + 1)); [exact Hnhi |].
    replace (a + 1)%Z with ((a - b + 1) + b)%Z by lia.
    rewrite pow2_add. apply Qmult_le_l; [apply pow2_pos | exact Hdlo]. }
  assert (Hlow : (pow2 (a - b - 1) <= n # d)%Q).
  { rewrite Hq'. apply Qle_shift_div_l; [exact HD |].
    apply Qle_trans with (pow2 a); [| exact Hnlo].
    replace a with ((a - b - 1) + (b + 1))%Z at 2 by lia.
    rewrite pow2_add. apply Qmult_le_l; [apply pow2_pos |].
    now apply Qlt_le_weak. }
  destruct (Qle_bool (pow2 (a - b)) (n # d)) eqn:Hc.
  - apply Qle_bool_iff in Hc. split; [exact Hc | exact Hup].
  - split; [exact Hlow |].
    replace (a - b - 1 + 1)%Z with (a - b)%Z by lia.
    apply Qnot_le_lt. intros H. apply Qle_bool_iff in H. congruence.
Qed.

Lemma ilog2_monotone (x y : Q) :
  (0 < x)%Q -> (x <= y)%Q -> (ilog2 x <= ilog2 y)%Z.
Proof.
  intros Hx Hxy.
  destruct (ilog2_spec x Hx) as [Hlo _].
  destruct (ilog2_spec y) as [_ Hhi]; [lra |].
  assert (H : (pow2 (ilog2 x) < pow2 (ilog2 y + 1))%Q) by lra.
  apply pow2_lt_inv in H. lia.
Qed.

(** *** Rounding to the nearest binary64 number keeps the order *)

Lemma quantum_pos (q : Q) : (0 < quantum q)%Q.
Proof. apply pow2_pos. Qed.

Lemma nearest_value (q : Q) :
  (0 < q)%Q ->
  (nearest q == inject_Z (rint (q / pow2 (exponent q))) * pow2 (exponent q))%Q.
Proof.
  intros Hq. unfold nearest.
  destruct (Qle_bool q 0) eqn:Hc.
  - apply Qle_bool_iff in Hc. lra.
  - rewrite Qred_correct. reflexivity.
Qed.

(** A power of two that the quantum divides is not crossed. *)
Lemma nearest_le_pow2 (q : Q) (k : Z) :
  (0 < q)%Q -> (exponent q <= k)%Z -> (q <= pow2 k)%Q -> (nearest q <= pow2 k)%Q.
Proof.
  intros Hq Hk Hle. rewrite (nearest_value q Hq).
  set (e := exponent q) in *.
  pose proof (pow2_pos e) as He.
  assert (Hk' : (pow2 k == inject_Z (2 ^ (k - e)) * pow2 e)%Q).
  { rewrite <- pow2_Z by lia. rewrite <- pow2_add. now replace (k - e + e)%Z with k by lia. }
  rewrite Hk'. apply Qmult_le_compat_r; [| lra].
  rewrite <- Zle_Qle. rewrite <- (rint_integer (2 ^ (k - e))).
  apply rint_monotone. apply Qle_shift_div_r; [exact He |]. now rewrite <- Hk'.
Qed.

Lemma nearest_ge_pow2 (q : Q) (k : Z) :
  (0 < q)%Q -> (exponent q <= k)%Z -> (pow2 k <= q)%Q -> (pow2 k <= nearest q)%Q.
Proof.
  intros Hq Hk Hle. rewrite (nearest_value q Hq).
  set (e := exponent q) in *.
  pose proof (pow2_pos e) as He.
  assert (Hk' : (pow2 k == inject_Z (2 ^ (k - e)) * pow2 e)%Q).
  { rewrite <- pow2_Z by lia. rewrite <- pow2_add. now replace (k - e + e)%Z with k by lia. }
  rewrite Hk'. apply Qmult_le_compat_r; [| lra].
  rewrite <- Zle_Qle. rewrite <- (rint_integer (2 ^ (k - e))) at 1.
  apply rint_monotone. apply Qle_shift_div_l; [exact He |]. now rewrite <- Hk'.
Qed.

Lemma nearest_nonneg (q : Q) : (0 <= nearest q)%Q.
Proof.
  unfold nearest. destruct (Qle_bool q 0) eqn:Hc; [lra |].
  assert (Hq : (0 < q)%Q).
  { apply Qnot_le_lt. intros H. apply Qle_bool_iff in H. congruence. }
  rewrite Qred_correct. pose proof (quantum_pos q) as Hu.
  apply Qmult_le_0_compat; [| lra].
  replace 0%Q with (inject_Z 0) by reflexivity. rewrite <- Zle_Qle.
  rewrite <- (rint_integer 0). apply rint_monotone.
  apply Qle_shift_div_l; [exact Hu |]. change (inject_Z 0) with 0%Q. lra.
Qed.

Lemma nearest_monotone (x y : Q) : (x <= y)%Q -> (nearest x <= nearest y)%Q.
Proof.
  intros Hxy.
  destruct (Qlt_le_dec 0 x) as [Hx | Hx].
  - assert (Hy : (0 < y)%Q) by lra.
    pose proof (ilog2_monotone x y Hx Hxy) as Hlog.
    destruct (Z.eq_dec (exponent x) (exponent y)) as [Heq | Hneq].
    + rewrite (nearest_value x Hx), (nearest_value y Hy), Heq.
      pose proof (pow2_pos (exponent y)) as He.
      apply Qmult_le_compat_r; [| lra].
      rewrite <- Zle_Qle. apply rint_monotone.
      unfold Qdiv. apply Qmult_le_compat_r; [exact Hxy |].
      apply Qinv_le_0_compat. lra.
    + destruct (ilog2_spec x Hx) as [_ Hxhi].
      destruct (ilog2_spec y Hy) as [Hylo _].
      assert (Hlt : (ilog2 x < ilog2 y)%Z) by (unfold exponent in Hneq; lia).
      apply Qle_trans with (pow2 (ilog2 y)).
      * apply nearest_le_pow2; [exact Hx | unfold exponent in *; lia |].
        apply Qle_trans with (pow2 (ilog2 x + 1)); [lra | apply pow2_le; lia].
      * apply nearest_ge_pow2; [exact Hy | unfold exponent in *; lia | exact Hylo].
  - unfold nearest at 1.
    assert (Hc : Qle_bool x 0 = true) by now apply Qle_bool_iff.
    rewrite Hc. apply nearest_nonneg.
Qed.

Lemma is_negative_true (q : Q) : is_negative q = true <-> (q < 0)%Q.
Proof.
  unfold is_negative. rewrite negb_true_iff. split.
  - intros H. apply Qnot_le_lt. intros Hle. apply Qle_bool_iff in Hle. congruence.
  - intros H. destruct (Qle_bool 0 q) eqn:Hc; [| reflexivity].
    apply Qle_bool_iff in Hc. lra.
Qed.

Lemma is_negative_false (q : Q) : is_negative q = false <-> (0 <= q)%Q.
Proof.
  unfold is_negative. rewrite negb_false_iff. apply Qle_bool_iff.
Qed.

Lemma RN_monotone (x y : Q) : (x <= y)%Q -> (RN x <= RN y)%Q.
Proof.
  intros Hxy. unfold RN.
  destruct (is_negative x) eqn:Hx; destruct (is_negative y) eqn:Hy;
    rewrite ?Qred_correct.
  - apply is_negative_true in Hx, Hy.
    assert (H : (nearest (- y) <= nearest (- x))%Q) by (apply nearest_monotone; lra).
    lra.
  - pose proof (nearest_nonneg (- x)). pose proof (nearest_nonneg y). lra.
  - apply is_negative_true in Hy. apply is_negative_false in Hx. lra.
  - now apply nearest_monotone.
Qed.

(** *** The order of floats *)

Lemma huge_pos : (0 < huge)%Q.
Proof. apply pow2_pos. Qed.

Lemma zero_value (n : bool) : value (zero n) = 0%Q.
Proof. now destruct n. Qed.

Lemma fle_ext (x y : float) :
  fle x y = true <->
  exists a b, ext x = Some a /\ ext y = Some b /\ ext_le a b.
Proof.
  split.
  - destruct x as [p | | [|] |], y as [q | | [|] |]; simpl; intros H;
      try discriminate;
      try (apply Qle_bool_iff in H);
      do 2 eexists; (split; [reflexivity | split; [reflexivity | simpl; auto]]).
  - intros (a & b & Ha & Hb & Hle).
    destruct x as [p | | [|] |], y as [q | | [|] |]; simpl in *;
      inversion Ha; inversion Hb; subst; simpl in Hle;
      try reflexivity; try contradiction; now apply Qle_bool_iff.
Qed.

Lemma ext_le_refl (a : extended) : ext_le a a.
Proof. destruct a; simpl; auto. apply Qle_refl. Qed.

Lemma ext_le_trans (a b c : extended) : ext_le a b -> ext_le b c -> ext_le a c.
Proof.
  destruct a, b, c; simpl; auto; try contradiction. apply Qle_trans.
Qed.

Lemma ext_le_total (a b : extended) : ext_le a b \/ ext_le b a.
Proof.
  destruct a as [| p |], b as [| q |]; simpl; auto.
  destruct (Qlt_le_dec p q); [left; lra | right; lra].
Qed.

Lemma ext_some (x : float) : is_nan x = false -> exists a, ext x = Some a.
Proof.
  destruct x as [q | | [|] |]; simpl; intros H; try discriminate; eauto.
Qed.

Lemma ext_none (x : float) : is_nan x = true -> ext x = None.
Proof. destruct x as [q | | [|] |]; simpl; intros H; try discriminate; auto. Qed.

Lemma fle_not_nan (x y : float) :
  fle x y = true -> is_nan x = false /\ is_nan y = false.
Proof.
  destruct x as [p | | [|] |], y as [q | | [|] |]; simpl; intros H;
    try discriminate; auto.
Qed.

Lemma fle_refl (x : float) : is_nan x = false -> fle x x = true.
Proof.
  intros H. destruct (ext_some x H) as [a Ha].
  apply fle_ext. exists a, a. auto using ext_le_refl.
Qed.

Lemma fle_trans (x y z : float) :
  fle x y = true -> fle y z = true -> fle x z = true.
Proof.
  rewrite !fle_ext. intros (a & b & Ha & Hb & Hab) (b' & c & Hb' & Hc & Hbc).
  rewrite Hb in Hb'. inversion Hb'; subst b'.
  exists a, c. eauto using ext_le_trans.
Qed.

Lemma fle_total (x y : float) :
  is_nan x = false -> is_nan y = false -> fle x y = true \/ fle y x = true.
Proof.
  intros Hx Hy. destruct (ext_some x Hx) as [a Ha], (ext_some y Hy) as [b Hb].
  rewrite !fle_ext.
  destruct (ext_le_total a b); [left | right]; do 2 eexists; eauto.
Qed.

Lemma na_last_le_refl (x : float) : na_last_le x x = true.
Proof.
  unfold na_last_le. destruct (is_nan x) eqn:H; [reflexivity |].
  now apply fle_refl.
Qed.

Lemma na_last_le_trans (x y z : float) :
  na_last_le x y = true -> na_last_le y z = true -> na_last_le x z = true.
Proof.
  unfold na_last_le. intros Hxy Hyz.
  destruct (is_nan z) eqn:Hz; [reflexivity |]. simpl in *.
  destruct (fle_not_nan _ _ Hyz) as [Hy _]. rewrite Hy in Hxy. simpl in Hxy.
  eauto using fle_trans.
Qed.

Lemma na_last_le_total (x y : float) :
  na_last_le x y = true \/ na_last_le y x = true.
Proof.
  unfold na_last_le.
  destruct (is_nan x) eqn:Hx; [right; reflexivity |].
  destruct (is_nan y) eqn:Hy; [left; reflexivity |]. simpl.
  now apply fle_total.
Qed.

(** *** Operations that keep the order *)

Lemma ext_rounded (n : bool) (q : Q) :
  exists a, ext (rounded n q) = Some a
            /\ ext_le a (clamp (RN q)) /\ ext_le (clamp (RN q)) a.
Proof.
  unfold rounded, clamp. pose proof huge_pos as Hh.
  destruct (Qeq_bool (RN q) 0) eqn:Hz.
  - apply Qeq_bool_iff in Hz.
    assert (Hc : Qle_bool huge (Qabs (RN q)) = false).
    { destruct (Qle_bool huge (Qabs (RN q))) eqn:Hc; [| reflexivity].
      apply Qle_bool_iff in Hc. rewrite Hz in Hc. simpl in Hc.
      change (Qabs 0) with 0%Q in Hc. lra. }
    rewrite Hc. exists (Real 0). destruct n; simpl; (split; [reflexivity |]); lra.
  - destruct (Qle_bool huge (Qabs (RN q))).
    + destruct (is_negative (RN q)); eexists; (split; [reflexivity |]); simpl; auto.
    + exists (Real (RN q)). simpl. split; [reflexivity |]. lra.
Qed.

Lemma clamp_cases (r : Q) :
  (clamp r = Top /\ (huge <= r)%Q)
  \/ (clamp r = Bottom /\ (r <= - huge)%Q)
  \/ (clamp r = Real r /\ (- huge < r)%Q /\ (r < huge)%Q).
Proof.
  unfold clamp. pose proof huge_pos as Hh.
  destruct (Qle_bool huge (Qabs r)) eqn:Hc.
  - apply Qle_bool_iff in Hc.
    destruct (is_negative r) eqn:Hn.
    + apply is_negative_true in Hn. right; left. split; [reflexivity |].
      rewrite Qabs_neg in Hc by lra. lra.
    + apply is_negative_false in Hn. left. split; [reflexivity |].
      now rewrite Qabs_pos in Hc.
  - right; right. split; [reflexivity |].
    assert (Hd : ~ (huge <= Qabs r)%Q) by (rewrite <- Qle_bool_iff; congruence).
    apply Qnot_le_lt in Hd. now apply Qabs_Qlt_condition in Hd.
Qed.

Lemma clamp_monotone (r r' : Q) : (r <= r')%Q -> ext_le (clamp r) (clamp r').
Proof.
  intros H. pose proof huge_pos as Hh.
  destruct (clamp_cases r) as [[-> ?] | [[-> ?] | [-> [? ?]]]];
    destruct (clamp_cases r') as [[-> ?] | [[-> ?] | [-> [? ?]]]];
    simpl; auto; lra.
Qed.

Lemma rounded_monotone (n n' : bool) (q q' : Q) :
  (q <= q')%Q -> fle (rounded n q) (rounded n' q') = true.
Proof.
  intros H. apply fle_ext.
  destruct (ext_rounded n q) as (a & Ha & Ha1 & _).
  destruct (ext_rounded n' q') as (b & Hb & _ & Hb2).
  exists a, b. split; [exact Ha | split; [exact Hb |]].
  eapply ext_le_trans; [exact Ha1 |].
  eapply ext_le_trans; [| exact Hb2].
  apply clamp_monotone. now apply RN_monotone.
Qed.

Lemma rounded_not_nan (n : bool) (q : Q) : is_nan (rounded n q) = false.
Proof.
  unfold rounded. destruct (Qeq_bool _ _); [now destruct n |].
  now destruct (Qle_bool _ _).
Qed.

Lemma fle_top (x : float) : is_nan x = false -> fle x (Inf false) = true.
Proof. destruct x as [q | | [|] |]; simpl; auto. Qed.

Lemma fle_bottom (x : float) : is_nan x = false -> fle (Inf true) x = true.
Proof. destruct x as [q | | [|] |]; simpl; auto. Qed.

(** Multiplication and division by a positive constant, and [frint],
    keep the order. *)
Lemma fmul_monotone (k : Q) (x y : float) :
  (0 < k)%Q -> fle x y = true ->
  fle (fmul x (Finite k)) (fmul y (Finite k)) = true.
Proof.
  intros Hk Hxy.
  assert (Hz : Qeq_bool k 0 = false).
  { destruct (Qeq_bool k 0) eqn:E; [| reflexivity]. apply Qeq_bool_iff in E. lra. }
  assert (Hs : is_negative k = false) by (apply is_negative_false; lra).
  destruct x as [p | | [|] |], y as [q | | [|] |]; simpl in Hxy |- *;
    try discriminate; rewrite ?Hz, ?Hs; cbn [xorb];
    try reflexivity;
    try (apply fle_top, rounded_not_nan);
    try (apply fle_bottom, rounded_not_nan);
    try (apply rounded_monotone; apply Qle_bool_iff in Hxy; nra).
Qed.

Lemma fdiv_monotone (k : Q) (x y : float) :
  (0 < k)%Q -> fle x y = true ->
  fle (fdiv x (Finite k)) (fdiv y (Finite k)) = true.
Proof.
  intros Hk Hxy.
  assert (Hz : Qeq_bool k 0 = false).
  { destruct (Qeq_bool k 0) eqn:E; [| reflexivity]. apply Qeq_bool_iff in E. lra. }
  assert (Hs : is_negative k = false) by (apply is_negative_false; lra).
  assert (Hi : (0 < / k)%Q) by now apply Qinv_lt_0_compat.
  destruct x as [p | | [|] |], y as [q | | [|] |]; simpl in Hxy |- *;
    try discriminate; rewrite ?Hz, ?Hs; cbn [xorb];
    try reflexivity;
    try (apply fle_top, rounded_not_nan);
    try (apply fle_bottom, rounded_not_nan);
    try (apply rounded_monotone; apply Qle_bool_iff in Hxy; unfold Qdiv; nra).
Qed.

Lemma ext_frint (q : Q) :
  exists a, ext (frint (Finite q)) = Some a
            /\ ext_le a (Real (inject_Z (rint q)))
            /\ ext_le (Real (inject_Z (rint q))) a.
Proof.
  simpl. destruct (rint q =? 0)%Z eqn:E.
  - apply Z.eqb_eq in E. rewrite E. exists (Real 0).
    split; [now destruct (is_negative q) |]. simpl. change (inject_Z 0) with 0%Q. lra.
  - eexists. split; [reflexivity |]. simpl. lra.
Qed.

Lemma frint_monotone (x y : float) :
  fle x y = true -> fle (frint x) (frint y) = true.
Proof.
  intros Hxy.
  assert (Hfin : forall p q, (p <= q)%Q ->
                   fle (frint (Finite p)) (frint (Finite q)) = true).
  { intros p q H. apply fle_ext.
    destruct (ext_frint p) as (a & Ha & Ha1 & _).
    destruct (ext_frint q) as (b & Hb & _ & Hb2).
    exists a, b. split; [exact Ha | split; [exact Hb |]].
    eapply ext_le_trans; [exact Ha1 |]. eapply ext_le_trans; [| exact Hb2].
    simpl. rewrite <- Zle_Qle. now apply rint_monotone. }
  assert (Hnn : forall p, is_nan (frint (Finite p)) = false).
  { intros p. simpl. destruct (rint p =? 0)%Z; [now destruct (is_negative p) | reflexivity]. }
  assert (HzL : forall q, (0 <= q)%Q -> fle NegZero (frint (Finite q)) = true).
  { intros q H. apply fle_ext. destruct (ext_frint q) as (b & Hb & _ & Hb2).
    exists (Real 0), b. split; [reflexivity | split; [exact Hb |]].
    eapply ext_le_trans; [| exact Hb2]. simpl.
    replace 0%Q with (inject_Z 0) by reflexivity. rewrite <- Zle_Qle.
    rewrite <- (rint_integer 0). apply rint_monotone. exact H. }
  assert (HzR : forall p, (p <= 0)%Q -> fle (frint (Finite p)) NegZero = true).
  { intros p H. apply fle_ext. destruct (ext_frint p) as (a & Ha & Ha1 & _).
    exists a, (Real 0). split; [exact Ha | split; [reflexivity |]].
    eapply ext_le_trans; [exact Ha1 |]. simpl.
    replace 0%Q with (inject_Z 0) by reflexivity. rewrite <- Zle_Qle.
    rewrite <- (rint_integer 0). apply rint_monotone. exact H. }
  destruct x as [p | | [|] |], y as [q | | [|] |]; simpl in Hxy; try discriminate;
    try (apply Qle_bool_iff in Hxy).
  all: try (apply Hfin; exact Hxy).
  all: try (apply HzL; exact Hxy).
  all: try (apply HzR; exact Hxy).
  all: try reflexivity.
  all: try (apply fle_top, Hnn).
  all: try (apply fle_bottom, Hnn).
Qed.

Lemma scale_2 : of_Z (10 ^ Z.of_nat 2) = Finite 100.
Proof. vm_compute. reflexivity. Qed.

Lemma round_to_NaN (decimals : nat) : round_to decimals NaN = NaN.
Proof. reflexivity. Qed.

Lemma round_to_fle (x y : float) :
  fle x y = true -> fle (round_to 2 x) (round_to 2 y) = true.
Proof.
  intros H. unfold round_to. rewrite scale_2.
  apply fdiv_monotone; [reflexivity |].
  apply frint_monotone. apply fmul_monotone; [reflexivity | exact H].
Qed.

(** Rounding to 2 decimals never puts two values out of order. *)
Lemma round_to_monotone (x y : float) :
  na_last_le x y = true -> na_last_le (round_to 2 x) (round_to 2 y) = true.
Proof.
  unfold na_last_le. intros H.
  destruct y as [q | | b |]; simpl in H; try reflexivity.
  all: apply orb_true_iff; right; now apply round_to_fle.
Qed.

End FloatFacts.

(** ** The insight generator without a credential *)

Module InsightFacts.
Import Float Frame Net App.

Lemma key_missing_unset : key_missing None = true.
Proof. reflexivity. Qed.

Lemma key_missing_placeholder : key_missing (Some placeholder_key) = true.
Proof. reflexivity. Qed.

Lemma key_missing_absent (key : option string) :
  key = None \/ key = Some placeholder_key -> key_missing key = true.
Proof. intros [-> | ->]; reflexivity. Qed.

Lemma get_ai_insights_key_missing (w : world) (df : series) (log : list event) :
  key_missing (GEMINI_API_KEY w) = true ->
  get_ai_insights df w log = (Some not_configured, log).
Proof.
  intros Hkey. unfold get_ai_insights, bind, ask. now rewrite Hkey.
Qed.

(** C6: with the text-generation credential absent (unset, or equal to the
    placeholder), [get_ai_insights] returns exactly the fixed "not
    configured" paragraph and leaves the call log as it found it (so no
    [GenerateContent] call, nor any other, is made), whatever table it is
    given. *)
Theorem C6_no_credential_no_call :
  forall (w : world) (df : series) (log : list event),
    GEMINI_API_KEY w = None \/ GEMINI_API_KEY w = Some "YOUR_GEMINI_API_KEY" ->
    get_ai_insights df w log
    = (Some "<p>Gemini API key not configured. Insights are unavailable.</p>",
       log).
Proof.
  intros w df log Hkey.
  apply get_ai_insights_key_missing, key_missing_absent, Hkey.
Qed.

Lemma C6_no_credential_no_call_witness :
  run (get_ai_insights [("MEL", Finite 200)]) (silent_world None)
  = (Some "<p>Gemini API key not configured. Insights are unavailable.</p>",
     []).
Proof.
  apply (C6_no_credential_no_call (silent_world None) [("MEL", Finite 200)] []).
  left. reflexivity.
Defined.

(** C9: the credential check comes before the empty-table check: with the
    credential absent and an empty table, the answer is the "not
    configured" paragraph, which differs from the "no data" paragraph. *)
Theorem C9_credential_check_first :
  forall (w : world) (log : list event),
    key_missing (GEMINI_API_KEY w) = true ->
    get_ai_insights [] w log = (Some not_configured, log)
    /\ fst (get_ai_insights [] w log) <> Some no_data.
Proof.
  intros w log Hkey.
  rewrite (get_ai_insights_key_missing w [] log Hkey).
  split; [reflexivity | discriminate].
Qed.

Lemma C9_credential_check_first_witness :
  get_ai_insights [] (silent_world (Some placeholder_key)) []
  = (Some not_configured, [])
  /\ fst (get_ai_insights [] (silent_world (Some placeholder_key)) [])
     <> Some no_data.
Proof.
  apply (C9_credential_check_first (silent_world (Some placeholder_key)) []).
  reflexivity.
Defined.

(** With a credential, the empty table is what decides. *)
Lemma get_ai_insights_empty_table (w : world) (log : list event) :
  key_missing (GEMINI_API_KEY w) = false ->
  get_ai_insights [] w log = (Some no_data, log).
Proof.
  intros Hkey. unfold get_ai_insights, bind, ask. now rewrite Hkey.
Qed.

(** [get_ai_insights] catches every exception of the generation call. *)
Lemma get_ai_insights_returns (w : world) (df : series) (log : list event) :
  exists html log', get_ai_insights df w log = (Some html, log').
Proof.
  unfold get_ai_insights, bind, ask, call, ret.
  destruct (key_missing (GEMINI_API_KEY w)); [eauto |].
  destruct df; [eauto |].
  destruct (generation_reply w _ _); eauto.
Qed.

End InsightFacts.
(* ================================================================== *)
(** ** The two routes *)

Module RouteFacts.
Import Float Frame Normalizer Net App InsightFacts.

Lemma grows_ret {A : Type} (a : A) : grows (ret a).
Proof. intros w log. exists []. simpl. now rewrite app_nil_r. Qed.

Lemma grows_lift {A : Type} (o : option A) : grows (lift o).
Proof. intros w log. exists []. simpl. now rewrite app_nil_r. Qed.

Lemma grows_ask : grows ask.
Proof. intros w log. exists []. simpl. now rewrite app_nil_r. Qed.

Lemma grows_call (e : event) : grows (call e).
Proof. intros w log. now exists [e]. Qed.

Lemma grows_bind {A B : Type} (m : M A) (k : A -> M B) :
  grows m -> (forall a, grows (k a)) -> grows (bind m k).
Proof.
  intros Hm Hk w log. unfold bind.
  destruct (Hm w log) as [r1 H1].
  destruct (m w log) as [[a |] log1]; simpl in H1; subst log1.
  - destruct (Hk a w (app log r1)) as [r2 H2].
    exists (app r1 r2). now rewrite H2, app_assoc.
  - now exists r1.
Qed.

Lemma grows_for_each {A S : Type} (xs : list A) (body : S -> A -> M S) :
  (forall s x, grows (body s x)) -> forall s, grows (for_each xs body s).
Proof.
  intros Hbody. induction xs as [| x xs IH]; intros s; simpl.
  - apply grows_ret.
  - apply grows_bind; auto.
Qed.

Create HintDb grows.
#[local] Hint Resolve grows_ret grows_lift grows_ask grows_call : grows.

Lemma grows_search (tok o d dt : string) : grows (search_flight_deals tok o d dt).
Proof.
  unfold search_flight_deals.
  apply grows_bind; [auto with grows | intros n].
  apply grows_bind; auto with grows.
Qed.

Lemma grows_trend_step (tok o d : string) (df : frame) (i : nat) :
  grows (trend_step tok o d df i).
Proof.
  unfold trend_step.
  apply grows_bind; [auto with grows | intros w].
  apply grows_bind; [apply grows_search | intros [| x xs]]; auto with grows.
  apply grows_bind; [auto with grows | intros df'].
  destruct (empty df'); auto with grows.
  apply grows_bind; auto with grows.
Qed.

Lemma grows_fetch_trend (tok o d : string) : grows (fetch_trend tok o d).
Proof. apply grows_for_each, grows_trend_step. Qed.

Lemma grows_get_ai_insights (df : series) : grows (get_ai_insights df).
Proof.
  unfold get_ai_insights.
  apply grows_bind; [auto with grows | intros w].
  destruct (key_missing _); auto with grows.
  destruct df; auto with grows.
  apply grows_bind; [auto with grows | intros n].
  destruct (generation_reply _ _ _); auto with grows.
Qed.

(** Each turn of the snapshot loop makes exactly one search, so a loop
    that completes has logged one search per origin, in order. *)
Lemma snapshot_loop_log (tok dest dt : string) (w : world) :
  forall origins df log df' log',
    for_each origins (snapshot_step tok dest dt) df w log = (Some df', log') ->
    log' = app log (searches (fun o => FlightSearch tok o dest dt) origins).
Proof.
  induction origins as [| o origins IH]; intros df log df' log' Hrun; simpl in *.
  - unfold ret in Hrun. inversion Hrun. now rewrite app_nil_r.
  - unfold bind at 1 in Hrun.
    destruct (snapshot_step tok dest dt df o w log) as [[df1 |] log1] eqn:Hstep;
      [| discriminate].
    apply IH in Hrun. subst log'.
    unfold snapshot_step, search_flight_deals, bind, call, ask, lift, ret in Hstep.
    destruct (process_flight_data _ _ _) as [df2 |]; [| discriminate].
    destruct (empty df2); inversion Hstep; subst;
      now rewrite <- app_assoc.
Qed.

Lemma snapshot_loop_returns (tok dest dt : string) (w : world) :
  well_formed_world w ->
  forall origins df log,
    exists df' log',
      for_each origins (snapshot_step tok dest dt) df w log = (Some df', log').
Proof.
  intros Hw. induction origins as [| o origins IH]; intros df log; simpl.
  - unfold ret. eauto.
  - unfold bind at 1.
    unfold snapshot_step, search_flight_deals, bind, call, ask, lift, ret.
    destruct (Hw (List.length log) tok o dest dt) as [df2 [-> _]].
    destruct (empty df2); apply IH.
Qed.

Lemma trend_loop_returns (tok o d : string) (w : world) :
  well_formed_world w ->
  forall days df log,
    exists df' log',
      for_each days (trend_step tok o d) df w log = (Some df', log').
Proof.
  intros Hw. induction days as [| i days IH]; intros df log; simpl.
  - unfold ret. eauto.
  - unfold bind at 1.
    unfold trend_step, search_flight_deals, bind, call, ask, lift, ret.
    destruct (Hw (List.length log) tok o d (date_after w i))
      as [df2 [Hdf Hmin]].
    destruct (data_of _) as [| x xs]; [apply IH |].
    rewrite Hdf.
    destruct (empty df2); [apply IH |].
    destruct (cheapest_per_date df2); [apply IH | contradiction].
Qed.

(** When no reply of the loop carries an offer, the trend loop returns the
    frame it was given and has logged one search per day.  The reply to
    the [k]-th search of the loop is the one numbered by the calls made
    before it. *)
Lemma trend_loop_no_offers (tok o d : string) (w : world) :
  forall days df log,
    (forall k i, nth_error days k = Some i ->
       data_of (search_reply w (List.length log + k) tok o d (date_after w i))
       = []) ->
    for_each days (trend_step tok o d) df w log
    = (Some df,
       app log (searches (fun i => FlightSearch tok o d (date_after w i)) days)).
Proof.
  induction days as [| i days IH]; intros df log Hnone; simpl.
  - unfold ret. now rewrite app_nil_r.
  - unfold bind at 1.
    unfold trend_step, search_flight_deals, bind, call, ask, lift, ret.
    pose proof (Hnone 0%nat i eq_refl) as H0.
    rewrite Nat.add_0_r in H0. rewrite H0.
    rewrite IH.
    + now rewrite <- app_assoc.
    + intros k j Hk. rewrite length_app. simpl.
      replace (List.length log + 1 + k)%nat with (List.length log + S k)%nat
        by lia.
      now apply Hnone.
Qed.

Lemma empty_market_well_formed : well_formed_world empty_market.
Proof.
  intros n tok o d dt. exists []. split; [reflexivity | discriminate].
Qed.

(** C8: when [origin] or [destination] is missing (absent, or present but
    empty), [api_price_trend] answers HTTP 400 with a JSON body holding an
    [error] member, and its call log is empty: no token exchange and no
    search is made. *)
Theorem C8_missing_parameter :
  forall (origin destination : option string) (w : world),
    truthy origin = false \/ truthy destination = false ->
    run (api_price_trend origin destination) w
    = (Some (JsonResponse
               (JObject [("error",
                          JString "Missing origin or destination parameters")])
               400),
       []).
Proof.
  intros origin destination w H. unfold run, api_price_trend.
  destruct H as [H | H]; rewrite H; simpl;
    [| rewrite orb_true_r]; reflexivity.
Qed.

Lemma C8_missing_parameter_witness :
  run (api_price_trend None (Some "SYD")) empty_market
  = (Some (JsonResponse
             (JObject [("error",
                        JString "Missing origin or destination parameters")])
             400),
     []).
Proof.
  apply (C8_missing_parameter None (Some "SYD") empty_market).
  left. reflexivity.
Defined.

(** C7: with origin [X] and destination [Y] both supplied, the token
    exchange answered by a token, and none of the 30 searches answered
    with an offer, [api_price_trend] answers (status 200) exactly
    [{labels: [], data: [], chart_title: "No Trend Data for X to Y"}],
    after one token exchange and one search per day. *)
Theorem C7_no_trend_data :
  forall (w : world) (X Y tok : string),
    X <> "" -> Y <> "" ->
    oauth_reply w 0 = Body (Some tok) -> tok <> "" ->
    (forall i, (1 <= i <= 30)%nat ->
       data_of (search_reply w i tok X Y (date_after w i)) = []) ->
    run (api_price_trend (Some X) (Some Y)) w
    = (Some (JsonResponse
               (JObject [("labels", JArray []); ("data", JArray []);
                         ("chart_title",
                          JString ("No Trend Data for " ++ X ++ " to " ++ Y))])
               200),
       TokenExchange
         :: searches (fun i => FlightSearch tok X Y (date_after w i))
              (seq 1 30)).
Proof.
  intros w X Y tok HX HY Htok Htok' Hnone.
  apply String.eqb_neq in HX, HY, Htok'.
  unfold run, api_price_trend. cbn [truthy]. rewrite HX, HY. cbn [negb orb].
  unfold bind at 1.
  unfold get_amadeus_access_token, bind, call, ask, ret. cbn [List.length app].
  rewrite Htok. cbn [truthy]. rewrite Htok'. cbn [negb fmt].
  unfold fetch_trend. rewrite trend_loop_no_offers.
  - reflexivity.
  - intros k i Hk. cbn [List.length].
    assert (k < 30)%nat as Hlt.
    { pose proof (proj1 (nth_error_Some (seq 1 30) k)) as Hb.
      rewrite length_seq in Hb. apply Hb. now rewrite Hk. }
    rewrite nth_error_seq in Hk.
    destruct (Nat.ltb_spec k 30); [| lia].
    inversion Hk; subst i. apply Hnone. lia.
Qed.

Lemma C7_no_trend_data_witness :
  run (api_price_trend (Some "MEL") (Some "SYD")) empty_market
  = (Some (JsonResponse
             (JObject [("labels", JArray []); ("data", JArray []);
                       ("chart_title",
                        JString "No Trend Data for MEL to SYD")])
             200),
     TokenExchange
       :: searches (fun i => FlightSearch "tok" "MEL" "SYD" "2025-01-01")
            (seq 1 30)).
Proof.
  apply (C7_no_trend_data empty_market "MEL" "SYD" "tok").
  - discriminate.
  - discriminate.
  - reflexivity.
  - discriminate.
  - intros i Hi. reflexivity.
Defined.

Lemma filter_out_absent (dest : string) (codes : list string) :
  ~ In dest codes ->
  filter (fun code => negb (String.eqb code dest)) codes = codes.
Proof.
  induction codes as [| c codes IH]; intros Hnot; simpl; [reflexivity |].
  destruct (String.eqb_spec c dest) as [-> | Hneq].
  - exfalso. apply Hnot. now left.
  - simpl. rewrite IH; [reflexivity |]. intros Hin. apply Hnot. now right.
Qed.

(** What [index] does once the origins are known: either the token
    exchange fails and the fixed error page is returned after that one
    call, or every origin is searched and the page is rendered. *)
Lemma index_outcome (dest : string) (w : world) (r : response)
  (log : list event) :
  run (index (Some dest)) w = (Some r, log) ->
  (r = auth_error_page /\ log = [TokenExchange])
  \/ (exists tok ctx rest,
        oauth_reply w 0 = Body (Some tok)
        /\ r = Rendered ctx
        /\ selected_destination ctx = dest
        /\ log = TokenExchange
                  :: app (searches
                            (fun o => FlightSearch tok o dest (date_after w 1))
                            (origin_cities_for dest))
                         rest).
Proof.
  unfold run, index. unfold bind at 1.
  unfold get_amadeus_access_token, bind at 1, call, ask. cbn [List.length app].
  unfold bind at 1.
  assert (forall t : option string,
            oauth_reply w 0 = Body t \/ (oauth_reply w 0 = RequestException /\ t = None) ->
            (match oauth_reply w 0 with
             | RequestException => ret None
             | Body token => ret token
             end) w [TokenExchange] = (Some t, [TokenExchange])) as Htoken.
  { intros t [-> | [-> ->]]; reflexivity. }
  destruct (oauth_reply w 0) as [| token] eqn:Hreply.
  - rewrite (Htoken None) by (right; now split). cbn [truthy negb].
    unfold ret. intros H. inversion H. now left.
  - rewrite (Htoken token) by now left.
    destruct (truthy token) eqn:Htruthy; cbn [negb].
    + destruct token as [tok |]; [| discriminate]. cbn [fmt].
      unfold bind at 1, ask. unfold bind at 1.
      destruct (for_each _ _ _ _ _) as [[routes_df |] log1] eqn:Hsnap;
        [| discriminate].
      apply snapshot_loop_log in Hsnap. subst log1.
      unfold bind at 1.
      match goal with
      | |- context [(if ?c then fetch_trend ?a ?b ?d else ret ?e) w ?l] =>
          assert (grows (if c then fetch_trend a b d else ret e)) as Hg
            by (destruct c; [apply grows_fetch_trend | apply grows_ret]);
          destruct (Hg w l) as [rest1 Hrest1];
          destruct ((if c then fetch_trend a b d else ret e) w l)
            as [[trend_df |] log2]; [| discriminate]
      end.
      simpl in Hrest1. subst log2.
      destruct (empty trend_df);
        (unfold bind at 1;
         destruct (empty routes_df);
         [ unfold ret; intros H; inversion H; right;
           exists tok; eexists; exists rest1;
           split; [reflexivity | split; [reflexivity | split; reflexivity]]
         | unfold bind at 1;
           match goal with
           | |- context [get_ai_insights ?s w ?l] =>
               destruct (grows_get_ai_insights s w l) as [rest2 Hrest2];
               destruct (get_ai_insights_returns w s l) as [html [log3 Hret]];
               rewrite Hret in Hrest2 |- *; simpl in Hrest2; subst log3
           end;
           unfold ret; intros H; inversion H; right;
           exists tok; eexists; exists (app rest1 rest2);
           split; [reflexivity | split; [reflexivity | split; [reflexivity |]]];
           cbn [app]; now rewrite <- !app_assoc ]).
    + unfold ret. intros H. inversion H. now left.
Qed.

Lemma index_returns (dest : string) (w : world) :
  well_formed_world w ->
  exists r log, run (index (Some dest)) w = (Some r, log).
Proof.
  intros Hw. unfold run, index. unfold bind at 1.
  destruct (get_amadeus_access_token w []) as [[token |] log0] eqn:Htok.
  - destruct (truthy token); cbn [negb]; [| unfold ret; eauto].
    unfold bind at 1, ask. unfold bind at 1.
    destruct (snapshot_loop_returns (fmt token) dest (date_after w 1) w Hw
                (origin_cities_for dest) [] log0) as [routes_df [log1 ->]].
    unfold bind at 1.
    match goal with
    | |- context [(if ?c then fetch_trend ?a ?b ?d else ret ?e) w ?l] =>
        assert (exists df l', (if c then fetch_trend a b d else ret e) w l
                              = (Some df, l')) as [trend_df [log2 ->]]
          by (destruct c;
              [apply trend_loop_returns, Hw | unfold ret; eauto])
    end.
    destruct (empty trend_df);
      (unfold bind at 1;
       destruct (empty routes_df);
       [ unfold ret; eauto
       | unfold bind at 1;
         match goal with
         | |- context [get_ai_insights ?s w ?l] =>
             destruct (get_ai_insights_returns w s l) as [html [log3 ->]]
         end;
         unfold ret; eauto ]).
  - unfold get_amadeus_access_token, bind, call, ask, ret in Htok.
    destruct (oauth_reply w _); discriminate.
Qed.

(** C10: [index] does not validate the destination.  For a destination
    that is none of the 7 configured codes, the origins are all 7 cities;
    every response is either the fixed status-500 page of a failed token
    exchange or the rendered page for that destination, reached after a
    search from each of the 7 cities (never a client error); and with
    well-formed provider data a response is always produced. *)
Theorem C10_unknown_destination :
  forall dest : string,
    ~ In dest ["SYD"; "MEL"; "BNE"; "PER"; "ADL"; "CBR"; "HBA"] ->
    origin_cities_for dest = ["SYD"; "MEL"; "BNE"; "PER"; "ADL"; "CBR"; "HBA"]
    /\ (forall w r log,
          run (index (Some dest)) w = (Some r, log) ->
          (r = auth_error_page /\ log = [TokenExchange])
          \/ (exists tok ctx rest,
                oauth_reply w 0 = Body (Some tok)
                /\ r = Rendered ctx
                /\ selected_destination ctx = dest
                /\ log = TokenExchange
                          :: app (searches
                                    (fun o => FlightSearch tok o dest
                                                (date_after w 1))
                                    ["SYD"; "MEL"; "BNE"; "PER"; "ADL"; "CBR";
                                     "HBA"])
                                 rest))
    /\ (forall w r log,
          run (index (Some dest)) w = (Some r, log) ->
          status_of r = 200%Z \/ status_of r = 500%Z)
    /\ (forall w, well_formed_world w ->
          exists r log, run (index (Some dest)) w = (Some r, log)).
Proof.
  intros dest Hdest.
  assert (origin_cities_for dest
          = ["SYD"; "MEL"; "BNE"; "PER"; "ADL"; "CBR"; "HBA"]) as Horigins
    by (apply (filter_out_absent dest city_codes), Hdest).
  split; [exact Horigins |]. split; [| split].
  - intros w r log Hrun. rewrite <- Horigins. now apply index_outcome.
  - intros w r log Hrun.
    destruct (index_outcome dest w r log Hrun)
      as [[-> _] | [tok [ctx [rest [_ [-> _]]]]]]; [now right | now left].
  - intros w Hw. now apply index_returns.
Qed.

Lemma C10_unknown_destination_witness :
  origin_cities_for "LHR" = ["SYD"; "MEL"; "BNE"; "PER"; "ADL"; "CBR"; "HBA"]
  /\ exists r log, run (index (Some "LHR")) empty_market = (Some r, log).
Proof.
  assert (~ In "LHR" ["SYD"; "MEL"; "BNE"; "PER"; "ADL"; "CBR"; "HBA"]) as H.
  { simpl. intros [H | [H | [H | [H | [H | [H | [H | []]]]]]]]; discriminate. }
  destruct (C10_unknown_destination "LHR" H) as [Ho [_ [_ Hr]]].
  split; [exact Ho | exact (Hr empty_market empty_market_well_formed)].
Defined.

End RouteFacts.
(* ================================================================== *)
(** ** Grouping, averaging and sorting *)

Module FrameFacts.
Import Float Frame FloatFacts.

(** *** The order on labels *)

Lemma ascii_compare_refl (c : ascii) : Ascii.compare c c = Eq.
Proof. unfold Ascii.compare. apply N.compare_refl. Qed.

Lemma ascii_compare_lt_trans (a b c : ascii) :
  Ascii.compare a b = Lt -> Ascii.compare b c = Lt -> Ascii.compare a c = Lt.
Proof.
  unfold Ascii.compare. rewrite !N.compare_lt_iff. apply N.lt_trans.
Qed.

Lemma str_compare_refl (s : string) : String.compare s s = Eq.
Proof.
  induction s as [| c s IH]; simpl; [reflexivity |].
  now rewrite ascii_compare_refl.
Qed.

Lemma str_lt_irrefl (s : string) : ~ str_lt s s.
Proof. unfold str_lt. now rewrite str_compare_refl. Qed.

Lemma str_lt_trans (a b c : string) : str_lt a b -> str_lt b c -> str_lt a c.
Proof.
  unfold str_lt. revert b c.
  induction a as [| x a IH]; intros [| y b] [| z c]; simpl; try easy.
  destruct (Ascii.compare x y) eqn:Hxy; try discriminate;
    destruct (Ascii.compare y z) eqn:Hyz; try discriminate; intros Hab Hbc.
  - apply Ascii.compare_eq_iff in Hxy, Hyz. subst.
    rewrite ascii_compare_refl. eauto.
  - apply Ascii.compare_eq_iff in Hxy. subst. now rewrite Hyz.
  - apply Ascii.compare_eq_iff in Hyz. subst. now rewrite Hxy.
  - now rewrite (ascii_compare_lt_trans x y z).
Qed.

Lemma str_gt_lt (a b : string) : String.compare a b = Gt -> str_lt b a.
Proof.
  unfold str_lt. rewrite (String.compare_antisym b a). now intros ->.
Qed.

Lemma str_lt_leb (a b : string) : str_lt a b -> String.leb a b = true.
Proof. unfold str_lt, String.leb. now intros ->. Qed.

(** Strictly ascending labels are pairwise distinct. *)
Lemma ascending_NoDup (ks : list string) :
  StronglySorted str_lt ks -> NoDup ks.
Proof.
  induction 1 as [| k ks Hs IH Hall]; constructor; [| exact IH].
  intros Hin. rewrite Forall_forall in Hall.
  exact (str_lt_irrefl k (Hall k Hin)).
Qed.

(** *** Group keys *)

Lemma insert_label_In (k x : string) (ks : list string) :
  In x (insert_label k ks) <-> x = k \/ In x ks.
Proof.
  induction ks as [| k' ks IH]; simpl.
  - intuition congruence.
  - destruct (String.compare k k') eqn:Hcmp; simpl.
    + apply String.compare_eq_iff in Hcmp. subst. intuition congruence.
    + intuition congruence.
    + rewrite IH. intuition congruence.
Qed.

Lemma insert_label_ascending (k : string) (ks : list string) :
  StronglySorted str_lt ks -> StronglySorted str_lt (insert_label k ks).
Proof.
  induction 1 as [| k' ks Hs IH Hall]; simpl.
  - repeat constructor.
  - destruct (String.compare k k') eqn:Hcmp.
    + now constructor.
    + constructor; [now constructor |].
      constructor; [exact Hcmp |].
      eapply Forall_impl; [| exact Hall].
      intros x Hx. now apply (str_lt_trans k k' x).
    + constructor; [exact IH |].
      rewrite Forall_forall in *. intros x Hx.
      apply insert_label_In in Hx. destruct Hx as [-> | Hx].
      * now apply str_gt_lt.
      * now apply Hall.
Qed.

Lemma group_labels_ascending (col : flight -> string) (df : frame) :
  StronglySorted str_lt (group_labels col df).
Proof.
  unfold group_labels. induction (map col df) as [| k ks IH]; simpl.
  - constructor.
  - now apply insert_label_ascending.
Qed.

Lemma group_labels_In (col : flight -> string) (df : frame) (k : string) :
  In k (group_labels col df) <-> In k (map col df).
Proof.
  unfold group_labels. induction (map col df) as [| k' ks IH]; simpl.
  - reflexivity.
  - rewrite insert_label_In, IH. intuition congruence.
Qed.

Lemma groupby_mean_index (col : flight -> string) (df : frame) :
  index_of (groupby_mean col df) = group_labels col df.
Proof.
  unfold index_of, groupby_mean. rewrite map_map. simpl. apply map_id.
Qed.

Lemma groupby_mean_value (col : flight -> string) (df : frame) (k : string)
  (v : float) :
  In (k, v) (groupby_mean col df) -> v = mean (group_prices col df k).
Proof.
  unfold groupby_mean. rewrite in_map_iff.
  intros [k' [Heq _]]. now inversion Heq.
Qed.

Lemma StronglySorted_weaken {A : Type} (R R' : A -> A -> Prop) (l : list A) :
  (forall x y, In x l -> In y l -> R x y -> R' x y) ->
  StronglySorted R l -> StronglySorted R' l.
Proof.
  intros Himp Hs. induction Hs as [| a l Hs IH Hall]; constructor.
  - apply IH. intros x y Hx Hy. apply Himp; now right.
  - rewrite Forall_forall in *. intros x Hx.
    apply Himp; [now left | now right | now apply Hall].
Qed.

Lemma StronglySorted_map {A B : Type} (f : A -> B) (R : B -> B -> Prop)
  (l : list A) :
  StronglySorted (fun x y => R (f x) (f y)) l -> StronglySorted R (map f l).
Proof.
  induction 1 as [| a l Hs IH Hall]; simpl; constructor; [exact IH |].
  rewrite Forall_forall in *. intros y Hy.
  apply in_map_iff in Hy. destruct Hy as [x [<- Hx]]. now apply Hall.
Qed.

(** *** Sorting by value *)

Lemma value_le_refl (a : string * float) : value_le a a.
Proof. apply na_last_le_refl. Qed.

Lemma value_le_trans (a b c : string * float) :
  value_le a b -> value_le b c -> value_le a c.
Proof. apply na_last_le_trans. Qed.

Lemma value_le_total (a b : string * float) : value_le a b \/ value_le b a.
Proof. apply na_last_le_total. Qed.

Lemma insert_by_value_In (e x : string * float) (s : series) :
  In x (insert_by_value e s) <-> x = e \/ In x s.
Proof.
  induction s as [| e' s IH]; simpl.
  - intuition congruence.
  - destruct (na_last_le (snd e) (snd e')); simpl; [| rewrite IH];
      intuition congruence.
Qed.

Lemma insert_by_value_Permutation (e : string * float) (s : series) :
  Permutation (insert_by_value e s) (e :: s).
Proof.
  induction s as [| e' s IH]; simpl; [reflexivity |].
  destruct (na_last_le (snd e) (snd e')); [reflexivity |].
  rewrite IH. apply perm_swap.
Qed.

Lemma stable_sort_Permutation (s : series) : Permutation (stable_sort s) s.
Proof.
  unfold stable_sort. induction s as [| e s IH]; simpl; [reflexivity |].
  rewrite insert_by_value_Permutation. now constructor.
Qed.

Lemma insert_by_value_sorted (e : string * float) (s : series) :
  StronglySorted value_le s -> StronglySorted value_le (insert_by_value e s).
Proof.
  induction 1 as [| e' s Hs IH Hall]; simpl.
  - repeat constructor.
  - destruct (na_last_le (snd e) (snd e')) eqn:Hle.
    + constructor; [now constructor |].
      constructor; [exact Hle |].
      eapply Forall_impl; [| exact Hall].
      intros x Hx. now apply (value_le_trans e e' x).
    + constructor; [exact IH |].
      rewrite Forall_forall in *. intros x Hx.
      apply insert_by_value_In in Hx. destruct Hx as [-> | Hx].
      * destruct (value_le_total e e') as [H | H]; [| exact H].
        unfold value_le, ascending in H. congruence.
      * now apply Hall.
Qed.

Lemma stable_sort_sorted (s : series) : StronglySorted value_le (stable_sort s).
Proof.
  unfold stable_sort. induction s as [| e s IH]; simpl; [constructor |].
  now apply insert_by_value_sorted.
Qed.

Lemma in_order_sorted (s : series) :
  in_order s = true -> StronglySorted value_le s.
Proof.
  intros H. apply Sorted_StronglySorted.
  - intros a b c. apply value_le_trans.
  - induction s as [| e s IH]; [constructor |].
    simpl in H. destruct s as [| e' s'].
    + repeat constructor.
    + apply andb_true_iff in H. destruct H as [Hhead Hrest].
      constructor; [now apply IH | now constructor].
Qed.

Lemma same_float_eq (x y : float) : same_float x y = true -> x = y.
Proof.
  destruct x as [[p1 p2] | | a |], y as [[q1 q2] | | b |]; simpl;
    try discriminate; try reflexivity.
  - intros H. apply andb_true_iff in H. destruct H as [Hn Hd].
    apply Z.eqb_eq in Hn. apply Pos.eqb_eq in Hd. now subst.
  - intros H. apply Bool.eqb_prop in H. now subst.
Qed.

Lemma same_entry_eq (a b : string * float) : same_entry a b = true -> a = b.
Proof.
  destruct a as [k x], b as [k' y]. unfold same_entry. simpl.
  intros H. apply andb_true_iff in H. destruct H as [Hk Hx].
  apply String.eqb_eq in Hk. apply same_float_eq in Hx. now subst.
Qed.

Lemma remove_entry_Permutation (e : string * float) (s s' : series) :
  remove_entry e s = Some s' -> Permutation s (e :: s').
Proof.
  revert s'. induction s as [| x s IH]; intros s'; simpl; [discriminate |].
  destruct (same_entry e x) eqn:Hsame.
  - apply same_entry_eq in Hsame. subst x. intros H. now inversion H.
  - destruct (remove_entry e s) as [r |]; simpl; [| discriminate].
    intros H. inversion H; subst s'.
    rewrite (IH r eq_refl). apply perm_swap.
Qed.

Lemma rearranges_Permutation (a b : series) :
  rearranges a b = true -> Permutation a b.
Proof.
  revert b. induction a as [| e a IH]; intros b; simpl.
  - destruct b; [constructor | discriminate].
  - destruct (remove_entry e b) as [b' |] eqn:Hrem; [| discriminate].
    intros H. apply IH in H. apply remove_entry_Permutation in Hrem.
    rewrite Hrem. now constructor.
Qed.

(** Whatever the library's choice, [sort_values] returns the entries it
    was given, in ascending order of value. *)
Lemma sort_values_Permutation (quicksort : series -> series) (s : series) :
  Permutation (sort_values quicksort s) s.
Proof.
  unfold sort_values.
  destruct (in_order (quicksort s) && rearranges (quicksort s) s) eqn:Hok.
  - apply andb_true_iff in Hok. now apply rearranges_Permutation.
  - apply stable_sort_Permutation.
Qed.

Lemma sort_values_sorted (quicksort : series -> series) (s : series) :
  StronglySorted value_le (sort_values quicksort s).
Proof.
  unfold sort_values.
  destruct (in_order (quicksort s) && rearranges (quicksort s) s) eqn:Hok.
  - apply andb_true_iff in Hok. now apply in_order_sorted.
  - apply stable_sort_sorted.
Qed.

Lemma sort_values_In (quicksort : series -> series) (x : string * float)
  (s : series) :
  In x (sort_values quicksort s) <-> In x s.
Proof.
  split; apply Permutation_in;
    [| apply Permutation_sym]; apply sort_values_Permutation.
Qed.

Lemma sort_values_single (quicksort : series -> series) (e : string * float) :
  sort_values quicksort [e] = [e].
Proof.
  apply Permutation_length_1_inv, Permutation_sym, sort_values_Permutation.
Qed.

(** Two entries of different value leave no choice. *)
Lemma sort_values_pair (quicksort : series -> series) (a b : string * float) :
  na_last_le (snd a) (snd b) = false ->
  sort_values quicksort [a; b] = [b; a].
Proof.
  intros Hab.
  pose proof (sort_values_Permutation quicksort [a; b]) as Hperm.
  pose proof (sort_values_sorted quicksort [a; b]) as Hsorted.
  apply Permutation_sym, Permutation_length_2_inv in Hperm.
  destruct Hperm as [Heq | Heq]; [| exact Heq].
  rewrite Heq in Hsorted.
  inversion Hsorted as [| ? ? _ Hall]; subst.
  inversion Hall as [| ? ? Hhead _]; subst.
  unfold value_le, ascending in Hhead. congruence.
Qed.

(** *** Route aggregation *)

Lemma round_index (decimals : nat) (s : series) :
  index_of (round decimals s) = index_of s.
Proof. unfold index_of, round. rewrite map_map. reflexivity. Qed.

Lemma sort_values_index_Permutation (quicksort : series -> series)
  (s : series) :
  Permutation (index_of (sort_values quicksort s)) (index_of s).
Proof. unfold index_of. apply Permutation_map, sort_values_Permutation. Qed.

Lemma route_aggregation_index (quicksort : series -> series) (df : frame) :
  Permutation (index_of (route_aggregation quicksort df))
    (group_labels origin df).
Proof.
  unfold route_aggregation.
  rewrite round_index, sort_values_index_Permutation.
  now rewrite groupby_mean_index.
Qed.

Lemma route_aggregation_In (quicksort : series -> series) (df : frame)
  (o : string) :
  In o (index_of (route_aggregation quicksort df)) <-> In o (map origin df).
Proof.
  rewrite <- group_labels_In. split; intros H.
  - eapply Permutation_in; [apply route_aggregation_index | exact H].
  - eapply Permutation_in;
      [apply Permutation_sym, route_aggregation_index | exact H].
Qed.

Lemma route_aggregation_NoDup (quicksort : series -> series) (df : frame) :
  NoDup (index_of (route_aggregation quicksort df)).
Proof.
  eapply Permutation_NoDup.
  - apply Permutation_sym, route_aggregation_index.
  - apply ascending_NoDup, group_labels_ascending.
Qed.

(** The mean of a group is the mean of the prices of the rows that carry
    its label. *)
Lemma groupby_mean_origin (df : frame) (o : string) (m : float) :
  In (o, m) (groupby_mean origin df) -> m = average df o.
Proof. intros H. now apply groupby_mean_value in H. Qed.


Lemma route_aggregation_value (quicksort : series -> series) (df : frame)
  (o : string) (v : float) :
  In (o, v) (route_aggregation quicksort df) ->
  v = round_to 2 (average df o).
Proof.
  unfold route_aggregation, round. rewrite in_map_iff.
  intros [[o' m] [Heq Hin]]. simpl in Heq. inversion Heq; subst.
  apply sort_values_In, groupby_mean_origin in Hin. now subst.
Qed.

Lemma route_aggregation_ascending (quicksort : series -> series) (df : frame) :
  StronglySorted value_le (route_aggregation quicksort df).
Proof.
  unfold route_aggregation, round. apply StronglySorted_map.
  eapply StronglySorted_weaken; [| apply sort_values_sorted].
  intros x y _ _ Hxy. unfold value_le. simpl.
  now apply round_to_monotone.
Qed.

(** The entries come in ascending order of the means they were rounded
    from. *)
Lemma route_aggregation_by_average (quicksort : series -> series)
  (df : frame) :
  StronglySorted (by_average df) (route_aggregation quicksort df).
Proof.
  unfold route_aggregation, round. apply StronglySorted_map.
  eapply StronglySorted_weaken; [| apply sort_values_sorted].
  intros [k1 m1] [k2 m2] H1 H2 H12.
  apply sort_values_In, groupby_mean_origin in H1, H2. subst m1 m2.
  exact H12.
Qed.

(** Sorting comes before rounding.  With ADL at 100.20 and 100.40 and BNE
    at 100.30 the mean of ADL is 100.30000000000001, so BNE comes first
    whatever the sort does with equal values, and both entries then show
    100.3. *)
Lemma near_tie_order (quicksort : series -> series) :
  route_aggregation quicksort near_tie
  = [("BNE", literal 1003 10); ("ADL", literal 1003 10)].
Proof.
  unfold route_aggregation.
  assert (groupby_mean origin near_tie
          = [("ADL", average near_tie "ADL"); ("BNE", average near_tie "BNE")])
    as -> by (vm_compute; reflexivity).
  rewrite sort_values_pair by (vm_compute; reflexivity).
  vm_compute. reflexivity.
Qed.

(** C1, as stated, fails: with SYD and MEL tied at 100 and SYD inserted
    first, a stable sort returns MEL before SYD, because the grouping
    hands the groups over in the order of their codes; insertion order is
    not what ties keep. *)
Lemma C1_ties_counterexample :
  route_aggregation stable_sort tied_routes
  = [("MEL", Finite 100); ("SYD", Finite 100)]
  /\ ~ ties_keep_insertion_order tied_routes
         (route_aggregation stable_sort tied_routes).
Proof.
  assert (route_aggregation stable_sort tied_routes
          = [("MEL", Finite 100); ("SYD", Finite 100)]) as Hout
    by (vm_compute; reflexivity).
  split; [exact Hout |]. rewrite Hout.
  intros H. specialize (H "SYD" "MEL").
  assert (precedes "SYD" "MEL" (index_of [("MEL", Finite 100); ("SYD", Finite 100)]))
    as Hbad.
  { apply H.
    - right. now left.
    - now left.
    - vm_compute. reflexivity.
    - unfold precedes. simpl. lia. }
  unfold precedes in Hbad. simpl in Hbad. lia.
Qed.

(** C1, amended: on a non-empty frame, route aggregation has one entry per
    origin of the input, valued at the mean of the prices of that origin's
    records rounded to 2 decimals, and the entries come in ascending order
    of those means, sorted before they are rounded (ADL at 100.20 and
    100.40 follows BNE at 100.30, and both show 100.3).  The groups
    reach the sort in ascending order of their codes, and which of two
    equal means comes first is left to the sort (every choice of
    [quicksort] is covered); it is not the insertion order of the
    records.  Three MEL records priced 100, 200 and 300 give the single
    entry MEL -> 200.0. *)
Theorem C1_route_aggregation :
  forall (quicksort : series -> series) (df : frame),
    df <> [] ->
    (forall o, In o (index_of (route_aggregation quicksort df))
               <-> In o (map origin df))
    /\ NoDup (index_of (route_aggregation quicksort df))
    /\ (forall o v, In (o, v) (route_aggregation quicksort df) ->
          v = round_to 2
                (mean (map price
                         (filter (fun r => String.eqb (origin r) o) df))))
    /\ StronglySorted (by_average df) (route_aggregation quicksort df)
    /\ (exists grouped : series,
          StronglySorted str_lt (index_of grouped)
          /\ route_aggregation quicksort df
             = round 2 (sort_values quicksort grouped))
    /\ route_aggregation quicksort near_tie
       = [("BNE", literal 1003 10); ("ADL", literal 1003 10)]
    /\ (forall dest a1 a2 a3 d1 d2 d3,
          route_aggregation quicksort
            [mkFlight "MEL" dest (Finite 100) a1 d1;
             mkFlight "MEL" dest (Finite 200) a2 d2;
             mkFlight "MEL" dest (Finite 300) a3 d3]
          = [("MEL", Finite 200)]).
Proof.
  intros quicksort df _.
  split; [| split; [| split; [| split; [| split; [| split]]]]].
  - apply route_aggregation_In.
  - apply route_aggregation_NoDup.
  - apply route_aggregation_value.
  - apply route_aggregation_by_average.
  - exists (groupby_mean origin df). split; [| reflexivity].
    rewrite groupby_mean_index. apply group_labels_ascending.
  - apply near_tie_order.
  - intros dest a1 a2 a3 d1 d2 d3. unfold route_aggregation.
    assert (groupby_mean origin
              [mkFlight "MEL" dest (Finite 100) a1 d1;
               mkFlight "MEL" dest (Finite 200) a2 d2;
               mkFlight "MEL" dest (Finite 300) a3 d3]
            = [("MEL", Finite 200)]) as -> by (vm_compute; reflexivity).
    rewrite sort_values_single. vm_compute. reflexivity.
Qed.

Lemma C1_route_aggregation_witness :
  StronglySorted (by_average tied_routes)
    (route_aggregation stable_sort tied_routes)
  /\ route_aggregation stable_sort
       [mkFlight "MEL" "SYD" (Finite 100) "QF" "2025-01-01";
        mkFlight "MEL" "SYD" (Finite 200) "VA" "2025-01-01";
        mkFlight "MEL" "SYD" (Finite 300) "JQ" "2025-01-02"]
     = [("MEL", Finite 200)].
Proof.
  assert (tied_routes <> []) as H by discriminate.
  destruct (C1_route_aggregation stable_sort tied_routes H)
    as [_ [_ [_ [Hs [_ [_ He]]]]]].
  split; [exact Hs | apply He].
Defined.

Lemma close_means_order (quicksort : series -> series) :
  route_aggregation quicksort close_means
  = [("SYD", literal 10007 100); ("MEL", literal 10007 100)].
Proof.
  unfold route_aggregation.
  assert (groupby_mean origin close_means
          = [("MEL", average close_means "MEL");
             ("SYD", average close_means "SYD")])
    as -> by (vm_compute; reflexivity).
  rewrite sort_values_pair by (vm_compute; reflexivity).
  vm_compute. reflexivity.
Qed.

(** C2: on a non-empty frame, the output of route aggregation is in
    ascending order of its values, the rounded average prices of the
    origins; every origin of the input occurs exactly once in it, and it
    has no other origin.  With SYD at 100.07 and MEL at 100.08 and 100.07
    the output is SYD, MEL, both at 100.07. *)
Theorem C2_sorted_and_complete :
  forall (quicksort : series -> series) (df : frame),
    df <> [] ->
    StronglySorted value_le (route_aggregation quicksort df)
    /\ (forall o v, In (o, v) (route_aggregation quicksort df) ->
          v = round_to 2
                (mean (map price
                         (filter (fun r => String.eqb (origin r) o) df))))
    /\ (forall o, In o (map origin df) ->
          count_occ string_dec (index_of (route_aggregation quicksort df)) o
          = 1%nat)
    /\ (forall o, In o (index_of (route_aggregation quicksort df)) ->
          In o (map origin df))
    /\ route_aggregation quicksort close_means
       = [("SYD", literal 10007 100); ("MEL", literal 10007 100)].
Proof.
  intros quicksort df _. split; [| split; [| split; [| split]]].
  - apply route_aggregation_ascending.
  - apply route_aggregation_value.
  - intros o Ho.
    apply NoDup_count_occ'; [apply route_aggregation_NoDup |].
    now apply route_aggregation_In.
  - intros o. apply route_aggregation_In.
  - apply close_means_order.
Qed.

Lemma C2_sorted_and_complete_witness :
  StronglySorted value_le (route_aggregation stable_sort near_tie)
  /\ count_occ string_dec (index_of (route_aggregation stable_sort near_tie))
       "ADL"
     = 1%nat.
Proof.
  assert (near_tie <> []) as H by discriminate.
  destruct (C2_sorted_and_complete stable_sort near_tie H)
    as [Hs [_ [Hc _]]].
  split; [exact Hs |]. apply Hc. simpl. now left.
Defined.

(** *** Trend aggregation *)

Lemma sort_index_ascending (s : series) :
  StronglySorted str_lt (index_of s) -> sort_index s = s.
Proof.
  unfold sort_index, index_of.
  induction s as [| e s IH]; simpl; intros Hs; [reflexivity |].
  inversion Hs as [| ? ? Hs' Hall]; subst.
  rewrite IH by exact Hs'.
  destruct s as [| e' s]; simpl; [reflexivity |].
  inversion Hall as [| ? ? Hhead _]; subst.
  now rewrite (str_lt_leb _ _ Hhead).
Qed.

Lemma trend_aggregation_unfold (df : frame) :
  trend_aggregation df = round 2 (groupby_mean departure_date df).
Proof.
  unfold trend_aggregation. apply sort_index_ascending.
  rewrite round_index, groupby_mean_index. apply group_labels_ascending.
Qed.

Lemma trend_aggregation_index (df : frame) :
  index_of (trend_aggregation df) = group_labels departure_date df.
Proof.
  now rewrite trend_aggregation_unfold, round_index, groupby_mean_index.
Qed.


End FrameFacts.

(* ================================================================== *)
(** ** The offer normalizer *)

Module NormalizerFacts.
Import PyStr Float Frame Normalizer FloatFacts.

(** [float()] on the spellings it accepts and on some it rejects. *)
Example py_float_examples :
  py_float "123.45" = Some (literal 12345 100)
  /\ py_float " 99 " = Some (Finite 99)
  /\ py_float "-5.00" = Some (Finite (-5))
  /\ py_float "+.5" = Some (Finite (1 # 2))
  /\ py_float "7." = Some (Finite 7)
  /\ py_float "1e3" = Some (Finite 1000)
  /\ py_float "1_000" = Some (Finite 1000)
  /\ py_float "-0.0" = Some NegZero
  /\ py_float "inf" = Some (Inf false)
  /\ py_float "-Infinity" = Some (Inf true)
  /\ py_float "nan" = Some NaN
  /\ py_float "1e400" = Some (Inf false)
  /\ py_float "1e-400" = Some (Finite 0)
  /\ py_float "." = None
  /\ py_float "12a" = None
  /\ py_float "1__0" = None
  /\ py_float "1e" = None
  /\ py_float (String "028" "12") = None.
Proof. vm_compute. repeat split. Qed.

Lemma digit_of_nonneg (c : ascii) (d : Z) : digit_of c = Some d -> (0 <= d)%Z.
Proof.
  unfold digit_of. destruct (_ && _); [| discriminate].
  intros H. inversion H. lia.
Qed.

Lemma digits_nonneg (s : string) :
  forall acc n, (0 <= acc)%Z -> (0 <= fst (fst (digits acc n s)))%Z.
Proof.
  induction s as [| c s IH]; intros acc n Hacc; cbn [digits];
    [exact Hacc |].
  destruct (digit_of c) as [d |] eqn:Hd; [| exact Hacc].
  apply IH. apply digit_of_nonneg in Hd. lia.
Qed.

Lemma inject_Z_nonneg (z : Z) : (0 <= z)%Z -> (0 <= inject_Z z)%Q.
Proof. intros H. unfold Qle. simpl. lia. Qed.

Lemma decimal_nonneg (m e : Z) : (0 <= m)%Z -> (0 <= decimal m e)%Q.
Proof.
  intros H. unfold decimal. apply Qmult_le_0_compat.
  - now apply inject_Z_nonneg.
  - apply Qpower_0_le. discriminate.
Qed.

Lemma RN_nonneg (q : Q) : (0 <= q)%Q -> (0 <= RN q)%Q.
Proof. intros H. apply (RN_monotone 0 q H). Qed.

(** A result that is not negative is not delivered below zero. *)
Lemma rounded_nonneg (q : Q) :
  (0 <= q)%Q -> flt (rounded false q) (Finite 0) = false.
Proof.
  intros H. apply RN_nonneg in H. unfold rounded.
  destruct (Qeq_bool (RN q) 0); [reflexivity |].
  assert (is_negative (RN q) = false) as Hs by now apply is_negative_false.
  destruct (Qle_bool huge (Qabs (RN q))); [now rewrite Hs |].
  simpl. apply negb_false_iff. now apply Qle_bool_iff.
Qed.

Lemma lacks_skip_spaces (c : ascii) (s : string) :
  lacks c s = true -> lacks c (skip_spaces s) = true.
Proof.
  induction s as [| x s IH]; simpl; [easy |].
  intros H. apply andb_true_iff in H. destruct H as [Hx Hs].
  destruct (is_float_space x); [now apply IH |].
  simpl. now rewrite Hx, Hs.
Qed.

Lemma lacks_drop_trailing_spaces (c : ascii) (s : string) :
  lacks c s = true -> lacks c (drop_trailing_spaces s) = true.
Proof.
  induction s as [| x s IH]; simpl; [easy |].
  intros H. apply andb_true_iff in H. destruct H as [Hx Hs].
  specialize (IH Hs).
  destruct (drop_trailing_spaces s) as [| y r].
  - destruct (is_float_space x); simpl; [reflexivity | now rewrite Hx].
  - simpl in IH |- *. now rewrite Hx.
Qed.

Lemma lacks_remove_underscores (c : ascii) (s : string) :
  forall prev t,
    remove_underscores prev s = Some t ->
    lacks c s = true -> lacks c t = true.
Proof.
  induction s as [| x s IH]; intros prev t; simpl.
  - destruct (is_char "_" prev); [discriminate |].
    intros H _. now inversion H.
  - intros H Hl. apply andb_true_iff in Hl. destruct Hl as [Hx Hs].
    destruct (is_char "_" x).
    + destruct (is_digit prev); [| discriminate]. now apply (IH x).
    + destruct (is_char "_" prev && negb (is_digit x)); [discriminate |].
      destruct (remove_underscores x s) as [t' |] eqn:Ht'; [| discriminate].
      simpl in H. inversion H; subst t. simpl. rewrite Hx.
      now apply (IH x).
Qed.

Lemma read_sign_positive (s : string) :
  lacks "-" s = true -> fst (read_sign s) = false.
Proof.
  destruct s as [| c s]; simpl; [reflexivity |].
  intros H. apply andb_true_iff in H. destruct H as [Hc _].
  apply negb_true_iff in Hc. unfold is_char. rewrite Hc.
  now destruct (Ascii.eqb c "+").
Qed.

Lemma number_nonneg (s : string) (x : float) :
  number false s = Some x -> flt x (Finite 0) = false.
Proof.
  unfold number.
  pose proof (digits_nonneg s 0 0 (Z.le_refl 0)) as Hi.
  destruct (digits 0 0 s) as [[i ni] r]. simpl in Hi.
  assert (forall m nf r',
            (0 <= m)%Z ->
            (if (ni + nf =? 0)%nat then None
             else
               let '(e, r'') := read_exponent r' in
               match r'' with
               | EmptyString =>
                   Some (rounded false (decimal m (e - Z.of_nat nf)))
               | String _ _ => None
               end) = Some x ->
            flt x (Finite 0) = false) as Hend.
  { intros m nf r' Hm. destruct (ni + nf =? 0)%nat; [discriminate |].
    destruct (read_exponent r') as [e r''].
    destruct r''; [| discriminate].
    intros H. inversion H. apply rounded_nonneg. now apply decimal_nonneg. }
  destruct r as [| c f].
  - now apply Hend.
  - destruct (is_char "." c).
    + pose proof (digits_nonneg f i 0 Hi) as Hm.
      destruct (digits i 0 f) as [[m nf] r']. now apply Hend.
    + now apply Hend.
Qed.

Lemma special_nonneg (s : string) (x : float) :
  special false s = Some x -> flt x (Finite 0) = false.
Proof.
  unfold special.
  destruct (match_word "inf" s) as [r |].
  - destruct (match_word "inity" r) as [[| ? ?] |].
    + intros H. now inversion H.
    + discriminate.
    + destruct r; [| discriminate]. intros H. now inversion H.
  - destruct (match_word "nan" s) as [[| ? ?] |]; try discriminate.
    intros H. now inversion H.
Qed.

(** A total without a minus sign does not convert to a price below
    zero. *)
Lemma py_float_nonneg (s : string) (x : float) :
  lacks "-" s = true -> py_float s = Some x -> flt x (Finite 0) = false.
Proof.
  intros Hlacks. unfold py_float.
  pose proof (lacks_drop_trailing_spaces _ _ (lacks_skip_spaces _ _ Hlacks))
    as H.
  destruct (remove_underscores "000" (drop_trailing_spaces (skip_spaces s)))
    as [t |] eqn:Ht; [| discriminate].
  apply (lacks_remove_underscores "-" _ _ _ Ht) in H.
  pose proof (read_sign_positive t H) as Hsign.
  destruct (read_sign t) as [negative r]. simpl in Hsign. subst negative.
  destruct (number false r) as [y |] eqn:Hy.
  - intros Hx. inversion Hx; subst. now apply number_nonneg in Hy.
  - apply special_nonneg.
Qed.

Lemma before_first_lacks (sep : ascii) (s : string) :
  lacks sep (before_first sep s) = true.
Proof.
  induction s as [| c s IH]; simpl; [reflexivity |].
  destruct (Ascii.eqb c sep) eqn:Hc; simpl; [reflexivity |].
  now rewrite Hc, IH.
Qed.

Lemma before_first_app (sep : ascii) (a b : string) :
  lacks sep a = true -> before_first sep (a ++ String sep b) = a.
Proof.
  induction a as [| c a IH]; simpl.
  - now rewrite Ascii.eqb_refl.
  - intros H. apply andb_true_iff in H. destruct H as [Hc Ha].
    apply negb_true_iff in Hc. rewrite Hc. now rewrite IH.
Qed.

Lemma digit_is_not_T (c : ascii) :
  is_digit c = true -> Ascii.eqb c "T" = false.
Proof.
  destruct c as [[] [] [] [] [] [] [] []]; try reflexivity; discriminate.
Qed.

Lemma hyphen_is_not_T (c : ascii) :
  is_char "-" c = true -> Ascii.eqb c "T" = false.
Proof.
  unfold is_char. intros H. apply Ascii.eqb_eq in H. now subst.
Qed.

Lemma iso_date_lacks_T (d : string) :
  is_iso_date d = true -> lacks "T" d = true.
Proof.
  unfold is_iso_date.
  do 10 (destruct d as [| ? d]; [discriminate |]).
  destruct d; [| discriminate].
  intros H. repeat (apply andb_true_iff in H; destruct H as [H ?]).
  cbn [lacks].
  repeat match goal with
         | Hd : is_digit _ = true |- _ =>
             rewrite (digit_is_not_T _ Hd); clear Hd
         | Hh : is_char "-" _ = true |- _ =>
             rewrite (hyphen_is_not_T _ Hh); clear Hh
         end.
  reflexivity.
Qed.

Lemma comprehension_Forall2 (o d : string) (data : list offer) :
  forall recs,
    comprehension o d data = Some recs ->
    Forall2 (fun off r => normalize_offer o d off = Some r) data recs.
Proof.
  induction data as [| off data IH]; simpl; intros recs H.
  - assert (recs = []) as -> by congruence. constructor.
  - destruct (normalize_offer o d off) as [r |] eqn:Hr; [| discriminate].
    destruct (comprehension o d data) as [rs |]; [| discriminate].
    assert (recs = r :: rs) as -> by congruence.
    constructor; [exact Hr | now apply IH].
Qed.

Lemma process_flight_data_Forall2 (o d : string) (data : list offer)
  (recs : frame) :
  process_flight_data data o d = Some recs ->
  Forall2 (fun off r => normalize_offer o d off = Some r) data recs.
Proof.
  destruct data as [| off data]; simpl.
  - intros H. assert (recs = []) as -> by congruence. constructor.
  - apply (comprehension_Forall2 o d (off :: data)).
Qed.

Lemma comprehension_returns (o d : string) (data : list offer) :
  Forall (fun off => normalize_offer o d off <> None) data ->
  comprehension o d data <> None.
Proof.
  induction 1 as [| off data Hoff _ IH]; simpl; [discriminate |].
  destruct (normalize_offer o d off); [| contradiction].
  destruct (comprehension o d data); [discriminate | contradiction].
Qed.

Lemma well_formed_offer_normalizes (o d : string) (off : offer) :
  well_formed_offer off -> normalize_offer o d off <> None.
Proof.
  intros [Hprice [Hcodes [day [time [Hat _]]]]]. unfold normalize_offer.
  destruct (py_float (price_total off)); [| contradiction].
  destruct (validatingAirlineCodes off); [contradiction |]. simpl.
  rewrite Hat. discriminate.
Qed.

(** C5, as stated, fails: the offer with the total ["-5.00"] is well
    formed, and it is normalized without complaint into a record of
    price -5.0. *)
Lemma C5_negative_price_counterexample :
  well_formed_offer refund_offer
  /\ process_flight_data [refund_offer] "MEL" "SYD"
     = Some [mkFlight "MEL" "SYD" (Finite (-5)) "QF" "2025-01-15"]
  /\ ~ Forall record_invariant
         [mkFlight "MEL" "SYD" (Finite (-5)) "QF" "2025-01-15"].
Proof.
  split; [| split].
  - split; [vm_compute; discriminate |]. split; [discriminate |].
    exists "2025-01-15", "10:30:00". split; reflexivity.
  - vm_compute. reflexivity.
  - intros H. inversion H as [| r rs [Hprice _] _]; subst.
    vm_compute in Hprice. discriminate.
Qed.

(** C5, amended: every record [process_flight_data] returns carries the
    given origin and destination, as price the float of the offer's
    total (no sign is checked: the price is not below zero whenever the
    total holds no minus sign), the first validating airline code, and as
    departure date the part of the first segment's departure timestamp
    before its first ["T"], which holds no ["T"].  For a list of
    well-formed offers the call returns, one record per offer in order,
    and every departure date is an ISO calendar date, followed in the
    timestamp by ["T"] and the time that was cut off. *)
Theorem C5_normalized_records :
  forall (flight_data : list offer) (o d : string),
    (forall rows : frame,
       process_flight_data flight_data o d = Some rows ->
       Forall2
         (fun off r =>
            origin r = o /\ destination r = d
            /\ py_float (price_total off) = Some (price r)
            /\ (lacks "-" (price_total off) = true ->
                flt (price r) (Finite 0) = false)
            /\ nth_error (validatingAirlineCodes off) 0 = Some (airline r)
            /\ lacks "T" (departure_date r) = true
            /\ exists at_,
                 first_departure off = Some at_
                 /\ departure_date r = before_first "T" at_)
         flight_data rows)
    /\ (Forall well_formed_offer flight_data ->
        exists rows : frame,
          process_flight_data flight_data o d = Some rows
          /\ Forall2
               (fun off r =>
                  is_iso_date (departure_date r) = true
                  /\ exists time,
                       first_departure off
                       = Some (departure_date r ++ "T" ++ time))
               flight_data rows).
Proof.
  intros flight_data o d. split.
  - intros rows Hrun. apply process_flight_data_Forall2 in Hrun.
    eapply Forall2_impl; [| exact Hrun].
    intros off r Hr. unfold normalize_offer in Hr.
    destruct (py_float (price_total off)) as [p |] eqn:Hp; [| discriminate].
    destruct (nth_error (validatingAirlineCodes off) 0) as [code |] eqn:Hcode;
      [| discriminate].
    destruct (first_departure off) as [at_ |] eqn:Hat; [| discriminate].
    assert (r = mkFlight o d p code (before_first "T" at_)) as ->
      by congruence.
    cbn [origin destination price airline departure_date].
    split; [reflexivity |]. split; [reflexivity |]. split; [reflexivity |].
    split; [intros Hsign; now apply (py_float_nonneg (price_total off)) |].
    split; [reflexivity |]. split; [apply before_first_lacks |].
    exists at_. now split.
  - intros Hwf.
    assert (process_flight_data flight_data o d <> None) as Hret.
    { destruct flight_data as [| off rest]; [discriminate |].
      apply (comprehension_returns o d (off :: rest)).
      eapply Forall_impl; [| exact Hwf].
      intros a. apply well_formed_offer_normalizes. }
    destruct (process_flight_data flight_data o d) as [rows |] eqn:Hrun;
      [| contradiction].
    exists rows. split; [reflexivity |].
    apply process_flight_data_Forall2 in Hrun.
    clear Hret. induction Hrun as [| off r data rows Hr _ IH];
      [constructor |].
    inversion Hwf as [| ? ? Hoff Hrest]; subst.
    constructor; [| now apply IH].
    destruct Hoff as [_ [_ [day [time [Hat Hday]]]]].
    unfold normalize_offer in Hr.
    destruct (py_float (price_total off)) as [p |]; [| discriminate].
    destruct (nth_error (validatingAirlineCodes off) 0) as [code |];
      [| discriminate].
    rewrite Hat in Hr.
    assert (before_first "T" (day ++ "T" ++ time) = day) as Hcut
      by (apply before_first_app; now apply iso_date_lacks_T).
    rewrite Hcut in Hr.
    assert (r = mkFlight o d p code day) as -> by congruence.
    cbn [departure_date].
    split; [exact Hday |]. exists time. exact Hat.
Qed.

Lemma C5_normalized_records_witness :
  exists rows : frame,
    process_flight_data [economy_offer; refund_offer] "MEL" "SYD" = Some rows
    /\ Forall2
         (fun off r =>
            is_iso_date (departure_date r) = true
            /\ exists time,
                 first_departure off
                 = Some (departure_date r ++ "T" ++ time))
         [economy_offer; refund_offer] rows.
Proof.
  apply (C5_normalized_records [economy_offer; refund_offer] "MEL" "SYD").
  constructor; [| constructor; [| constructor]].
  - split; [vm_compute; discriminate |]. split; [discriminate |].
    exists "2025-02-01", "06:15:00". split; reflexivity.
  - split; [vm_compute; discriminate |]. split; [discriminate |].
    exists "2025-01-15", "10:30:00". split; reflexivity.
Defined.

End NormalizerFacts.

(* ================================================================== *)
(** ** The markup post-processing *)

Module MarkdownFacts.
Import PyStr Markdown.

(** *** Texts *)

Lemma append_empty_r (s : string) : s ++ "" = s.
Proof. induction s as [| c s IH]; simpl; [reflexivity | now rewrite IH]. Qed.

Lemma append_assoc (a b c : string) : (a ++ b) ++ c = a ++ (b ++ c).
Proof. induction a as [| x a IH]; simpl; [reflexivity | now rewrite IH]. Qed.

Lemma join_app (l1 l2 : list string) :
  join (app l1 l2) = join l1 ++ join l2.
Proof.
  unfold join. induction l1 as [| x l1 IH]; simpl; [reflexivity |].
  now rewrite IH, append_assoc.
Qed.

Lemma join_append_item (out : list string) (x : string) :
  join (append_item out x) = join out ++ x.
Proof.
  unfold append_item. rewrite join_app. simpl. now rewrite append_empty_r.
Qed.

Lemma ends_with_prepend (suffix p s : string) :
  ends_with suffix s -> ends_with suffix (p ++ s).
Proof.
  intros [front ->]. exists (p ++ front). now rewrite append_assoc.
Qed.

(** *** White space *)

Lemma rstrip_empty_blank (s : string) : rstrip s = "" <-> blank s = true.
Proof.
  induction s as [| c s IH]; simpl; [easy |].
  destruct (rstrip s) as [| y r].
  - destruct (is_space c); simpl.
    + destruct IH as [IH _]. now rewrite IH.
    + easy.
  - split; [discriminate |]. intros H.
    apply andb_true_iff in H. destruct H as [_ H].
    apply IH in H. discriminate.
Qed.

Lemma rstrip_cons_nonblank (c : ascii) (s : string) :
  blank s = false -> rstrip (String c s) = String c (rstrip s).
Proof.
  intros H. simpl. destruct (rstrip s) eqn:Hr; [| reflexivity].
  apply rstrip_empty_blank in Hr. congruence.
Qed.

Lemma rstrip_cons_blank (c : ascii) (s : string) :
  blank s = true ->
  rstrip (String c s) = if is_space c then "" else String c "".
Proof.
  intros H. simpl. apply rstrip_empty_blank in H. now rewrite H.
Qed.

Lemma blank_lstrip (s : string) : blank (lstrip s) = blank s.
Proof.
  induction s as [| c s IH]; simpl; [reflexivity |].
  destruct (is_space c) eqn:Hc; simpl; [exact IH | now rewrite Hc].
Qed.

Lemma blank_rstrip (s : string) : blank (rstrip s) = blank s.
Proof.
  induction s as [| c s IH]; [reflexivity |].
  destruct (blank s) eqn:Hs.
  - rewrite rstrip_cons_blank by exact Hs. simpl. rewrite Hs.
    destruct (is_space c) eqn:Hc; simpl; [reflexivity | now rewrite Hc].
  - rewrite rstrip_cons_nonblank by exact Hs. simpl. now rewrite IH, Hs.
Qed.

Lemma strip_empty_blank (s : string) : String.eqb (strip s) "" = blank s.
Proof.
  unfold strip. rewrite <- blank_lstrip.
  destruct (blank (lstrip s)) eqn:Hb.
  - apply rstrip_empty_blank in Hb. now rewrite Hb.
  - apply String.eqb_neq. intros H. apply rstrip_empty_blank in H. congruence.
Qed.

Lemma lstrip_idempotent (s : string) : lstrip (lstrip s) = lstrip s.
Proof.
  induction s as [| c s IH]; simpl; [reflexivity |].
  destruct (is_space c) eqn:Hc; [exact IH |]. simpl. now rewrite Hc.
Qed.

Lemma rstrip_idempotent (s : string) : rstrip (rstrip s) = rstrip s.
Proof.
  induction s as [| c s IH]; [reflexivity |].
  destruct (blank s) eqn:Hs.
  - rewrite rstrip_cons_blank by exact Hs.
    destruct (is_space c) eqn:Hc; [reflexivity |]. simpl. now rewrite Hc.
  - rewrite rstrip_cons_nonblank by exact Hs.
    rewrite rstrip_cons_nonblank by (now rewrite blank_rstrip).
    now rewrite IH.
Qed.

Lemma lstrip_rstrip (s : string) : lstrip (rstrip s) = rstrip (lstrip s).
Proof.
  induction s as [| c s IH]; [reflexivity |].
  destruct (is_space c) eqn:Hc.
  - cbn [lstrip]. rewrite Hc. rewrite <- IH.
    destruct (blank s) eqn:Hs.
    + rewrite rstrip_cons_blank by exact Hs. rewrite Hc.
      apply rstrip_empty_blank in Hs. now rewrite Hs.
    + rewrite rstrip_cons_nonblank by exact Hs. simpl. now rewrite Hc.
  - cbn [lstrip]. rewrite Hc.
    destruct (blank s) eqn:Hs.
    + rewrite rstrip_cons_blank by exact Hs. rewrite Hc. simpl. now rewrite Hc.
    + rewrite rstrip_cons_nonblank by exact Hs. simpl. now rewrite Hc.
Qed.

Lemma strip_lstrip (s : string) : strip (lstrip s) = strip s.
Proof. unfold strip. now rewrite lstrip_idempotent. Qed.

Lemma strip_rstrip (s : string) : strip (rstrip s) = strip s.
Proof. unfold strip. now rewrite lstrip_rstrip, rstrip_idempotent. Qed.

Lemma strip_space_cons (c : ascii) (s : string) :
  is_space c = true -> strip (String c s) = strip s.
Proof. intros Hc. unfold strip. simpl. now rewrite Hc. Qed.

(** *** The loop *)

Lemma loop_render (lines : list string) :
  forall (out : list string) (in_list : bool),
    (let '(html_output, in_list') := fold_left line_step lines (out, in_list) in
     join (if in_list' then append_item html_output "</ul>" else html_output))
    = join out ++ render in_list lines.
Proof.
  induction lines as [| l lines IH]; intros out in_list.
  - simpl. destruct in_list.
    + apply join_append_item.
    + now rewrite append_empty_r.
  - cbn [fold_left render]. unfold line_step at 2.
    destruct (String.eqb (strip l) ""); [apply IH |].
    destruct (is_list_item (strip l)); rewrite IH;
      destruct in_list; rewrite !join_append_item, ?append_assoc; reflexivity.
Qed.

Lemma markdown_to_html_render (text : string) :
  markdown_to_html text = render false (split_lines (strip (bold text))).
Proof.
  unfold markdown_to_html.
  pose proof (loop_render (split_lines (strip (bold text))) [] false) as H.
  destruct (fold_left line_step _ _) as [html_output in_list].
  exact H.
Qed.

Lemma render_blank_lines (lines : list string) (in_list : bool) :
  last_nonblank lines = None ->
  render in_list lines = if in_list then "</ul>" else "".
Proof.
  induction lines as [| l lines IH]; simpl; [reflexivity |].
  destruct (last_nonblank lines); [discriminate |].
  rewrite strip_empty_blank.
  destruct (blank l); [intros _; now apply IH | discriminate].
Qed.

(** A list left open by the last non-blank line is closed. *)
Lemma render_closes (lines : list string) :
  ends_in_item lines = true ->
  forall in_list, ends_with "</ul>" (render in_list lines).
Proof.
  unfold ends_in_item.
  induction lines as [| l lines IH]; [discriminate |].
  cbn [last_nonblank render].
  intros Hitem in_list. rewrite strip_empty_blank.
  destruct (last_nonblank lines) as [x |] eqn:Hlast.
  - destruct (blank l); [now apply IH |].
    destruct (is_list_item (strip l));
      apply ends_with_prepend, ends_with_prepend; now apply IH.
  - destruct (blank l); [discriminate |]. rewrite Hitem.
    rewrite (render_blank_lines lines true Hlast).
    eexists. rewrite <- !append_assoc. reflexivity.
Qed.

(** *** Stripping the whole text, line by line *)

Lemma split_lines_cons (c : ascii) (s : string) :
  split_lines (String c s)
  = if is_newline c then "" :: split_lines s
    else String c (hd "" (split_lines s)) :: tl (split_lines s).
Proof. simpl. destruct (is_newline c); [reflexivity |]. now destruct (split_lines s). Qed.

Lemma split_lines_nonempty (s : string) : split_lines s <> [].
Proof.
  destruct s as [| c s]; [discriminate |].
  rewrite split_lines_cons. destruct (is_newline c); discriminate.
Qed.

Lemma split_lines_hd_tl (s : string) :
  split_lines s = hd "" (split_lines s) :: tl (split_lines s).
Proof.
  pose proof (split_lines_nonempty s). now destruct (split_lines s).
Qed.

Lemma newline_is_space (c : ascii) : is_newline c = true -> is_space c = true.
Proof.
  unfold is_newline. intros H. apply Ascii.eqb_eq in H. now subst.
Qed.

Lemma blank_split_lines (s : string) :
  forallb blank (split_lines s) = blank s.
Proof.
  induction s as [| c s IH]; [reflexivity |].
  rewrite split_lines_cons. destruct (is_newline c) eqn:Hc.
  - simpl. rewrite IH. now rewrite (newline_is_space c Hc).
  - rewrite (split_lines_hd_tl s) in IH. simpl in IH |- *.
    rewrite <- IH. now rewrite andb_assoc.
Qed.

Lemma split_lines_lstrip (s : string) :
  split_lines (lstrip s) = lstrip_lines (split_lines s).
Proof.
  induction s as [| c s IH]; [reflexivity |].
  rewrite split_lines_cons. cbn [lstrip].
  destruct (is_space c) eqn:Hsp.
  - rewrite IH. destruct (is_newline c).
    + cbn [lstrip_lines blank]. rewrite (split_lines_hd_tl s). reflexivity.
    + rewrite (split_lines_hd_tl s) at 1. cbn [lstrip_lines blank lstrip].
      now rewrite Hsp.
  - assert (is_newline c = false) as Hnl.
    { destruct (is_newline c) eqn:H; [| reflexivity].
      apply newline_is_space in H. congruence. }
    rewrite Hnl. cbn [lstrip_lines blank lstrip]. rewrite Hsp. cbn [andb].
    now rewrite split_lines_cons, Hnl.
Qed.

Lemma split_lines_rstrip (s : string) :
  split_lines (rstrip s) = rstrip_lines (split_lines s).
Proof.
  induction s as [| c s IH]; [reflexivity |].
  rewrite split_lines_cons.
  destruct (blank s) eqn:Hs.
  - rewrite rstrip_cons_blank by exact Hs.
    pose proof (blank_split_lines s) as Hall. rewrite Hs in Hall.
    rewrite (split_lines_hd_tl s) in Hall. simpl in Hall.
    apply andb_true_iff in Hall. destruct Hall as [Hhd Htl].
    destruct (is_newline c) eqn:Hnl.
    + rewrite (newline_is_space c Hnl).
      cbn [rstrip_lines]. rewrite (split_lines_hd_tl s). simpl.
      now rewrite Hhd, Htl.
    + cbn [rstrip_lines]. rewrite Htl.
      rewrite rstrip_cons_blank by exact Hhd.
      destruct (is_space c); [reflexivity |].
      simpl. now rewrite Hnl.
  - rewrite rstrip_cons_nonblank by exact Hs.
    rewrite split_lines_cons, IH.
    pose proof (blank_split_lines s) as Hall. rewrite Hs in Hall.
    rewrite (split_lines_hd_tl s) in Hall |- *.
    cbn [forallb] in Hall.
    destruct (is_newline c) eqn:Hnl.
    + cbn [rstrip_lines forallb hd tl]. now rewrite Hall.
    + cbn [rstrip_lines hd tl].
      destruct (forallb blank (tl (split_lines s))) eqn:Htl.
      * cbn [hd tl]. rewrite andb_true_r in Hall.
        now rewrite rstrip_cons_nonblank.
      * reflexivity.
Qed.

Lemma last_nonblank_all_blank (lines : list string) :
  forallb blank lines = true -> last_nonblank lines = None.
Proof.
  induction lines as [| l lines IH]; simpl; [reflexivity |].
  intros H. apply andb_true_iff in H. destruct H as [Hl Hrest].
  now rewrite IH, Hl.
Qed.

Lemma ends_in_item_cons (l : string) (lines : list string) :
  ends_in_item (l :: lines)
  = match last_nonblank lines with
    | Some x => is_list_item (strip x)
    | None => negb (blank l) && is_list_item (strip l)
    end.
Proof.
  unfold ends_in_item. simpl.
  destruct (last_nonblank lines); [reflexivity |]. now destruct (blank l).
Qed.

Lemma ends_in_item_blank_cons (l : string) (lines : list string) :
  blank l = true -> ends_in_item (l :: lines) = ends_in_item lines.
Proof.
  intros Hl. rewrite ends_in_item_cons. unfold ends_in_item.
  destruct (last_nonblank lines); [reflexivity |]. now rewrite Hl.
Qed.

Lemma ends_in_item_lstrip_lines (lines : list string) :
  ends_in_item (lstrip_lines lines) = ends_in_item lines.
Proof.
  induction lines as [| l lines IH]; [reflexivity |].
  cbn [lstrip_lines]. destruct (blank l) eqn:Hl.
  - rewrite (ends_in_item_blank_cons l lines Hl).
    destruct lines; [reflexivity | exact IH].
  - rewrite !ends_in_item_cons.
    now rewrite blank_lstrip, strip_lstrip.
Qed.

Lemma last_nonblank_rstrip_lines (lines : list string) :
  option_map strip (last_nonblank (rstrip_lines lines))
  = option_map strip (last_nonblank lines).
Proof.
  induction lines as [| l lines IH]; [reflexivity |].
  cbn [rstrip_lines]. destruct (forallb blank lines) eqn:Hall.
  - cbn [last_nonblank]. rewrite (last_nonblank_all_blank lines Hall).
    rewrite blank_rstrip. destruct (blank l); [reflexivity |].
    simpl. now rewrite strip_rstrip.
  - cbn [last_nonblank].
    destruct (last_nonblank (rstrip_lines lines)) as [x |],
      (last_nonblank lines) as [y |]; simpl in IH |- *;
      try discriminate; [exact IH | reflexivity].
Qed.

Lemma ends_in_item_option (lines : list string) :
  ends_in_item lines
  = match option_map strip (last_nonblank lines) with
    | Some line => is_list_item line
    | None => false
    end.
Proof. unfold ends_in_item. now destruct (last_nonblank lines). Qed.

Lemma ends_in_item_rstrip_lines (lines : list string) :
  ends_in_item (rstrip_lines lines) = ends_in_item lines.
Proof. now rewrite !ends_in_item_option, last_nonblank_rstrip_lines. Qed.

Lemma ends_in_item_strip (text : string) :
  ends_in_item (split_lines (strip text)) = ends_in_item (split_lines text).
Proof.
  unfold strip.
  now rewrite split_lines_rstrip, ends_in_item_rstrip_lines,
    split_lines_lstrip, ends_in_item_lstrip_lines.
Qed.

(** *** The bold substitution *)

Lemma after_stars_shape (s r : string) :
  after_stars s = Some r -> s = "**" ++ r.
Proof.
  destruct s as [| c1 [| c2 s]]; simpl; try discriminate.
  destruct (is_star c1) eqn:H1; [| discriminate].
  destruct (is_star c2) eqn:H2; [| discriminate].
  apply Ascii.eqb_eq in H1, H2. subst. simpl. congruence.
Qed.

Lemma after_stars_stars (r : string) : after_stars ("**" ++ r) = Some r.
Proof. reflexivity. Qed.

Lemma lazy_group_unfold (s : string) :
  lazy_group s
  = match after_stars s with
    | Some rest => Some ("", rest)
    | None =>
        match s with
        | "" => None
        | String c s' =>
            if is_newline c then None
            else match lazy_group s' with
                 | Some (g, rest) => Some (String c g, rest)
                 | None => None
                 end
        end
    end.
Proof. now destruct s. Qed.

Lemma lazy_group_shape (s g rest : string) :
  lazy_group s = Some (g, rest) ->
  s = g ++ "**" ++ rest /\ lacks LF g = true.
Proof.
  revert g rest. induction s as [| c s IH]; intros g rest.
  - discriminate.
  - rewrite lazy_group_unfold.
    destruct (after_stars (String c s)) as [r |] eqn:Hstars.
    + intros H. assert (g = "" /\ rest = r) as [-> ->]
        by (split; congruence).
      split; [now apply after_stars_shape | reflexivity].
    + destruct (is_newline c) eqn:Hnl; [discriminate |].
      destruct (lazy_group s) as [[g' rest'] |]; [| discriminate].
      intros H. assert (g = String c g' /\ rest = rest') as [-> ->]
        by (split; congruence).
      destruct (IH g' rest' eq_refl) as [-> Hg]. split; [reflexivity |].
      simpl. unfold is_newline in Hnl. now rewrite Hnl, Hg.
Qed.

Lemma append_length (a b : string) :
  String.length (a ++ b) = (String.length a + String.length b)%nat.
Proof. induction a as [| c a IH]; simpl; [reflexivity | now rewrite IH]. Qed.

Lemma match_bold_shape (s g rest : string) :
  match_bold s = Some (g, rest) ->
  s = "**" ++ g ++ "**" ++ rest /\ lacks LF g = true.
Proof.
  unfold match_bold. destruct (after_stars s) as [r |] eqn:Hs; [| discriminate].
  intros H. apply lazy_group_shape in H. destruct H as [-> Hg].
  split; [now apply after_stars_shape | exact Hg].
Qed.

Lemma match_bold_shorter (s g rest : string) :
  match_bold s = Some (g, rest) -> (String.length rest < String.length s)%nat.
Proof.
  intros H. apply match_bold_shape in H. destruct H as [-> _].
  rewrite !append_length. simpl. lia.
Qed.

(** Any fuel from the length of the text on gives the same result. *)
Lemma re_sub_bold_fuel (n : nat) :
  forall (m : nat) (s : string),
    (String.length s <= n)%nat -> (String.length s <= m)%nat ->
    re_sub_bold n s = re_sub_bold m s.
Proof.
  induction n as [| n IH]; intros m s Hn Hm.
  - destruct s; [| simpl in Hn; lia]. now destruct m.
  - destruct m as [| m]; [destruct s; [reflexivity | simpl in Hm; lia] |].
    destruct s as [| c s]; [reflexivity |].
    cbn [re_sub_bold]. simpl in Hn, Hm.
    destruct (match_bold (String c s)) as [[g rest] |] eqn:Hmatch.
    + apply match_bold_shorter in Hmatch. simpl in Hmatch.
      rewrite (IH m rest) by lia. reflexivity.
    + rewrite (IH m s) by lia. reflexivity.
Qed.

Lemma bold_cons (c : ascii) (s : string) :
  bold (String c s)
  = match match_bold (String c s) with
    | Some (g, rest) => "<strong>" ++ g ++ "</strong>" ++ bold rest
    | None => String c (bold s)
    end.
Proof.
  unfold bold. cbn [String.length re_sub_bold].
  destruct (match_bold (String c s)) as [[g rest] |] eqn:Hmatch.
  - apply match_bold_shorter in Hmatch. simpl in Hmatch.
    rewrite (re_sub_bold_fuel (String.length s) (String.length rest) rest)
      by lia.
    reflexivity.
  - reflexivity.
Qed.

Lemma string_length_ind (P : string -> Prop) :
  (forall s, (forall t, (String.length t < String.length s)%nat -> P t) -> P s) ->
  forall s, P s.
Proof.
  intros Hstep s.
  assert (forall n t, (String.length t < n)%nat -> P t) as H.
  { induction n as [| n IH]; intros t Ht; [lia |].
    apply Hstep. intros u Hu. apply IH. lia. }
  apply (H (S (String.length s))). lia.
Qed.

Lemma star_is_not_space (c : ascii) : is_star c = true -> is_space c = false.
Proof. unfold is_star. intros H. apply Ascii.eqb_eq in H. now subst. Qed.

Lemma match_bold_not_star (c : ascii) (s : string) :
  is_star c = false -> match_bold (String c s) = None.
Proof.
  intros Hc. unfold match_bold. destruct s as [| c2 s]; simpl; [reflexivity |].
  now rewrite Hc.
Qed.

Lemma match_bold_second_not_star (c c2 : ascii) (s : string) :
  is_star c2 = false -> match_bold (String c (String c2 s)) = None.
Proof.
  intros Hc. unfold match_bold. simpl. now rewrite Hc, andb_false_r.
Qed.

Lemma space_is_not_star (c : ascii) : is_space c = true -> is_star c = false.
Proof.
  intros Hc. destruct (is_star c) eqn:Hs; [| reflexivity].
  apply star_is_not_space in Hs. congruence.
Qed.

Lemma bold_space_cons (c : ascii) (s : string) :
  is_space c = true -> bold (String c s) = String c (bold s).
Proof.
  intros Hc. rewrite bold_cons.
  now rewrite (match_bold_not_star c s (space_is_not_star c Hc)).
Qed.

(** The substitution keeps blank lines blank and the others not blank. *)
Lemma blank_bold : forall s, blank (bold s) = blank s.
Proof.
  apply string_length_ind. intros [| c s] IH; [reflexivity |].
  rewrite bold_cons.
  destruct (match_bold (String c s)) as [[g rest] |] eqn:Hmatch.
  - apply match_bold_shape in Hmatch. destruct Hmatch as [Hs _].
    rewrite Hs. reflexivity.
  - simpl. rewrite IH by (simpl; lia). reflexivity.
Qed.

Lemma lstrip_bold (s : string) : lstrip (bold s) = bold (lstrip s).
Proof.
  induction s as [| c s IH]; [reflexivity |].
  destruct (is_space c) eqn:Hc.
  - rewrite bold_space_cons by exact Hc. simpl. now rewrite Hc.
  - cbn [lstrip]. rewrite Hc. rewrite bold_cons.
    destruct (match_bold (String c s)) as [[g rest] |]; [reflexivity |].
    simpl. now rewrite Hc.
Qed.

Lemma is_list_item_iff (s : string) :
  is_list_item s = true
  <-> exists m r,
        s = String m (String " " r) /\ (m = "*"%char \/ m = "-"%char).
Proof.
  unfold is_list_item. split.
  - destruct s as [| m [| sp r]]; cbn [startswith];
      rewrite ?andb_false_r; try discriminate.
    rewrite !andb_true_r.
    destruct (Ascii.eqb_spec " " sp) as [<- | _];
      [| rewrite !andb_false_r; discriminate].
    rewrite !andb_true_r.
    destruct (Ascii.eqb_spec "*" m) as [<- | _]; [eauto |].
    destruct (Ascii.eqb_spec "-" m) as [<- | _]; [eauto | discriminate].
  - intros [m [r [-> [-> | ->]]]]; reflexivity.
Qed.

(** A line that strips to a list item is a marker, a space and a text
    that is not blank. *)
Lemma list_item_shape (t : string) :
  is_list_item (rstrip t) = true ->
  exists m y,
    t = String m (String " " y)
    /\ (m = "*"%char \/ m = "-"%char) /\ blank y = false.
Proof.
  intros H. apply is_list_item_iff in H.
  destruct H as [m [r [Hshape Hm]]].
  destruct t as [| m' t]; [discriminate |].
  destruct (blank t) eqn:Ht.
  - rewrite rstrip_cons_blank in Hshape by exact Ht.
    destruct (is_space m'); discriminate.
  - rewrite rstrip_cons_nonblank in Hshape by exact Ht.
    destruct t as [| sp y]; [discriminate |].
    destruct (blank y) eqn:Hy.
    + rewrite rstrip_cons_blank in Hshape by exact Hy.
      destruct (is_space sp) eqn:Hsp; [discriminate |].
      assert (sp = " "%char) as -> by congruence. discriminate.
    + rewrite rstrip_cons_nonblank in Hshape by exact Hy.
      exists m, y.
      assert (m' = m /\ sp = " "%char) as [-> ->] by (split; congruence).
      auto.
Qed.

Lemma list_item_bold (s : string) :
  is_list_item (strip s) = true -> is_list_item (strip (bold s)) = true.
Proof.
  unfold strip. rewrite lstrip_bold.
  intros H. apply list_item_shape in H.
  destruct H as [m [y [-> [Hm Hy]]]].
  assert (bold (String m (String " " y)) = String m (String " " (bold y)))
    as ->.
  { rewrite bold_cons, match_bold_second_not_star by reflexivity.
    now rewrite bold_space_cons. }
  assert (blank (bold y) = false) as Hb by now rewrite blank_bold.
  rewrite rstrip_cons_nonblank by (simpl; now rewrite Hb).
  rewrite rstrip_cons_nonblank by exact Hb.
  destruct Hm as [-> | ->]; reflexivity.
Qed.

(** *** The substitution works line by line *)

Lemma lacks_app (c : ascii) (a b : string) :
  lacks c (a ++ b) = lacks c a && lacks c b.
Proof.
  induction a as [| x a IH]; simpl; [reflexivity |].
  now rewrite IH, andb_assoc.
Qed.

Lemma split_lines_app_line (p s : string) :
  lacks LF p = true ->
  split_lines (p ++ s)
  = (p ++ hd "" (split_lines s)) :: tl (split_lines s).
Proof.
  induction p as [| c p IH]; intros Hp.
  - apply split_lines_hd_tl.
  - simpl in Hp. apply andb_true_iff in Hp. destruct Hp as [Hc Hp].
    apply negb_true_iff in Hc.
    change (String c p ++ s) with (String c (p ++ s)).
    rewrite split_lines_cons. unfold is_newline. rewrite Hc.
    now rewrite IH.
Qed.

Lemma after_stars_head (c : ascii) (g a b : string) :
  after_stars (String c (g ++ "**" ++ a)) = None ->
  after_stars (String c (g ++ "**" ++ b)) = None.
Proof.
  destruct g as [| x g]; simpl; now destruct (is_star c && _).
Qed.

(** The lazy group does not depend on what follows the closing stars. *)
Lemma lazy_group_extend (s g rest : string) :
  lazy_group s = Some (g, rest) ->
  forall x, lazy_group (g ++ "**" ++ x) = Some (g, x).
Proof.
  revert g rest. induction s as [| c s IH]; intros g rest; [discriminate |].
  rewrite lazy_group_unfold.
  destruct (after_stars (String c s)) as [r |] eqn:Hstars.
  - intros H x. assert (g = "") as -> by congruence. reflexivity.
  - destruct (is_newline c) eqn:Hnl; [discriminate |].
    destruct (lazy_group s) as [[g' rest'] |] eqn:Hs; [| discriminate].
    intros H x. assert (g = String c g' /\ rest = rest') as [-> ->]
      by (split; congruence).
    apply lazy_group_shape in Hs. destruct Hs as [-> _].
    change (String c g' ++ "**" ++ x) with (String c (g' ++ "**" ++ x)).
    rewrite lazy_group_unfold.
    rewrite (after_stars_head c g' rest' x Hstars), Hnl.
    now rewrite (IH g' rest' eq_refl x).
Qed.

Lemma first_line_cons (c : ascii) (s : string) :
  hd "" (split_lines (String c s))
  = if is_newline c then "" else String c (hd "" (split_lines s)).
Proof. rewrite split_lines_cons. now destruct (is_newline c). Qed.

Lemma star_is_not_newline (c : ascii) : is_star c = true -> is_newline c = false.
Proof. unfold is_star. intros H. apply Ascii.eqb_eq in H. now subst. Qed.

Lemma after_stars_first_line (s : string) :
  after_stars (hd "" (split_lines s))
  = option_map (fun r => hd "" (split_lines r)) (after_stars s).
Proof.
  destruct s as [| c1 s]; [reflexivity |].
  rewrite first_line_cons.
  destruct s as [| c2 s].
  - simpl. now destruct (is_newline c1).
  - rewrite first_line_cons. cbn [after_stars].
    destruct (is_star c1) eqn:H1; cbn [andb].
    + rewrite (star_is_not_newline c1 H1).
      destruct (is_star c2) eqn:H2.
      * rewrite (star_is_not_newline c2 H2). simpl. now rewrite H1, H2.
      * destruct (is_newline c2); simpl; [reflexivity |].
        now rewrite H1, H2.
    + destruct (is_newline c1); [reflexivity |].
      destruct (is_newline c2); simpl; [reflexivity |]. now rewrite H1.
Qed.

Lemma lazy_group_first_line (s : string) :
  lazy_group s = None -> lazy_group (hd "" (split_lines s)) = None.
Proof.
  induction s as [| c s IH]; [reflexivity |].
  rewrite lazy_group_unfold.
  destruct (after_stars (String c s)) as [r |] eqn:Hstars; [discriminate |].
  intros H.
  rewrite lazy_group_unfold, after_stars_first_line, Hstars. cbn [option_map].
  rewrite first_line_cons.
  destruct (is_newline c) eqn:Hnl; [reflexivity |]. rewrite Hnl.
  destruct (lazy_group s) as [[g rest] |]; [discriminate |].
  now rewrite IH.
Qed.

Lemma match_bold_first_line (s : string) :
  match_bold s = None -> match_bold (hd "" (split_lines s)) = None.
Proof.
  unfold match_bold. rewrite after_stars_first_line.
  destruct (after_stars s) as [r |]; [| reflexivity].
  apply lazy_group_first_line.
Qed.

Lemma match_bold_extend (s g rest : string) :
  match_bold s = Some (g, rest) ->
  forall x, match_bold ("**" ++ g ++ "**" ++ x) = Some (g, x).
Proof.
  unfold match_bold at 1.
  destruct (after_stars s) as [r |]; [| discriminate].
  intros H x. unfold match_bold. rewrite after_stars_stars.
  now apply (lazy_group_extend r g rest).
Qed.

Lemma split_lines_bold : forall s, split_lines (bold s) = map bold (split_lines s).
Proof.
  apply string_length_ind. intros [| c s] IH; [reflexivity |].
  rewrite bold_cons.
  destruct (match_bold (String c s)) as [[g rest] |] eqn:Hmatch.
  - pose proof (match_bold_shorter _ _ _ Hmatch) as Hlen.
    pose proof (match_bold_extend _ _ _ Hmatch) as Hextend.
    destruct (match_bold_shape _ _ _ Hmatch) as [Hs Hg].
    rewrite Hs.
    replace ("<strong>" ++ g ++ "</strong>" ++ bold rest)
      with (("<strong>" ++ g ++ "</strong>") ++ bold rest)
      by (now rewrite !append_assoc).
    replace ("**" ++ g ++ "**" ++ rest) with (("**" ++ g ++ "**") ++ rest)
      by (now rewrite !append_assoc).
    rewrite !split_lines_app_line
      by (rewrite !lacks_app, Hg; reflexivity).
    rewrite IH by exact Hlen.
    pose proof (split_lines_nonempty rest) as Hne.
    destruct (split_lines rest) as [| h t]; [contradiction |].
    cbn [map hd tl]. f_equal.
    replace (("**" ++ g ++ "**") ++ h) with ("**" ++ g ++ "**" ++ h)
      by (now rewrite !append_assoc).
    change ("**" ++ g ++ "**" ++ h)
      with (String "*" (String "*" (g ++ "**" ++ h))).
    rewrite bold_cons.
    change (String "*" (String "*" (g ++ "**" ++ h)))
      with ("**" ++ g ++ "**" ++ h).
    rewrite Hextend. now rewrite !append_assoc.
  - change (String c (bold s)) with (String c "" ++ bold s).
    rewrite !split_lines_cons.
    destruct (is_newline c) eqn:Hnl.
    + cbn [append]. rewrite split_lines_cons, Hnl.
      rewrite IH by (simpl; lia). reflexivity.
    + cbn [append]. rewrite split_lines_cons, Hnl.
      rewrite IH by (simpl; lia).
      pose proof (match_bold_first_line _ Hmatch) as Hline.
      rewrite first_line_cons, Hnl in Hline.
      pose proof (split_lines_nonempty s) as Hne.
      destruct (split_lines s) as [| h t]; [contradiction |].
      cbn [map hd tl] in Hline |- *.
      now rewrite bold_cons, Hline.
Qed.

Lemma last_nonblank_map_bold (lines : list string) :
  last_nonblank (map bold lines) = option_map bold (last_nonblank lines).
Proof.
  induction lines as [| l lines IH]; [reflexivity |].
  cbn [map last_nonblank]. rewrite IH, blank_bold.
  destruct (last_nonblank lines); [reflexivity |]. now destruct (blank l).
Qed.

Lemma ends_in_item_bold (text : string) :
  ends_in_item (split_lines text) = true ->
  ends_in_item (split_lines (bold text)) = true.
Proof.
  rewrite split_lines_bold. unfold ends_in_item.
  rewrite last_nonblank_map_bold.
  destruct (last_nonblank (split_lines text)) as [l |]; [| discriminate].
  apply list_item_bold.
Qed.

(** An input whose last non-blank line is a list item comes out with the
    list closed. *)
Lemma unterminated_list_closed (text l : string) :
  last_nonblank_line text = Some l ->
  is_list_item (strip l) = true ->
  ends_with "</ul>" (markdown_to_html text).
Proof.
  intros Hlast Hitem.
  rewrite markdown_to_html_render. apply render_closes.
  rewrite ends_in_item_strip. apply ends_in_item_bold.
  unfold ends_in_item. unfold last_nonblank_line in Hlast.
  now rewrite Hlast.
Qed.

(** C4: [markdown_to_html] maps ["**Save** now"] to
    ["<p><strong>Save</strong> now</p>"] and the three lines ["* A"],
    ["* B"], ["C"] to ["<ul><li>A</li><li>B</li></ul><p>C</p>"]; and for
    every input whose last non-blank line is a list item (once stripped,
    it starts with ["* "] or ["- "]), the output ends with ["</ul>"]. *)
Theorem C4_markup_examples_and_closing :
  markdown_to_html "**Save** now" = "<p><strong>Save</strong> now</p>"
  /\ markdown_to_html ("* A" ++ LFs ++ "* B" ++ LFs ++ "C")
     = "<ul><li>A</li><li>B</li></ul><p>C</p>"
  /\ (forall text l : string,
        last_nonblank_line text = Some l ->
        is_list_item (strip l) = true ->
        ends_with "</ul>" (markdown_to_html text)).
Proof.
  split; [reflexivity |]. split; [reflexivity |].
  exact unterminated_list_closed.
Qed.

Lemma C4_markup_examples_and_closing_witness :
  markdown_to_html ("Deals:" ++ LFs ++ "- **Perth** is cheap" ++ LFs ++ "  ")
  = "<p>Deals:</p><ul><li><strong>Perth</strong> is cheap</li></ul>"
  /\ ends_with "</ul>"
       (markdown_to_html
          ("Deals:" ++ LFs ++ "- **Perth** is cheap" ++ LFs ++ "  ")).
Proof.
  split; [reflexivity |].
  apply (proj2 (proj2 C4_markup_examples_and_closing)
           ("Deals:" ++ LFs ++ "- **Perth** is cheap" ++ LFs ++ "  ")
           "- **Perth** is cheap").
  - reflexivity.
  - reflexivity.
Defined.

End MarkdownFacts.
(* ================================================================== *)
(** ** More on the two routes *)

Module RouteExtras.
Import Float Frame Normalizer Net App InsightFacts RouteFacts FloatFacts FrameFacts.

Lemma token_exchange_run (w : world) :
  get_amadeus_access_token w [] = (Some (token_of w), [TokenExchange]).
Proof.
  unfold get_amadeus_access_token, token_of, bind, call, ask, ret.
  cbn [List.length app]. now destruct (oauth_reply w 0).
Qed.

Lemma truthy_token (w : world) :
  truthy (token_of w) = true ->
  exists tok, token_of w = Some tok /\ oauth_reply w 0 = Body (Some tok)
              /\ tok <> "".
Proof.
  unfold token_of. destruct (oauth_reply w 0) as [| [tok |]]; try discriminate.
  simpl. intros H. exists tok. repeat split.
  apply negb_true_iff, String.eqb_neq in H. exact H.
Qed.

Lemma if_ret {A : Type} (b : bool) (x y : A) (w : world) (log : list event) :
  (if b then ret x else ret y) w log = (Some (if b then x else y), log).
Proof. now destruct b. Qed.

(** Each turn of the trend loop makes exactly one search. *)
Lemma trend_loop_log (tok o d : string) (w : world) :
  forall days df log df' log',
    for_each days (trend_step tok o d) df w log = (Some df', log') ->
    log' = app log (searches (fun i => FlightSearch tok o d (date_after w i)) days).
Proof.
  induction days as [| i days IH]; intros df log df' log' Hrun; simpl in *.
  - unfold ret in Hrun. inversion Hrun. now rewrite app_nil_r.
  - unfold bind at 1 in Hrun.
    destruct (trend_step tok o d df i w log) as [[df1 |] log1] eqn:Hstep;
      [| discriminate].
    apply IH in Hrun. subst log'.
    unfold trend_step, search_flight_deals, bind, call, ask, lift, ret in Hstep.
    destruct (data_of _) as [| x xs].
    + inversion Hstep; subst. now rewrite <- app_assoc.
    + destruct (process_flight_data _ _ _) as [df2 |]; [| discriminate].
      destruct (empty df2);
        [inversion Hstep; subst; now rewrite <- app_assoc |].
      destruct (cheapest_per_date df2) as [min_price_df |]; [| discriminate].
      inversion Hstep; subst. now rewrite <- app_assoc.
Qed.

(** The three ways [api_price_trend] can return once both parameters are
    there. *)
Lemma api_price_trend_outcome (X Y : string) (w : world) (r : response)
  (log : list event) :
  X <> "" -> Y <> "" ->
  run (api_price_trend (Some X) (Some Y)) w = (Some r, log) ->
  (truthy (token_of w) = false /\ r = auth_error_json /\ log = [TokenExchange])
  \/ exists tok df,
       oauth_reply w 0 = Body (Some tok) /\ tok <> ""
       /\ fetch_trend tok X Y w [TokenExchange] = (Some df, log)
       /\ log = TokenExchange :: trend_searches w tok X Y
       /\ r = if empty df
              then JsonResponse
                     (JObject [("labels", JArray []); ("data", JArray []);
                               ("chart_title",
                                JString ("No Trend Data for " ++ X ++ " to "
                                         ++ Y))])
                     200
              else JsonResponse
                     (JObject
                        [("labels",
                          JArray (map JString (index_of (trend_aggregation df))));
                         ("data",
                          JArray (map JNumber (values_of (trend_aggregation df))));
                         ("chart_title",
                          JString ("Daily Price Trend: "
                                   ++ fmt (dict_get CITIES X) ++ " to "
                                   ++ fmt (dict_get CITIES Y)))])
                     200.
Proof.
  intros HX HY. apply String.eqb_neq in HX, HY.
  unfold run, api_price_trend. cbn [truthy]. rewrite HX, HY. cbn [negb orb fmt].
  unfold bind at 1. rewrite token_exchange_run.
  destruct (truthy (token_of w)) eqn:Htok; cbn [negb].
  - destruct (truthy_token w Htok) as [tok [Heq [Hreply Hne]]].
    rewrite Heq. cbn [fmt]. unfold bind at 1.
    destruct (fetch_trend tok X Y w [TokenExchange]) as [[df |] log1] eqn:Hfetch;
      [| discriminate].
    pose proof Hfetch as Hlog. unfold fetch_trend in Hlog.
    apply trend_loop_log in Hlog. subst log1.
    rewrite if_ret. intros H. right. exists tok, df.
    split; [exact Hreply |]. split; [exact Hne |].
    assert (log = app [TokenExchange]
                    (searches (fun i => FlightSearch tok X Y (date_after w i))
                       (seq 1 30))) as -> by congruence.
    split; [exact Hfetch |]. split; [reflexivity | congruence].
  - unfold ret. intros H. left. split; [reflexivity |].
    split; unfold auth_error_json; congruence.
Qed.

Lemma first_origin (dest : string) :
  hd_error (origin_cities_for dest) = Some (trend_origin_for dest).
Proof.
  unfold origin_cities_for, trend_origin_for, city_codes. cbn [map fst CITIES].
  cbn [filter]. rewrite (String.eqb_sym dest "SYD").
  destruct (String.eqb_spec "SYD" dest) as [<- | _]; reflexivity.
Qed.

Lemma trend_origin_truthy (dest : string) :
  truthy (Some (trend_origin_for dest)) = true.
Proof. unfold trend_origin_for. now destruct (String.eqb dest "SYD"). Qed.

(** What a run of [index] that obtained a token has done and returns. *)
Lemma index_page (form : option string) (w : world) (r : response)
  (log : list event) :
  run (index form) w = (Some r, log) ->
  truthy (token_of w) = true ->
  let dest := destination_of form in
  exists tok routes_df trend_df gen summary,
    token_of w = Some tok
    /\ for_each (origin_cities_for dest)
         (snapshot_step tok dest (date_after w 1)) [] w [TokenExchange]
       = (Some routes_df, TokenExchange :: snapshot_searches w tok dest)
    /\ fetch_trend tok (trend_origin_for dest) dest w
         (TokenExchange :: snapshot_searches w tok dest)
       = (Some trend_df,
          TokenExchange
            :: app (snapshot_searches w tok dest)
                 (trend_searches w tok (trend_origin_for dest) dest))
    /\ (if empty routes_df
        then summary = no_data_summary /\ gen = []
        else get_ai_insights (route_aggregation (quicksort w) routes_df) w
               (TokenExchange
                  :: app (snapshot_searches w tok dest)
                       (trend_searches w tok (trend_origin_for dest) dest))
             = (Some summary,
                app (TokenExchange
                       :: app (snapshot_searches w tok dest)
                            (trend_searches w tok (trend_origin_for dest) dest))
                    gen))
    /\ log = TokenExchange
               :: app (snapshot_searches w tok dest)
                    (app (trend_searches w tok (trend_origin_for dest) dest) gen)
    /\ r = Rendered
             (mkPage CITIES dest (fst (trend_chart_for dest trend_df))
                (routes_chart_for w dest routes_df) summary
                (snd (trend_chart_for dest trend_df))).
Proof.
  intros Hrun Htok dest.
  destruct (truthy_token w Htok) as [tok [Heq [_ _]]].
  unfold run, index in Hrun. fold (destination_of form) in Hrun. fold dest in Hrun.
  unfold bind at 1 in Hrun. rewrite token_exchange_run, Htok, Heq in Hrun.
  cbn [negb fmt] in Hrun.
  unfold bind at 1, ask in Hrun. unfold bind at 1 in Hrun.
  rewrite first_origin, trend_origin_truthy in Hrun. cbn [fmt] in Hrun.
  destruct (for_each (origin_cities_for dest) _ _ _ _)
    as [[routes_df |] log1] eqn:Hsnap; [| discriminate].
  pose proof (snapshot_loop_log _ _ _ _ _ _ _ _ _ Hsnap) as Hlog1.
  cbn [app] in Hlog1. subst log1.
  unfold bind at 1 in Hrun.
  fold (snapshot_searches w tok dest) in Hrun, Hsnap.
  destruct (fetch_trend tok (trend_origin_for dest) dest w _)
    as [[trend_df |] log2] eqn:Htrend; [| discriminate].
  pose proof Htrend as Hlog2. unfold fetch_trend in Hlog2.
  apply trend_loop_log in Hlog2.
  fold (trend_searches w tok (trend_origin_for dest) dest) in Hlog2.
  cbn [app] in Hlog2. subst log2.
  exists tok, routes_df, trend_df.
  unfold routes_chart_for, trend_chart_for.
  destruct (empty routes_df) eqn:Hempty.
  - exists [], no_data_summary.
    split; [exact Heq |]. split; [exact Hsnap |]. split; [exact Htrend |].
    split; [now split |].
    destruct (empty trend_df); unfold bind, ret in Hrun;
      (split; [rewrite app_nil_r; congruence |]);
      unfold no_data_summary; cbn [fst snd] in *; congruence.
  - set (L := TokenExchange
                :: app (snapshot_searches w tok dest)
                     (trend_searches w tok (trend_origin_for dest) dest))
      in *.
    destruct (get_ai_insights_returns w (route_aggregation (quicksort w) routes_df) L)
      as [html [log3 Hai]].
    destruct (grows_get_ai_insights (route_aggregation (quicksort w) routes_df) w L)
      as [gen Hgen].
    rewrite Hai in Hgen. cbn [snd] in Hgen. subst log3.
    exists gen, html.
    split; [exact Heq |]. split; [exact Hsnap |]. split; [exact Htrend |].
    split; [exact Hai |].
    destruct (empty trend_df); unfold bind at 1 in Hrun;
      unfold bind at 1 in Hrun; rewrite Hai in Hrun; unfold ret in Hrun;
      (split; [subst L; cbn [app] in Hrun |- *;
               rewrite <- app_assoc in Hrun; congruence |]);
      cbn [fst snd] in *; congruence.
Qed.

(** *** Rows gathered by the loops *)

Lemma normalized_rows (o d : string) (data : list offer) (rows : frame) :
  process_flight_data data o d = Some rows ->
  Forall (fun r => origin r = o /\ destination r = d) rows.
Proof.
  intros H. apply NormalizerFacts.process_flight_data_Forall2 in H.
  induction H as [| off r data rows Hr _ IH]; constructor; [| exact IH].
  unfold normalize_offer in Hr.
  destruct (py_float _) as [p |]; [| discriminate].
  destruct (nth_error _ _) as [code |]; [| discriminate].
  destruct (first_departure _) as [at_ |]; [| discriminate].
  assert (r = mkFlight o d p code (PyStr.before_first "T" at_)) as ->
    by congruence.
  now split.
Qed.

Lemma snapshot_loop_rows (tok dest dt : string) (w : world)
  (all : list string) :
  forall origins df log df' log',
    for_each origins (snapshot_step tok dest dt) df w log = (Some df', log') ->
    incl origins all ->
    Forall (fun r => In (origin r) all /\ destination r = dest) df ->
    Forall (fun r => In (origin r) all /\ destination r = dest) df'.
Proof.
  induction origins as [| o origins IH]; intros df log df' log' Hrun Hincl Hdf;
    simpl in Hrun.
  - unfold ret in Hrun. congruence.
  - unfold bind at 1 in Hrun.
    destruct (snapshot_step tok dest dt df o w log) as [[df1 |] log1] eqn:Hstep;
      [| discriminate].
    apply IH in Hrun; [exact Hrun | intros x Hx; apply Hincl; now right |].
    unfold snapshot_step, search_flight_deals, bind, call, ask, lift, ret in Hstep.
    destruct (process_flight_data _ _ _) as [df2 |] eqn:Hp; [| discriminate].
    apply normalized_rows in Hp.
    destruct (empty df2); [congruence |].
    assert (df1 = concat df df2) as -> by congruence.
    unfold concat. apply Forall_app. split; [exact Hdf |].
    eapply Forall_impl; [| exact Hp].
    intros r [-> ->]. split; [apply Hincl; now left | reflexivity].
Qed.

(** *** The on-demand trend endpoint *)

(** X1: when both parameters are there but the token exchange fails (an
    exception, no token in the body, or an empty token),
    [api_price_trend] answers status 500 with an [error] member after
    that single call; no search is made. *)
Theorem X1_api_token_failure :
  forall (origin destination : option string) (w : world),
    truthy origin = true -> truthy destination = true ->
    truthy (token_of w) = false ->
    run (api_price_trend origin destination) w
    = (Some (JsonResponse
               (JObject [("error",
                          JString "Could not authenticate with Amadeus API")])
               500),
       [TokenExchange]).
Proof.
  intros origin destination w Ho Hd Htok.
  unfold run, api_price_trend. rewrite Ho, Hd. cbn [negb orb].
  unfold bind at 1. rewrite token_exchange_run, Htok. reflexivity.
Qed.

Lemma X1_api_token_failure_witness :
  run (api_price_trend (Some "MEL") (Some "SYD")) (silent_world None)
  = (Some (JsonResponse
             (JObject [("error",
                        JString "Could not authenticate with Amadeus API")])
             500),
     [TokenExchange]).
Proof.
  apply (X1_api_token_failure (Some "MEL") (Some "SYD") (silent_world None));
    reflexivity.
Defined.

(** X2: the calls of [api_price_trend] do not depend on what the searches
    return: a run that returns with status 200 has made one token
    exchange and then exactly 30 searches for the requested pair, for the
    days 1 to 30 in order, all with the token obtained; no other call,
    and in particular no text generation. *)
Theorem X2_api_calls :
  forall (X Y : string) (w : world) (r : response) (log : list event),
    X <> "" -> Y <> "" ->
    run (api_price_trend (Some X) (Some Y)) w = (Some r, log) ->
    status_of r = 200%Z ->
    exists tok,
      token_of w = Some tok
      /\ log = TokenExchange
                 :: map (fun i => FlightSearch tok X Y (date_after w i))
                      (seq 1 30)
      /\ List.length log = 31%nat.
Proof.
  intros X Y w r log HX HY Hrun Hstatus.
  destruct (api_price_trend_outcome X Y w r log HX HY Hrun)
    as [[_ [-> _]] | [tok [df [Hreply [_ [_ [Hlog _]]]]]]];
    [discriminate |].
  exists tok. split; [unfold token_of; now rewrite Hreply |].
  split; [exact Hlog |]. rewrite Hlog. reflexivity.
Qed.

Lemma X2_api_calls_witness :
  exists tok,
    token_of steady_market = Some tok
    /\ TokenExchange
         :: map (fun i => FlightSearch "tok" "MEL" "SYD" "2025-02-01") (seq 1 30)
       = TokenExchange
           :: map (fun i => FlightSearch tok "MEL" "SYD"
                              (date_after steady_market i))
                (seq 1 30)
    /\ List.length
         (TokenExchange
            :: map (fun i => FlightSearch "tok" "MEL" "SYD" "2025-02-01")
                 (seq 1 30))
       = 31%nat.
Proof.
  apply (X2_api_calls "MEL" "SYD" steady_market
           (JsonResponse
              (JObject
                 [("labels", JArray [JString "2025-02-01"]);
                  ("data", JArray [JNumber (literal 12345 100)]);
                  ("chart_title",
                   JString "Daily Price Trend: Melbourne to Sydney")])
              200)).
  - discriminate.
  - discriminate.
  - vm_compute. reflexivity.
  - reflexivity.
Defined.

Lemma trend_aggregation_length (df : frame) :
  List.length (index_of (trend_aggregation df))
  = List.length (values_of (trend_aggregation df)).
Proof. unfold index_of, values_of. now rewrite !length_map. Qed.

Lemma trend_aggregation_nonempty (df : frame) :
  df <> [] -> index_of (trend_aggregation df) <> [].
Proof.
  destruct df as [| r df]; [congruence |]. intros _ Hnil.
  assert (In (departure_date r) (index_of (trend_aggregation (r :: df)))) as Hin.
  { rewrite trend_aggregation_index. apply group_labels_In. now left. }
  rewrite Hnil in Hin. contradiction.
Qed.

(** X3: every status-200 answer of [api_price_trend] has exactly the
    members [labels], [data] and [chart_title]; the two arrays have the
    same length, the labels are date strings in strictly ascending order,
    and the title is the "No Trend Data" one exactly when the arrays are
    empty; otherwise it names the two cities through [CITIES], a code
    that is not configured being shown as ["None"]. *)
Theorem X3_api_body :
  forall (X Y : string) (w : world) (r : response) (log : list event),
    X <> "" -> Y <> "" ->
    run (api_price_trend (Some X) (Some Y)) w = (Some r, log) ->
    status_of r = 200%Z ->
    exists (dates : list string) (values : list float),
      r = JsonResponse
            (JObject
               [("labels", JArray (map JString dates));
                ("data", JArray (map JNumber values));
                ("chart_title",
                 JString
                   (match dates with
                    | [] => "No Trend Data for " ++ X ++ " to " ++ Y
                    | _ :: _ =>
                        "Daily Price Trend: " ++ fmt (dict_get CITIES X)
                        ++ " to " ++ fmt (dict_get CITIES Y)
                    end))])
            200
      /\ List.length dates = List.length values
      /\ StronglySorted str_lt dates.
Proof.
  intros X Y w r log HX HY Hrun Hstatus.
  destruct (api_price_trend_outcome X Y w r log HX HY Hrun)
    as [[_ [-> _]] | [tok [df [_ [_ [_ [_ Hr]]]]]]];
    [discriminate |].
  destruct df as [| row df].
  - exists [], []. cbn [empty] in Hr. subst r.
    split; [reflexivity |]. split; [reflexivity | constructor].
  - cbn [empty] in Hr.
    exists (index_of (trend_aggregation (row :: df))),
      (values_of (trend_aggregation (row :: df))).
    split; [| split].
    + subst r.
      pose proof (trend_aggregation_nonempty (row :: df)) as Hne.
      destruct (index_of (trend_aggregation (row :: df)));
        [exfalso; now apply Hne | reflexivity].
    + apply trend_aggregation_length.
    + rewrite trend_aggregation_index. apply group_labels_ascending.
Qed.

Lemma X3_api_body_witness :
  exists (dates : list string) (values : list float),
    JsonResponse
      (JObject
         [("labels", JArray [JString "2025-02-01"]);
          ("data", JArray [JNumber (literal 12345 100)]);
          ("chart_title", JString "Daily Price Trend: Melbourne to None")])
      200
    = JsonResponse
        (JObject
           [("labels", JArray (map JString dates));
            ("data", JArray (map JNumber values));
            ("chart_title",
             JString
               (match dates with
                | [] => "No Trend Data for " ++ "MEL" ++ " to " ++ "XXX"
                | _ :: _ =>
                    "Daily Price Trend: " ++ fmt (dict_get CITIES "MEL")
                    ++ " to " ++ fmt (dict_get CITIES "XXX")
                end))])
        200
    /\ List.length dates = List.length values
    /\ StronglySorted str_lt dates.
Proof.
  apply (X3_api_body "MEL" "XXX" steady_market _
           (TokenExchange
              :: map (fun i => FlightSearch "tok" "MEL" "XXX" "2025-02-01")
                   (seq 1 30))).
  - discriminate.
  - discriminate.
  - vm_compute. reflexivity.
  - reflexivity.
Defined.

(** *** The page route *)

Lemma index_auth_failure (form : option string) (w : world) :
  truthy (token_of w) = false ->
  run (index form) w = (Some auth_error_page, [TokenExchange]).
Proof.
  intros Htok. unfold run, index. unfold bind at 1.
  rewrite token_exchange_run, Htok. reflexivity.
Qed.

Lemma index_rendered_token (form : option string) (w : world) (r : response)
  (log : list event) :
  run (index form) w = (Some r, log) ->
  status_of r = 200%Z ->
  truthy (token_of w) = true.
Proof.
  intros Hrun Hstatus. destruct (truthy (token_of w)) eqn:Htok; [reflexivity |].
  rewrite (index_auth_failure form w Htok) in Hrun.
  assert (r = auth_error_page) as -> by congruence. discriminate.
Qed.

(** X4: when the token exchange fails (an exception, no token in the
    body, or an empty token), [index] returns the fixed error text with
    status 500 after that single call, whatever the form holds: no search
    and no text generation is attempted. *)
Theorem X4_index_token_failure :
  forall (form : option string) (w : world),
    truthy (token_of w) = false ->
    run (index form) w
    = (Some (TextResponse
               "Error: Could not authenticate with Amadeus API. Please check your API credentials in app.py."
               500),
       [TokenExchange]).
Proof. exact index_auth_failure. Qed.

Lemma X4_index_token_failure_witness :
  run (index (Some "PER")) (silent_world (Some "key"))
  = (Some (TextResponse
             "Error: Could not authenticate with Amadeus API. Please check your API credentials in app.py."
             500),
     [TokenExchange]).
Proof.
  apply (X4_index_token_failure (Some "PER") (silent_world (Some "key"))).
  reflexivity.
Defined.

(** What [get_ai_insights] returns and logs, case by case. *)
Lemma get_ai_insights_run (w : world) (df : series) (log : list event) :
  exists html gen,
    get_ai_insights df w log = (Some html, app log gen)
    /\ ((gen = []
         /\ (key_missing (GEMINI_API_KEY w) = true \/ df = [])
         /\ html = (if key_missing (GEMINI_API_KEY w) then not_configured
                    else no_data))
        \/ (gen = [GenerateContent (prompt_head ++ to_string w df ++ prompt_tail)]
            /\ key_missing (GEMINI_API_KEY w) = false /\ df <> [])).
Proof.
  unfold get_ai_insights, bind, ask, call, ret.
  destruct (key_missing (GEMINI_API_KEY w)) eqn:Hkey.
  - exists not_configured, []. rewrite app_nil_r. split; [reflexivity |].
    left. auto.
  - destruct df as [| e df].
    + exists no_data, []. rewrite app_nil_r. split; [reflexivity |].
      left. auto.
    + destruct (generation_reply w _ _); eexists; eexists;
        (split; [reflexivity |]);
        right; (split; [reflexivity | split; [reflexivity | discriminate]]).
Qed.

(** X5: the calls of a run of [index] that renders the page are fixed by
    the destination alone: one token exchange, one snapshot search per
    configured city other than the destination (in the order of
    [CITIES], for day 1), then 30 trend searches from the first such city
    for the days 1 to 30, and at the very end at most one text-generation
    call. *)
Theorem X5_index_calls :
  forall (form : option string) (w : world) (r : response) (log : list event),
    run (index form) w = (Some r, log) ->
    status_of r = 200%Z ->
    exists tok gen,
      token_of w = Some tok
      /\ log
         = TokenExchange
             :: app (map (fun o => FlightSearch tok o (destination_of form)
                                     (date_after w 1))
                       (origin_cities_for (destination_of form)))
                  (app (map (fun i =>
                               FlightSearch tok
                                 (trend_origin_for (destination_of form))
                                 (destination_of form) (date_after w i))
                          (seq 1 30))
                     gen)
      /\ (gen = [] \/ exists prompt, gen = [GenerateContent prompt]).
Proof.
  intros form w r log Hrun Hstatus.
  pose proof (index_rendered_token form w r log Hrun Hstatus) as Htok.
  destruct (index_page form w r log Hrun Htok)
    as [tok [routes_df [trend_df [gen [summary
         [Heq [_ [_ [Hai [Hlog _]]]]]]]]]].
  exists tok, gen. split; [exact Heq |]. split; [exact Hlog |].
  destruct (empty routes_df); [left; apply Hai |].
  match type of Hai with
  | get_ai_insights ?df w ?L = _ =>
      set (L0 := L) in *;
      destruct (get_ai_insights_run w df L0) as [html [gen' [Hrun' Hcases]]]
  end.
  rewrite Hrun' in Hai.
  assert (gen' = gen) as <-.
  { assert (app L0 gen' = app L0 gen) as Happ by congruence.
    now apply app_inv_head in Happ. }
  destruct Hcases as [[-> _] | [-> _]]; [now left | right; eauto].
Qed.

Lemma X5_index_calls_witness :
  exists tok gen,
    token_of empty_market = Some tok
    /\ TokenExchange
         :: app (map (fun o => FlightSearch "tok" o "PER" "2025-01-01")
                   ["SYD"; "MEL"; "BNE"; "ADL"; "CBR"; "HBA"])
              (map (fun i => FlightSearch "tok" "SYD" "PER" "2025-01-01")
                 (seq 1 30))
       = TokenExchange
           :: app (map (fun o => FlightSearch tok o
                                   (destination_of (Some "PER"))
                                   (date_after empty_market 1))
                     (origin_cities_for (destination_of (Some "PER"))))
                (app (map (fun i =>
                             FlightSearch tok
                               (trend_origin_for (destination_of (Some "PER")))
                               (destination_of (Some "PER"))
                               (date_after empty_market i))
                        (seq 1 30))
                   gen)
    /\ (gen = [] \/ exists prompt, gen = [GenerateContent prompt]).
Proof.
  apply (X5_index_calls (Some "PER") empty_market
           (Rendered (mkPage CITIES "PER" None None no_data_summary
                        "Daily Price Trend (Next Month)"))).
  - vm_compute. reflexivity.
  - reflexivity.
Defined.

Lemma snapshot_loop_no_offers (tok dest dt : string) (w : world) :
  (forall n o, data_of (search_reply w n tok o dest dt) = []) ->
  forall origins df log,
    for_each origins (snapshot_step tok dest dt) df w log
    = (Some df, app log (searches (fun o => FlightSearch tok o dest dt) origins)).
Proof.
  intros Hnone. induction origins as [| o origins IH]; intros df log; simpl.
  - unfold ret. now rewrite app_nil_r.
  - unfold bind at 1.
    unfold snapshot_step, search_flight_deals, bind, call, ask, lift, ret.
    rewrite Hnone. cbn [process_flight_data empty].
    rewrite IH. now rewrite <- app_assoc.
Qed.

(** X6: when the token exchange succeeds and no search returns an offer
    (empty results and failed requests alike), [index] still renders the
    page: both charts are empty, the trend title is the default one, the
    summary is the fixed "No data found" text, and the text generation is
    not called. *)
Theorem X6_index_no_offers :
  forall (form : option string) (w : world) (tok : string),
    token_of w = Some tok -> tok <> "" ->
    (forall n o d dt, data_of (search_reply w n tok o d dt) = []) ->
    run (index form) w
    = (Some (Rendered
               (mkPage CITIES (destination_of form) None None
                  "No data found for the selected destination. This may be due to the route having no availability in the next month or an API error."
                  "Daily Price Trend (Next Month)")),
       TokenExchange
         :: app (snapshot_searches w tok (destination_of form))
              (trend_searches w tok (trend_origin_for (destination_of form))
                 (destination_of form))).
Proof.
  intros form w tok Heq Hne Hnone.
  unfold run, index. fold (destination_of form).
  unfold bind at 1. rewrite token_exchange_run, Heq.
  apply String.eqb_neq in Hne. cbn [truthy]. rewrite Hne. cbn [negb fmt].
  unfold bind at 1, ask. unfold bind at 1.
  rewrite snapshot_loop_no_offers by (intros; apply Hnone).
  unfold bind at 1. rewrite first_origin, trend_origin_truthy. cbn [fmt].
  unfold fetch_trend. rewrite trend_loop_no_offers by (intros; apply Hnone).
  cbn [empty]. unfold bind, ret. cbn [fst snd app].
  reflexivity.
Qed.

Lemma X6_index_no_offers_witness :
  run (index None) empty_market
  = (Some (Rendered
             (mkPage CITIES (destination_of None) None None
                "No data found for the selected destination. This may be due to the route having no availability in the next month or an API error."
                "Daily Price Trend (Next Month)")),
     TokenExchange
       :: app (snapshot_searches empty_market "tok" (destination_of None))
            (trend_searches empty_market "tok"
               (trend_origin_for (destination_of None))
               (destination_of None))).
Proof.
  apply (X6_index_no_offers None empty_market "tok").
  - reflexivity.
  - discriminate.
  - reflexivity.
Defined.

Lemma origin_cities_exclude (dest : string) :
  ~ In dest (origin_cities_for dest).
Proof.
  unfold origin_cities_for. intros H. apply filter_In in H.
  destruct H as [_ H]. now rewrite String.eqb_refl in H.
Qed.

Lemma origin_cities_configured (dest : string) :
  incl (origin_cities_for dest) city_codes.
Proof. unfold origin_cities_for. intros x Hx. now apply filter_In in Hx. Qed.

(** X7: whenever [index] renders a routes chart, its origin codes are
    configured cities other than the destination, without repetition; its
    three lists have one entry per origin code, the label of a code being
    built from the city names; and its prices are in ascending order. *)
Theorem X7_index_routes_chart :
  forall (form : option string) (w : world) (ctx : page) (log : list event)
         (chart : routes_chart),
    run (index form) w = (Some (Rendered ctx), log) ->
    popular_routes ctx = Some chart ->
    incl (origin_codes chart) city_codes
    /\ ~ In (destination_of form) (origin_codes chart)
    /\ NoDup (origin_codes chart)
    /\ route_labels chart
       = map (fun o =>
                dict_get_default CITIES o o ++ " -> "
                ++ dict_get_default CITIES (destination_of form)
                     (destination_of form))
           (origin_codes chart)
    /\ List.length (route_data chart) = List.length (origin_codes chart)
    /\ StronglySorted ascending (route_data chart).
Proof.
  intros form w ctx log chart Hrun Hchart.
  pose proof (index_rendered_token form w _ log Hrun eq_refl) as Htok.
  destruct (index_page form w _ log Hrun Htok)
    as [tok [routes_df [trend_df [gen [summary
         [_ [Hsnap [_ [_ [_ Hr]]]]]]]]]].
  assert (routes_chart_for w (destination_of form) routes_df = Some chart)
    as Hc.
  { injection Hr as Hr. rewrite Hr in Hchart. exact Hchart. }
  clear Hr Hchart. unfold routes_chart_for in Hc.
  destruct (empty routes_df); [discriminate |].
  injection Hc as <-. cbn [origin_codes route_labels route_data].
  assert (incl (index_of (route_aggregation (quicksort w) routes_df))
            (origin_cities_for (destination_of form))) as Hincl.
  { intros o Ho. apply route_aggregation_In in Ho.
    apply (snapshot_loop_rows _ _ _ _ (origin_cities_for (destination_of form)))
      in Hsnap; [| apply incl_refl | constructor].
    rewrite Forall_forall in Hsnap. apply in_map_iff in Ho.
    destruct Ho as [row [<- Hrow]]. now apply Hsnap. }
  split; [| split; [| split; [| split; [| split]]]].
  - intros o Ho. now apply (origin_cities_configured (destination_of form)), Hincl.
  - intros H. now apply (origin_cities_exclude (destination_of form)), Hincl.
  - apply route_aggregation_NoDup.
  - reflexivity.
  - unfold values_of, index_of. now rewrite !length_map.
  - unfold values_of. apply StronglySorted_map.
    exact (route_aggregation_ascending (quicksort w) routes_df).
Qed.

Lemma X7_index_routes_chart_witness :
  match run (index (Some "SYD")) steady_market with
  | (Some (Rendered ctx), _) =>
      match popular_routes ctx with
      | Some chart =>
          origin_codes chart = ["ADL"; "BNE"; "CBR"; "HBA"; "MEL"; "PER"]
          /\ incl (origin_codes chart) city_codes
          /\ ~ In "SYD" (origin_codes chart)
          /\ StronglySorted ascending (route_data chart)
      | None => False
      end
  | _ => False
  end.
Proof.
  destruct (run (index (Some "SYD")) steady_market)
    as [[[body st | body st | ctx] |] log] eqn:Hrun;
    try (vm_compute in Hrun; discriminate).
  destruct (popular_routes ctx) as [chart |] eqn:Hchart.
  - destruct (X7_index_routes_chart (Some "SYD") steady_market ctx log chart
                Hrun Hchart) as [H1 [H2 [_ [_ [_ H6]]]]].
    split; [| split; [exact H1 | split; [exact H2 | exact H6]]].
    vm_compute in Hrun. injection Hrun as <- _.
    cbn [popular_routes] in Hchart. injection Hchart as <-. reflexivity.
  - vm_compute in Hrun. injection Hrun as <- _. discriminate Hchart.
Defined.

(** X8: without a text-generation credential, a run of [index] that
    renders the page never calls the text generation, and its summary is
    the "not configured" paragraph when there is a routes chart and the
    "No data found" text when there is none. *)
Theorem X8_index_without_key :
  forall (form : option string) (w : world) (ctx : page) (log : list event),
    key_missing (GEMINI_API_KEY w) = true ->
    run (index form) w = (Some (Rendered ctx), log) ->
    ai_summary ctx
    = match popular_routes ctx with
      | Some _ => not_configured
      | None => no_data_summary
      end
    /\ (forall prompt, ~ In (GenerateContent prompt) log).
Proof.
  intros form w ctx log Hkey Hrun.
  pose proof (index_rendered_token form w _ log Hrun eq_refl) as Htok.
  destruct (index_page form w _ log Hrun Htok)
    as [tok [routes_df [trend_df [gen [summary
         [_ [_ [_ [Hai [Hlog Hr]]]]]]]]]].
  injection Hr as ->. cbn [ai_summary popular_routes].
  unfold routes_chart_for in *.
  assert (gen = [] /\ summary = if empty routes_df then no_data_summary
                                else not_configured) as [-> ->].
  { destruct (empty routes_df); [tauto |].
    rewrite (get_ai_insights_key_missing w _ _ Hkey) in Hai.
    split; [| congruence].
    match type of Hai with
    | (_, ?L) = (_, app ?L ?g) =>
        assert (app L [] = app L g) as Happ
          by (rewrite app_nil_r; congruence);
        now apply app_inv_head in Happ
    end. }
  split; [now destruct (empty routes_df) |].
  intros prompt Hin. subst log. rewrite app_nil_r in Hin.
  destruct Hin as [Hin | Hin]; [discriminate |].
  apply in_app_or in Hin.
  unfold snapshot_searches, trend_searches, searches in Hin.
  destruct Hin as [Hin | Hin]; apply in_map_iff in Hin;
    destruct Hin as [x [Hx _]]; discriminate.
Qed.

Lemma X8_index_without_key_witness :
  match run (index (Some "CBR")) keyless_market with
  | (Some (Rendered ctx), log) =>
      ai_summary ctx = not_configured
      /\ popular_routes ctx <> None
      /\ (forall prompt, ~ In (GenerateContent prompt) log)
  | _ => False
  end.
Proof.
  destruct (run (index (Some "CBR")) keyless_market)
    as [[[body st | body st | ctx] |] log] eqn:Hrun;
    try (vm_compute in Hrun; discriminate).
  destruct (X8_index_without_key (Some "CBR") keyless_market ctx log
              eq_refl Hrun) as [Hsummary Hlog].
  assert (popular_routes ctx <> None) as Hchart
    by (vm_compute in Hrun; injection Hrun as <- _; discriminate).
  split; [| split; [exact Hchart | exact Hlog]].
  destruct (popular_routes ctx); [exact Hsummary | contradiction].
Defined.

(** X9: [get_ai_insights] never raises: every exception of the generation
    call is turned into a paragraph.  It makes at most one call, the
    generation request whose prompt embeds the rendered table, and makes
    it exactly when the credential is configured and the table is not
    empty. *)
Theorem X9_insights_never_raise :
  forall (w : world) (df : series) (log : list event),
    exists html gen,
      get_ai_insights df w log = (Some html, app log gen)
      /\ (gen = [] <-> key_missing (GEMINI_API_KEY w) = true \/ df = [])
      /\ (gen = []
          \/ gen = [GenerateContent
                      (prompt_head ++ to_string w df ++ prompt_tail)]).
Proof.
  intros w df log.
  destruct (get_ai_insights_run w df log)
    as [html [gen [Hrun [[-> [Hwhy _]] | [-> [Hkey Hdf]]]]]];
    exists html; eexists; (split; [exact Hrun |]).
  - split; [tauto | now left].
  - split; [| now right].
    split; [discriminate |].
    intros [H | H]; [congruence | contradiction].
Qed.

(** X22: whenever [index] renders the page, the page carries the city
    table and the destination it was asked for.  Without trend data the
    trend title is the default one; with trend data the labels are date
    strings in strictly ascending order, one per value, and the title
    names Melbourne as origin when the destination is SYD and Sydney
    otherwise, and shows a destination that is not configured as
    ["None"]. *)
Theorem X22_index_trend_chart :
  forall (form : option string) (w : world) (ctx : page) (log : list event),
    run (index form) w = (Some (Rendered ctx), log) ->
    cities ctx = CITIES
    /\ selected_destination ctx = destination_of form
    /\ match price_trends ctx with
       | None => trend_chart_title ctx = "Daily Price Trend (Next Month)"
       | Some chart =>
           trend_labels chart <> []
           /\ StronglySorted str_lt (trend_labels chart)
           /\ List.length (trend_data chart) = List.length (trend_labels chart)
           /\ trend_chart_title ctx
              = "Daily Price Trend: "
                  ++ (if String.eqb (destination_of form) "SYD"
                      then "Melbourne" else "Sydney")
                  ++ " to " ++ fmt (dict_get CITIES (destination_of form))
       end.
Proof.
  intros form w ctx log Hrun.
  pose proof (index_rendered_token form w _ log Hrun eq_refl) as Htok.
  destruct (index_page form w _ log Hrun Htok)
    as [tok [routes_df [trend_df [gen [summary [_ [_ [_ [_ [_ Hr]]]]]]]]]].
  injection Hr as ->.
  cbn [cities selected_destination price_trends trend_chart_title].
  split; [reflexivity |]. split; [reflexivity |].
  unfold trend_chart_for. destruct trend_df as [| row trend_df]; cbn [empty fst snd].
  - reflexivity.
  - cbn [trend_labels trend_data].
    split; [apply trend_aggregation_nonempty; discriminate |].
    split; [rewrite trend_aggregation_index; apply group_labels_ascending |].
    split; [symmetry; apply trend_aggregation_length |].
    unfold trend_origin_for.
    now destruct (String.eqb (destination_of form) "SYD").
Qed.

Lemma X22_index_trend_chart_witness :
  match run (index (Some "LHR")) steady_market with
  | (Some (Rendered ctx), _) =>
      selected_destination ctx = "LHR"
      /\ trend_chart_title ctx = "Daily Price Trend: Sydney to None"
  | _ => False
  end.
Proof.
  destruct (run (index (Some "LHR")) steady_market)
    as [[[body st | body st | ctx] |] log] eqn:Hrun;
    try (vm_compute in Hrun; discriminate).
  destruct (X22_index_trend_chart (Some "LHR") steady_market ctx log Hrun)
    as [_ [Hdest Hchart]].
  split; [exact Hdest |].
  destruct (price_trends ctx) as [chart |] eqn:Hc.
  - destruct Hchart as [_ [_ [_ ->]]]. reflexivity.
  - vm_compute in Hrun. injection Hrun as <- _. discriminate Hc.
Defined.

(** *** Failed searches and empty results *)

Lemma same_search (w w' : world) (tok o d dt : string) (log : list event) :
  same_offers w w' ->
  search_flight_deals tok o d dt w log = search_flight_deals tok o d dt w' log.
Proof.
  intros [_ [_ [_ [_ [_ [_ Hdata]]]]]].
  unfold search_flight_deals, bind, call, ask, ret. now rewrite Hdata.
Qed.

Lemma same_for_each {A S : Type} (w w' : world) (body : S -> A -> M S) :
  (forall s x log, body s x w log = body s x w' log) ->
  forall xs s log, for_each xs body s w log = for_each xs body s w' log.
Proof.
  intros Hbody. induction xs as [| x xs IH]; intros s log; [reflexivity |].
  cbn [for_each]. unfold bind. rewrite Hbody.
  destruct (body s x w' log) as [[s' |] log']; [apply IH | reflexivity].
Qed.

Lemma same_trend_step (w w' : world) (tok o d : string) (df : frame) (i : nat)
  (log : list event) :
  same_offers w w' ->
  trend_step tok o d df i w log = trend_step tok o d df i w' log.
Proof.
  intros Hsame. pose proof Hsame as [_ [_ [_ [Hdate _]]]].
  unfold trend_step. unfold bind at 1 3, ask. rewrite Hdate.
  unfold bind. rewrite (same_search w w' _ _ _ _ _ Hsame).
  destruct (search_flight_deals _ _ _ _ w' log) as [[[| x xs] |] log'];
    try reflexivity.
  unfold lift. destruct (process_flight_data _ _ _) as [df' |];
    [destruct (empty df') |]; reflexivity.
Qed.

Lemma same_snapshot_step (w w' : world) (tok d dt : string) (df : frame)
  (o : string) (log : list event) :
  same_offers w w' ->
  snapshot_step tok d dt df o w log = snapshot_step tok d dt df o w' log.
Proof.
  intros Hsame. unfold snapshot_step, bind.
  rewrite (same_search w w' _ _ _ _ _ Hsame).
  destruct (search_flight_deals _ _ _ _ w' log) as [[data |] log'];
    [| reflexivity].
  unfold lift. destruct (process_flight_data _ _ _) as [df' |];
    [destruct (empty df') |]; reflexivity.
Qed.

Lemma same_fetch_trend (w w' : world) (tok o d : string) (log : list event) :
  same_offers w w' ->
  fetch_trend tok o d w log = fetch_trend tok o d w' log.
Proof.
  intros Hsame. unfold fetch_trend. apply same_for_each.
  intros. now apply same_trend_step.
Qed.

Lemma same_token (w w' : world) (log : list event) :
  same_offers w w' ->
  get_amadeus_access_token w log = get_amadeus_access_token w' log.
Proof.
  intros [_ [Hoauth _]].
  unfold get_amadeus_access_token, bind, call, ask. rewrite Hoauth.
  now destruct (oauth_reply w' _).
Qed.

Lemma same_insights (w w' : world) (df : series) (log : list event) :
  same_offers w w' ->
  get_ai_insights df w log = get_ai_insights df w' log.
Proof.
  intros [Hkey [_ [Hgen [_ [Hstr _]]]]].
  unfold get_ai_insights, bind, ask, call, ret.
  rewrite Hkey, Hstr. destruct (key_missing _); [reflexivity |].
  destruct df; [reflexivity |]. rewrite Hgen.
  now destruct (generation_reply w' _ _).
Qed.

Lemma same_route_aggregation (q q' : series -> series) (df : frame) :
  (forall s, q s = q' s) -> route_aggregation q df = route_aggregation q' df.
Proof.
  intros H. unfold route_aggregation, sort_values. now rewrite H.
Qed.

(** X23: the routes cannot tell a failed search from a search without
    offers: in two worlds that agree on everything except that a search
    may fail in one and return an empty result in the other, [index] and
    [api_price_trend] return the same response after the same calls. *)
Theorem X23_failed_search_is_empty :
  forall w w' : world,
    same_offers w w' ->
    (forall form, run (index form) w = run (index form) w')
    /\ (forall origin destination,
          run (api_price_trend origin destination) w
          = run (api_price_trend origin destination) w').
Proof.
  intros w w' Hsame.
  pose proof Hsame as [_ [_ [_ [Hdate [_ [Hsort _]]]]]]. split.
  - intros form. unfold run, index.
    unfold bind at 1 7. rewrite (same_token w w' [] Hsame).
    destruct (get_amadeus_access_token w' []) as [[token |] log0];
      [| reflexivity].
    destruct (truthy token); cbn [negb]; [| reflexivity].
    unfold bind at 1 6, ask. rewrite Hdate.
    unfold bind at 1 5.
    rewrite (same_for_each w w' _
               (fun s x l => same_snapshot_step w w' _ _ _ s x l Hsame)).
    destruct (for_each _ _ _ w' log0) as [[routes_df |] log1]; [| reflexivity].
    unfold bind at 1 4.
    assert (forall (b : bool) tok o d l,
              (if b then fetch_trend tok o d else ret []) w l
              = (if b then fetch_trend tok o d else ret []) w' l) as Htrend.
    { intros [] tok o d l; [now apply same_fetch_trend | reflexivity]. }
    rewrite Htrend.
    match goal with
    | |- (let (_, _) := ?run_trend in _) = _ =>
        destruct run_trend as [[trend_df |] log2]; [| reflexivity]
    end.
    destruct (empty trend_df); unfold bind;
      (destruct (empty routes_df); [reflexivity |]);
      rewrite (same_route_aggregation _ _ routes_df Hsort);
      rewrite (same_insights w w' _ _ Hsame);
      destruct (get_ai_insights _ w' log2) as [[html |] log3]; reflexivity.
  - intros origin destination. unfold run, api_price_trend.
    destruct (negb (truthy origin) || negb (truthy destination));
      [reflexivity |].
    unfold bind at 1 3. rewrite (same_token w w' [] Hsame).
    destruct (get_amadeus_access_token w' []) as [[token |] log0];
      [| reflexivity].
    destruct (truthy token); cbn [negb]; [| reflexivity].
    unfold bind. rewrite (same_fetch_trend w w' _ _ _ _ Hsame).
    destruct (fetch_trend _ _ _ w' log0) as [[df |] log1]; [| reflexivity].
    destruct (empty df); reflexivity.
Qed.

Lemma X23_failed_search_is_empty_witness :
  run (index (Some "SYD")) empty_market
  = run (index (Some "SYD")) failing_market.
Proof.
  assert (same_offers empty_market failing_market) as H
    by (repeat split).
  exact (proj1 (X23_failed_search_is_empty empty_market failing_market H)
           (Some "SYD")).
Defined.

End RouteExtras.
(* ================================================================== *)
(** ** More on the aggregations *)

Module FrameExtras.
Import Float Frame FloatFacts FrameFacts.

(** *** The cheapest offer of a date *)

Lemma flt_spec (x y : float) :
  flt x y = true
  <-> is_nan x = false /\ is_nan y = false /\ fle y x = false.
Proof.
  destruct x, y; unfold flt; cbn [is_nan]; rewrite ?negb_true_iff;
    intuition discriminate.
Qed.

Lemma flt_fle (x y : float) : flt x y = true -> fle x y = true.
Proof.
  intros H. apply flt_spec in H. destruct H as [Hx [Hy Hnot]].
  destruct (fle_total x y Hx Hy) as [Hle | Hle]; [exact Hle | congruence].
Qed.

Lemma not_fle_flt (x y : float) :
  is_nan x = false -> is_nan y = false -> fle x y = false -> flt y x = true.
Proof. intros Hx Hy H. apply flt_spec. auto. Qed.

Lemma fle_not_flt (x y : float) : fle x y = true -> flt y x = false.
Proof.
  intros H. destruct (flt y x) eqn:E; [| reflexivity].
  apply flt_spec in E. destruct E as [_ [_ E]]. congruence.
Qed.

Lemma nan_not_flt (x y : float) : is_nan x = true -> flt x y = false.
Proof. destruct x; try discriminate. reflexivity. Qed.

(** [first_min] returns a row with a price, the first among the cheapest
    of the rows that have one. *)
Lemma first_min_spec (rows : frame) :
  match first_min rows with
  | None => Forall (fun r => is_nan (price r) = true) rows
  | Some m =>
      is_nan (price m) = false
      /\ exists before after,
           rows = app before (m :: after)
           /\ Forall (fun r => is_nan (price r) = true
                               \/ flt (price m) (price r) = true) before
           /\ Forall (fun r => is_nan (price r) = true
                               \/ fle (price m) (price r) = true) after
  end.
Proof.
  induction rows as [| r rows IH]; [constructor |].
  cbn [first_min]. destruct (is_nan (price r)) eqn:Hr.
  - destruct (first_min rows) as [m |].
    + destruct IH as [Hm [before [after [-> [Hb Ha]]]]].
      split; [exact Hm |]. exists (r :: before), after.
      split; [reflexivity |]. split; [| exact Ha].
      constructor; [now left | exact Hb].
    + now constructor.
  - destruct (first_min rows) as [m |].
    + destruct IH as [Hm [before [after [-> [Hb Ha]]]]].
      destruct (fle (price r) (price m)) eqn:Hle.
      * split; [exact Hr |]. exists [], (app before (m :: after)).
        split; [reflexivity |]. split; [constructor |].
        apply Forall_app. split.
        -- eapply Forall_impl; [| exact Hb].
           intros x [Hx | Hx]; [now left | right].
           apply flt_fle in Hx. now apply (fle_trans _ (price m)).
        -- constructor; [now right |].
           eapply Forall_impl; [| exact Ha].
           intros x [Hx | Hx]; [now left | right].
           now apply (fle_trans _ (price m)).
      * split; [exact Hm |]. exists (r :: before), after.
        split; [reflexivity |]. split; [| exact Ha].
        constructor; [| exact Hb]. right. now apply not_fle_flt.
    + split; [exact Hr |]. exists [], rows.
      split; [reflexivity |]. split; [constructor |].
      eapply Forall_impl; [| exact IH]. intros x Hx. now left.
Qed.

Lemma group_rows_date (col : flight -> string) (df : frame) (k : string)
  (r : flight) :
  In r (group_rows col df k) <-> In r df /\ col r = k.
Proof.
  unfold group_rows. rewrite filter_In. now rewrite String.eqb_eq.
Qed.

Lemma loc_rows (labels : list (option flight)) (rows : frame) :
  loc labels = Some rows -> labels = map Some rows.
Proof.
  revert rows. induction labels as [| [r |] labels IH]; intros rows; simpl.
  - intros H. now inversion H.
  - destruct (loc labels) as [rest |]; simpl; [| discriminate].
    intros H. inversion H; subst. simpl. now rewrite (IH rest).
  - discriminate.
Qed.

Lemma loc_raises (labels : list (option flight)) :
  loc labels = None <-> In None labels.
Proof.
  induction labels as [| [r |] labels IH]; simpl.
  - split; [discriminate | contradiction].
  - destruct (loc labels) as [rest |]; simpl.
    + split; [discriminate |]. intros [H | H]; [discriminate |].
      now apply IH in H.
    + split; [intros _; right; now apply IH | reflexivity].
  - split; [now left | reflexivity].
Qed.

(** The rows [cheapest_per_date] returns, label by label. *)
Lemma cheapest_rows (df rows : frame) :
  cheapest_per_date df = Some rows ->
  Forall2 (fun k m => first_min (group_rows departure_date df k) = Some m)
    (group_labels departure_date df) rows.
Proof.
  unfold cheapest_per_date. intros H. apply loc_rows in H.
  revert rows H. induction (group_labels departure_date df) as [| k ks IH];
    intros [| m rows] H; simpl in H; try discriminate; constructor.
  - now inversion H.
  - apply IH. now inversion H.
Qed.

Lemma first_min_In (rows : frame) (m : flight) :
  first_min rows = Some m -> In m rows.
Proof.
  intros H. pose proof (first_min_spec rows) as Hspec. rewrite H in Hspec.
  destruct Hspec as [_ [before [after [-> _]]]].
  apply in_or_app. right. now left.
Qed.

Lemma cheapest_dates (df rows : frame) :
  cheapest_per_date df = Some rows ->
  map departure_date rows = group_labels departure_date df.
Proof.
  intros H. apply cheapest_rows in H.
  induction H as [| k m ks rows Hm _ IH]; [reflexivity |].
  simpl. rewrite IH. f_equal.
  apply first_min_In, group_rows_date in Hm. now destruct Hm.
Qed.

(** X13: the reduction of one day's offers to the cheapest per departure
    date raises exactly when some date comes with NaN prices only.
    Otherwise it keeps exactly one row per date of the input, in
    ascending date order; every kept row is a row of the input with a
    price, no row of the same date is cheaper, and among equally cheap
    rows the first one is kept. *)
Theorem X13_cheapest_per_date :
  forall df : frame,
    (cheapest_per_date df = None
     <-> exists d, In d (map departure_date df)
                   /\ forall r, In r df -> departure_date r = d ->
                        is_nan (price r) = true)
    /\ forall rows : frame,
         cheapest_per_date df = Some rows ->
         map departure_date rows = group_labels departure_date df
         /\ StronglySorted str_lt (map departure_date rows)
         /\ (forall d, In d (map departure_date rows)
                       <-> In d (map departure_date df))
         /\ (forall m, In m rows ->
               In m df
               /\ is_nan (price m) = false
               /\ (forall r, In r df -> departure_date r = departure_date m ->
                     flt (price r) (price m) = false)
               /\ exists before after,
                    group_rows departure_date df (departure_date m)
                    = app before (m :: after)
                    /\ Forall (fun r => is_nan (price r) = true
                                        \/ flt (price m) (price r) = true)
                         before).
Proof.
  intros df. split.
  - unfold cheapest_per_date. rewrite loc_raises, in_map_iff. split.
    + intros [d [Hmin Hd]].
      exists d. split; [now apply group_labels_In |].
      intros r Hr Hdate.
      pose proof (first_min_spec (group_rows departure_date df d)) as Hspec.
      rewrite Hmin in Hspec. rewrite Forall_forall in Hspec.
      apply Hspec. now apply group_rows_date.
    + intros [d [Hd Hnan]]. exists d.
      split; [| now apply group_labels_In].
      pose proof (first_min_spec (group_rows departure_date df d)) as Hspec.
      destruct (first_min (group_rows departure_date df d)) as [m |];
        [| reflexivity].
      destruct Hspec as [Hm [before [after [Hrows _]]]].
      assert (In m (group_rows departure_date df d)) as Hin
        by (rewrite Hrows; apply in_or_app; right; now left).
      apply group_rows_date in Hin. destruct Hin as [Hin Hdate].
      rewrite (Hnan m Hin Hdate) in Hm. discriminate.
  - intros rows Hrows.
    pose proof (cheapest_dates df rows Hrows) as Hdates.
    split; [exact Hdates |]. rewrite Hdates.
    split; [apply group_labels_ascending |].
    split; [intros d; apply group_labels_In |].
    intros m Hm. apply cheapest_rows in Hrows.
    assert (exists k, first_min (group_rows departure_date df k) = Some m)
      as [k Hk].
    { clear Hdates. induction Hrows as [| k m' ks rows Hm' _ IH];
        [contradiction |].
      destruct Hm as [<- | Hm]; [now exists k | now apply IH]. }
    pose proof (first_min_spec (group_rows departure_date df k)) as Hspec.
    rewrite Hk in Hspec.
    destruct Hspec as [Hprice [before [after [Hgroup [Hb Ha]]]]].
    assert (In m (group_rows departure_date df k)) as Hin
      by (rewrite Hgroup; apply in_or_app; right; now left).
    apply group_rows_date in Hin. destruct Hin as [Hin Hdate]. subst k.
    split; [exact Hin |]. split; [exact Hprice |]. split.
    + intros r Hr Hsame.
      assert (In r (group_rows departure_date df (departure_date m))) as Hr'
        by (now apply group_rows_date).
      rewrite Hgroup in Hr'. apply in_app_or in Hr'.
      rewrite Forall_forall in Hb, Ha.
      assert (is_nan (price r) = true \/ fle (price m) (price r) = true)
        as [Hnan | Hle].
      { destruct Hr' as [Hr' | [<- | Hr']].
        - destruct (Hb r Hr') as [H | H]; [now left | right; now apply flt_fle].
        - right. now apply fle_refl.
        - now apply Ha. }
      * now apply nan_not_flt.
      * now apply fle_not_flt.
    + now exists before, after.
Qed.

Lemma X13_cheapest_per_date_witness :
  cheapest_per_date
    [mkFlight "MEL" "SYD" (Finite 120) "QF" "2025-03-02";
     mkFlight "MEL" "SYD" NaN "TT" "2025-03-01";
     mkFlight "MEL" "SYD" (Finite 100) "VA" "2025-03-01";
     mkFlight "MEL" "SYD" (Finite 100) "JQ" "2025-03-01"]
  = Some [mkFlight "MEL" "SYD" (Finite 100) "VA" "2025-03-01";
          mkFlight "MEL" "SYD" (Finite 120) "QF" "2025-03-02"]
  /\ map departure_date
       [mkFlight "MEL" "SYD" (Finite 100) "VA" "2025-03-01";
        mkFlight "MEL" "SYD" (Finite 120) "QF" "2025-03-02"]
     = ["2025-03-01"; "2025-03-02"].
Proof.
  assert (cheapest_per_date
            [mkFlight "MEL" "SYD" (Finite 120) "QF" "2025-03-02";
             mkFlight "MEL" "SYD" NaN "TT" "2025-03-01";
             mkFlight "MEL" "SYD" (Finite 100) "VA" "2025-03-01";
             mkFlight "MEL" "SYD" (Finite 100) "JQ" "2025-03-01"]
          = Some [mkFlight "MEL" "SYD" (Finite 100) "VA" "2025-03-01";
                  mkFlight "MEL" "SYD" (Finite 120) "QF" "2025-03-02"]) as H
    by (vm_compute; reflexivity).
  split; [exact H |].
  exact (proj1 (proj2 (X13_cheapest_per_date _) _ H)).
Defined.

End FrameExtras.

(* ================================================================== *)
(** ** More on the offer normalizer *)

Module NormalizerExtras.
Import PyStr Float Frame Normalizer NormalizerFacts.

Lemma normalize_offer_succeeds (o d : string) (off : offer) :
  normalize_offer o d off <> None
  <-> py_float (price_total off) <> None
      /\ validatingAirlineCodes off <> []
      /\ exists it rest, itineraries off = it :: rest /\ segments it <> [].
Proof.
  unfold normalize_offer, first_departure.
  destruct (py_float (price_total off)) as [p |]; [| split; [congruence | tauto]].
  destruct (validatingAirlineCodes off) as [| code codes];
    cbn [nth_error]; [split; [congruence | tauto] |].
  destruct (itineraries off) as [| it rest]; cbn [nth_error].
  - split; [congruence |]. intros [_ [_ [it [rest [H _]]]]]. discriminate.
  - destruct (segments it) as [| sg sgs] eqn:Hsg; cbn [nth_error].
    + split; [congruence |].
      intros [_ [_ [it' [rest' [H Hne]]]]].
      assert (it' = it) as -> by congruence. congruence.
    + split; [| discriminate]. intros _.
      split; [discriminate |]. split; [discriminate |].
      exists it, rest. split; [reflexivity | congruence].
Qed.

Lemma comprehension_succeeds (o d : string) (data : list offer) :
  (exists rows, comprehension o d data = Some rows
                /\ List.length rows = List.length data)
  <-> Forall (fun off => normalize_offer o d off <> None) data.
Proof.
  induction data as [| off data IH]; cbn [comprehension].
  - split; [constructor | intros _; now exists []].
  - split.
    + intros [rows [Hrun _]].
      destruct (normalize_offer o d off) as [r |] eqn:Hr; [| discriminate].
      destruct (comprehension o d data) as [rs |] eqn:Hrs; [| discriminate].
      constructor; [now rewrite Hr |].
      apply IH. exists rs. split; [reflexivity |].
      apply comprehension_Forall2 in Hrs.
      symmetry. exact (Forall2_length Hrs).
    + intros H. inversion H as [| ? ? Hoff Hdata]; subst.
      apply IH in Hdata. destruct Hdata as [rs [-> Hlen]].
      destruct (normalize_offer o d off) as [r |]; [| congruence].
      exists (r :: rs). split; [reflexivity | simpl; now rewrite Hlen].
Qed.

(** X15: [process_flight_data] is all or nothing.  It returns, with one
    record per offer, exactly when every offer of the list has a total
    that [float()] accepts, at least one validating airline code and a
    first itinerary
    with at least one segment; a single offer that lacks one of these
    makes the whole call raise, wherever it stands in the list and
    whatever origin and destination are passed. *)
Theorem X15_normalizer_all_or_nothing :
  forall (data : list offer) (o d : string),
    (exists rows, process_flight_data data o d = Some rows
                  /\ List.length rows = List.length data)
    <-> Forall
          (fun off =>
             py_float (price_total off) <> None
             /\ validatingAirlineCodes off <> []
             /\ exists it rest,
                  itineraries off = it :: rest /\ segments it <> [])
          data.
Proof.
  intros data o d.
  assert (process_flight_data data o d = comprehension o d data) as ->
    by now destruct data.
  rewrite comprehension_succeeds. split; intros H;
    (eapply Forall_impl; [| exact H]); intros off;
    apply normalize_offer_succeeds.
Qed.

(** X24: the normalizer hands the total to [float()] and checks nothing
    about the result: totals written with an exponent or with digit
    separators are read, and the totals ["inf"] and ["nan"] become the
    prices infinity and NaN. *)
Theorem X24_unchecked_totals :
  let unusual (total : string) : offer :=
    mkOffer total ["QF"] [mkItinerary [mkSegment "2025-01-15T10:30:00"]] in
  process_flight_data
    [unusual "1e3"; unusual "1_000"; unusual " 99 "; unusual "inf";
     unusual "nan"]
    "MEL" "SYD"
  = Some [mkFlight "MEL" "SYD" (Finite 1000) "QF" "2025-01-15";
          mkFlight "MEL" "SYD" (Finite 1000) "QF" "2025-01-15";
          mkFlight "MEL" "SYD" (Finite 99) "QF" "2025-01-15";
          mkFlight "MEL" "SYD" (Inf false) "QF" "2025-01-15";
          mkFlight "MEL" "SYD" NaN "QF" "2025-01-15"].
Proof. vm_compute. reflexivity. Qed.

Lemma before_first_split (sep : ascii) (s : string) :
  exists rest,
    s = before_first sep s ++ rest
    /\ (rest = "" \/ exists tail, rest = String sep tail).
Proof.
  induction s as [| c s IH]; cbn [before_first].
  - exists "". split; [reflexivity | now left].
  - destruct (Ascii.eqb_spec c sep) as [-> | _].
    + exists (String sep s). split; [reflexivity | right; now exists s].
    + destruct IH as [rest [Hs Hrest]]. exists rest.
      split; [simpl; now rewrite <- Hs | exact Hrest].
Qed.

Lemma before_first_lacking (sep : ascii) (s : string) :
  lacks sep s = true -> before_first sep s = s.
Proof.
  induction s as [| c s IH]; cbn [before_first lacks]; [reflexivity |].
  intros H. apply andb_true_iff in H. destruct H as [Hc Hs].
  apply negb_true_iff in Hc. rewrite Hc. now rewrite IH.
Qed.

(** X16: the departure date of a record and the discarded rest split the
    first segment's timestamp at its first ["T"]: the departure date
    holds no ["T"], and the timestamp is the date followed by nothing or
    by ["T"] and more.  A timestamp without any ["T"] is therefore kept
    whole as the departure date, unchecked. *)
Theorem X16_timestamp_split :
  forall (data : list offer) (o d : string) (rows : frame),
    process_flight_data data o d = Some rows ->
    Forall2
      (fun off r =>
         exists at_ rest,
           first_departure off = Some at_
           /\ lacks "T" (departure_date r) = true
           /\ at_ = departure_date r ++ rest
           /\ (rest = "" \/ exists time, rest = String "T" time)
           /\ (lacks "T" at_ = true -> departure_date r = at_))
      data rows.
Proof.
  intros data o d rows Hrun.
  apply process_flight_data_Forall2 in Hrun.
  eapply Forall2_impl; [| exact Hrun].
  intros off r Hr. unfold normalize_offer in Hr.
  destruct (py_float (price_total off)) as [p |]; [| discriminate].
  destruct (nth_error (validatingAirlineCodes off) 0) as [code |];
    [| discriminate].
  destruct (first_departure off) as [at_ |]; [| discriminate].
  assert (r = mkFlight o d p code (before_first "T" at_)) as -> by congruence.
  cbn [departure_date].
  destruct (before_first_split "T" at_) as [rest [Hsplit Hrest]].
  exists at_, rest. split; [reflexivity |].
  split; [apply before_first_lacks |]. split; [exact Hsplit |].
  split; [exact Hrest | apply before_first_lacking].
Qed.

Lemma X16_timestamp_split_witness :
  Forall2
    (fun off r =>
       exists at_ rest,
         first_departure off = Some at_
         /\ lacks "T" (departure_date r) = true
         /\ at_ = departure_date r ++ rest
         /\ (rest = "" \/ exists time, rest = String "T" time)
         /\ (lacks "T" at_ = true -> departure_date r = at_))
    [mkOffer "80" ["JQ"] [mkItinerary [mkSegment "tomorrow 9am"]];
     mkOffer "95.5" ["QF"] [mkItinerary [mkSegment "2025-02-01T06:15:00"]]]
    [mkFlight "MEL" "SYD" (Finite 80) "JQ" "tomorrow 9am";
     mkFlight "MEL" "SYD" (Finite (191 # 2)) "QF" "2025-02-01"].
Proof.
  apply (X16_timestamp_split
           [mkOffer "80" ["JQ"] [mkItinerary [mkSegment "tomorrow 9am"]];
            mkOffer "95.5" ["QF"]
              [mkItinerary [mkSegment "2025-02-01T06:15:00"]]]
           "MEL" "SYD").
  vm_compute. reflexivity.
Defined.

End NormalizerExtras.
(* ================================================================== *)
(** ** More on the markup post-processing *)

Module MarkdownExtras.
Import PyStr Markdown MarkdownFacts.

Lemma lacks_lstrip (c : ascii) (s : string) :
  lacks c s = true -> lacks c (lstrip s) = true.
Proof.
  induction s as [| x s IH]; simpl; [easy |].
  intros H. apply andb_true_iff in H. destruct H as [Hx Hs].
  destruct (is_space x); [now apply IH |].
  simpl. now rewrite Hx, Hs.
Qed.

Lemma lacks_rstrip (c : ascii) (s : string) :
  lacks c s = true -> lacks c (rstrip s) = true.
Proof.
  induction s as [| x s IH]; simpl; [easy |].
  intros H. apply andb_true_iff in H. destruct H as [Hx Hs].
  specialize (IH Hs).
  destruct (rstrip s) as [| y r].
  - destruct (is_space x); simpl; [reflexivity | now rewrite Hx].
  - simpl in IH |- *. now rewrite Hx.
Qed.

Lemma markdown_to_html_pieces (text : string) :
  markdown_to_html text = join (html_pieces text).
Proof.
  unfold markdown_to_html, html_pieces.
  now destruct (fold_left line_step _ _).
Qed.

Lemma nesting_app (l1 l2 : list string) :
  forall b,
    nesting b (app l1 l2)
    = match nesting b l1 with
      | Some b' => nesting b' l2
      | None => None
      end.
Proof.
  induction l1 as [| p l1 IH]; intros b; [reflexivity |].
  cbn [app nesting].
  destruct (String.eqb p "<ul>"); [destruct b; [reflexivity | apply IH] |].
  destruct (String.eqb p "</ul>"); [destruct b; [apply IH | reflexivity] |].
  destruct (startswith "<li>" p); [destruct b; [apply IH | reflexivity] |].
  destruct (startswith "<p>" p); [destruct b; [reflexivity | apply IH] |].
  reflexivity.
Qed.

Lemma loop_nesting (lines : list string) :
  forall out in_list,
    nesting false out = Some in_list ->
    nesting false (fst (fold_left line_step lines (out, in_list)))
    = Some (snd (fold_left line_step lines (out, in_list))).
Proof.
  induction lines as [| l lines IH]; intros out in_list Hout; [exact Hout |].
  cbn [fold_left]. unfold line_step at 2 4.
  destruct (String.eqb (strip l) ""); [now apply IH |].
  destruct (is_list_item (strip l)); apply IH; unfold append_item;
    destruct in_list; rewrite ?nesting_app, Hout; reflexivity.
Qed.

(** X17: the pieces [markdown_to_html] joins are well nested: read from
    the left, a ["<ul>"] comes only when no list is open, a ["</ul>"]
    only when one is open, every ["<li>...</li>"] stands inside a list and
    every ["<p>...</p>"] outside, and no list is left open at the end. *)
Theorem X17_pieces_well_nested :
  forall text : string,
    markdown_to_html text = join (html_pieces text)
    /\ nesting false (html_pieces text) = Some false.
Proof.
  intros text. split; [apply markdown_to_html_pieces |].
  unfold html_pieces.
  pose proof (loop_nesting (split_lines (strip (bold text))) [] false eq_refl)
    as H.
  destruct (fold_left line_step _ _) as [out in_list]. cbn [fst snd] in H.
  destruct in_list; [| exact H].
  unfold append_item. now rewrite nesting_app, H.
Qed.

(** X18: the bold substitution works on each line separately: it never
    pairs a ["**"] with one on another line, so the lines of the
    substituted text are the substituted lines of the text; and it leaves
    blank lines blank and the other lines not blank. *)
Theorem X18_bold_line_by_line :
  forall text : string,
    split_lines (bold text) = map bold (split_lines text)
    /\ blank (bold text) = blank text.
Proof.
  intros text. split; [apply split_lines_bold | apply blank_bold].
Qed.

(** *** No line feed in the output *)

Lemma split_lines_lack_LF (s : string) :
  Forall (fun l => lacks LF l = true) (split_lines s).
Proof.
  induction s as [| c s IH]; [repeat constructor |].
  rewrite split_lines_cons. destruct (is_newline c) eqn:Hnl.
  - now constructor.
  - rewrite (split_lines_hd_tl s) in IH. inversion IH as [| ? ? Hh Ht]; subst.
    constructor; [| exact Ht].
    cbn [lacks]. unfold is_newline in Hnl. now rewrite Hnl, Hh.
Qed.

Lemma lacks_slice_from (c : ascii) (n : nat) :
  forall s, lacks c s = true -> lacks c (slice_from n s) = true.
Proof.
  induction n as [| n IH]; intros [| x s] H; try exact H.
  cbn [slice_from]. apply IH. simpl in H.
  apply andb_true_iff in H. tauto.
Qed.

Lemma lacks_strip (c : ascii) (s : string) :
  lacks c s = true -> lacks c (strip s) = true.
Proof.
  intros H. unfold strip.
  now apply lacks_rstrip, lacks_lstrip.
Qed.

Lemma render_lacks_LF (lines : list string) :
  Forall (fun l => lacks LF l = true) lines ->
  forall in_list, lacks LF (render in_list lines) = true.
Proof.
  induction 1 as [| l lines Hl _ IH]; intros in_list.
  - now destruct in_list.
  - cbn [render]. destruct (String.eqb (strip l) ""); [apply IH |].
    pose proof (lacks_strip LF l Hl) as Hs.
    destruct (is_list_item (strip l)); destruct in_list;
      rewrite !lacks_app, ?IH, ?Hs, ?(lacks_slice_from LF 2 _ Hs); reflexivity.
Qed.

(** X19: the output of [markdown_to_html] never contains a line feed,
    whatever the input: the lines are joined without a separator. *)
Theorem X19_output_single_line :
  forall text : string, lacks LF (markdown_to_html text) = true.
Proof.
  intros text. rewrite markdown_to_html_render.
  apply render_lacks_LF, split_lines_lack_LF.
Qed.

(** *** Blank lines and surrounding white space *)

Lemma render_lstrip_lines (lines : list string) :
  forall in_list, render in_list (lstrip_lines lines) = render in_list lines.
Proof.
  induction lines as [| l lines IH]; intros in_list; [reflexivity |].
  cbn [lstrip_lines]. destruct (blank l) eqn:Hl.
  - cbn [render]. rewrite (strip_empty_blank l), Hl.
    destruct lines; [reflexivity | apply IH].
  - cbn [render]. now rewrite strip_lstrip.
Qed.

Lemma render_all_blank (lines : list string) (in_list : bool) :
  forallb blank lines = true -> render in_list lines = render in_list [].
Proof.
  intros H. apply render_blank_lines. now apply last_nonblank_all_blank.
Qed.

Lemma render_rstrip_lines (lines : list string) :
  forall in_list, render in_list (rstrip_lines lines) = render in_list lines.
Proof.
  induction lines as [| l lines IH]; intros in_list; [reflexivity |].
  cbn [rstrip_lines]. destruct (forallb blank lines) eqn:Hall.
  - cbn [render]. rewrite strip_rstrip.
    now rewrite !(render_all_blank lines _ Hall).
  - cbn [render]. now rewrite !IH.
Qed.

Lemma markdown_to_html_lines (text : string) :
  markdown_to_html text = render false (map bold (split_lines text)).
Proof.
  rewrite markdown_to_html_render. unfold strip.
  rewrite split_lines_rstrip, render_rstrip_lines.
  rewrite split_lines_lstrip, render_lstrip_lines.
  now rewrite split_lines_bold.
Qed.

(** X20: a text that holds white space only (or nothing) gives the empty
    output. *)
Theorem X20_blank_input :
  forall text : string, blank text = true -> markdown_to_html text = "".
Proof.
  intros text Hblank. rewrite markdown_to_html_lines.
  rewrite (render_all_blank _ false); [reflexivity |].
  rewrite <- split_lines_bold, blank_split_lines. now rewrite blank_bold.
Qed.

Lemma X20_blank_input_witness :
  markdown_to_html ("  " ++ LFs ++ String "009" "" ++ LFs) = "".
Proof.
  apply (X20_blank_input ("  " ++ LFs ++ String "009" "" ++ LFs)).
  reflexivity.
Defined.

Lemma rstrip_prefix (s : string) : exists ws, s = rstrip s ++ ws.
Proof.
  induction s as [| c s IH]; [now exists "" |].
  destruct (blank s) eqn:Hs.
  - rewrite rstrip_cons_blank by exact Hs.
    destruct (is_space c); [now exists (String c s) | now exists s].
  - rewrite rstrip_cons_nonblank by exact Hs.
    destruct IH as [ws Hws]. exists ws. simpl. now rewrite <- Hws.
Qed.

Lemma match_bold_rstrip (s : string) :
  match_bold s = None -> match_bold (rstrip s) = None.
Proof.
  intros Hnone.
  destruct (match_bold (rstrip s)) as [[g rest] |] eqn:Hmatch; [| reflexivity].
  exfalso. destruct (rstrip_prefix s) as [ws Hws].
  pose proof (match_bold_extend _ _ _ Hmatch (rest ++ ws)) as Hext.
  apply match_bold_shape in Hmatch. destruct Hmatch as [Hshape _].
  rewrite Hshape in Hws.
  replace (("**" ++ g ++ "**" ++ rest) ++ ws)
    with ("**" ++ g ++ "**" ++ rest ++ ws) in Hws
    by (now rewrite !append_assoc).
  rewrite <- Hws in Hext. congruence.
Qed.

Lemma blank_app (a b : string) : blank (a ++ b) = blank a && blank b.
Proof.
  induction a as [| c a IH]; simpl; [reflexivity |].
  now rewrite IH, andb_assoc.
Qed.

Lemma rstrip_app_solid (p x : string) :
  rstrip p = p -> rstrip (p ++ x) = p ++ rstrip x.
Proof.
  induction p as [| c p IH]; intros Hp; [reflexivity |].
  change (String c p ++ x) with (String c (p ++ x)).
  destruct (blank p) eqn:Hb.
  - rewrite rstrip_cons_blank in Hp by exact Hb.
    destruct (is_space c) eqn:Hc; [discriminate |].
    assert (p = "") as -> by congruence. cbn [append].
    destruct (blank x) eqn:Hx.
    + rewrite rstrip_cons_blank by exact Hx. rewrite Hc.
      apply rstrip_empty_blank in Hx. now rewrite Hx.
    + now rewrite rstrip_cons_nonblank.
  - rewrite rstrip_cons_nonblank in Hp by exact Hb.
    rewrite rstrip_cons_nonblank by (rewrite blank_app, Hb; reflexivity).
    rewrite IH by congruence. reflexivity.
Qed.

Lemma rstrip_tagged (a g b x : string) :
  rstrip b = b -> b <> "" -> rstrip ((a ++ g ++ b) ++ x) = (a ++ g ++ b) ++ rstrip x.
Proof.
  intros Hb Hne. apply rstrip_app_solid.
  rewrite <- append_assoc.
  destruct (blank b) eqn:Hblank.
  - apply rstrip_empty_blank in Hblank. congruence.
  - clear Hne. induction (a ++ g) as [| c s IH]; [exact Hb |].
    change (String c s ++ b) with (String c (s ++ b)).
    rewrite rstrip_cons_nonblank by (rewrite blank_app, Hblank; apply andb_false_r).
    now rewrite IH.
Qed.

(** The substitution commutes with stripping. *)
Lemma rstrip_bold : forall s, rstrip (bold s) = bold (rstrip s).
Proof.
  apply string_length_ind. intros [| c s] IH; [reflexivity |].
  rewrite bold_cons.
  destruct (match_bold (String c s)) as [[g rest] |] eqn:Hmatch.
  - pose proof (match_bold_shorter _ _ _ Hmatch) as Hlen.
    pose proof (match_bold_extend _ _ _ Hmatch (rstrip rest)) as Hext.
    destruct (match_bold_shape _ _ _ Hmatch) as [Hs _]. rewrite Hs.
    replace ("<strong>" ++ g ++ "</strong>" ++ bold rest)
      with (("<strong>" ++ g ++ "</strong>") ++ bold rest)
      by (now rewrite !append_assoc).
    replace ("**" ++ g ++ "**" ++ rest) with (("**" ++ g ++ "**") ++ rest)
      by (now rewrite !append_assoc).
    rewrite !rstrip_tagged by (reflexivity || discriminate).
    rewrite IH by exact Hlen.
    replace (("**" ++ g ++ "**") ++ rstrip rest)
      with (String "*" (String "*" (g ++ "**" ++ rstrip rest)))
      by (now rewrite !append_assoc).
    rewrite bold_cons.
    change (String "*" (String "*" (g ++ "**" ++ rstrip rest)))
      with ("**" ++ g ++ "**" ++ rstrip rest).
    rewrite Hext. now rewrite !append_assoc.
  - destruct (blank s) eqn:Hs.
    + rewrite rstrip_cons_blank by (now rewrite blank_bold).
      rewrite rstrip_cons_blank by exact Hs.
      destruct (is_space c) eqn:Hc; [reflexivity |].
      rewrite bold_cons.
      assert (match_bold (String c "") = None) as -> by reflexivity.
      reflexivity.
    + rewrite rstrip_cons_nonblank by (now rewrite blank_bold).
      rewrite IH by (simpl; lia).
      pose proof (match_bold_rstrip _ Hmatch) as Hr.
      rewrite rstrip_cons_nonblank in Hr |- * by exact Hs.
      now rewrite bold_cons, Hr.
Qed.

Lemma strip_bold (s : string) : strip (bold s) = bold (strip s).
Proof. unfold strip. now rewrite lstrip_bold, rstrip_bold. Qed.

Lemma strip_idempotent (s : string) : strip (strip s) = strip s.
Proof. unfold strip at 2. now rewrite strip_rstrip, strip_lstrip. Qed.

Lemma render_visible (lines : list string) :
  forall in_list,
    render in_list lines
    = render in_list
        (map strip (filter (fun l => negb (blank l)) lines)).
Proof.
  induction lines as [| l lines IH]; intros in_list; [reflexivity |].
  cbn [render filter]. rewrite strip_empty_blank.
  destruct (blank l) eqn:Hl; cbn [negb]; [apply IH |].
  cbn [map render]. rewrite strip_idempotent, strip_empty_blank, Hl.
  now rewrite !IH.
Qed.

Lemma markdown_to_html_visible (text : string) :
  markdown_to_html text = render false (map bold (visible_lines text)).
Proof.
  rewrite markdown_to_html_lines, render_visible. unfold visible_lines.
  f_equal. induction (split_lines text) as [| l lines IH]; [reflexivity |].
  cbn [map filter]. rewrite blank_bold.
  destruct (blank l); cbn [negb map]; [exact IH |].
  now rewrite IH, strip_bold.
Qed.

(** X21: the output depends on the input only through its non-blank
    lines, stripped: blank lines, indentation and trailing white space
    never change it.  In particular a blank line between two list items
    does not split the list. *)
Theorem X21_layout_is_ignored :
  forall text1 text2 : string,
    visible_lines text1 = visible_lines text2 ->
    markdown_to_html text1 = markdown_to_html text2.
Proof.
  intros text1 text2 H. rewrite !markdown_to_html_visible. now rewrite H.
Qed.

Lemma X21_layout_is_ignored_witness :
  markdown_to_html ("* **A**" ++ LFs ++ "* B")
  = markdown_to_html ("   * **A**  " ++ LFs ++ LFs ++ "  " ++ LFs ++ "* B" ++ LFs).
Proof.
  apply (X21_layout_is_ignored ("* **A**" ++ LFs ++ "* B")
           ("   * **A**  " ++ LFs ++ LFs ++ "  " ++ LFs ++ "* B" ++ LFs)).
  reflexivity.
Defined.

End MarkdownExtras.


